(** * NeuralGCM experimental core: coordinate algebra, named axes,
      field split/combine and module vectorization utilities.

    The development has two parts.  The first part embeds the data model
    and the operations of the Python sources as executable Rocq
    definitions; the second part states and proves their properties. *)

From Stdlib Require Import List String ZArith Lia Bool Arith PeanoNat.
From Stdlib Require Import Sorted Decimal DecimalString.
From stdpp Require Import gmap strings.

Import ListNotations.
Set Warnings "-register-all".
Set Warnings "-clear-no-such-hyp".
Local Open Scope string_scope.
Local Open Scope list_scope.
Local Open Scope nat_scope.

(* ===================================================================== *)
(** * Part I: the embedding                                               *)
(* ===================================================================== *)

(** ** Python results

    A Python call either returns a value or raises.  [Result E A] keeps the
    raised exception on the left. *)

Inductive Result (E A : Type) : Type :=
| Return (a : A)
| Raise (e : E).
Arguments Return {E A} a.
Arguments Raise {E A} e.

Definition raised {E A} (r : Result E A) : bool :=
  match r with Raise _ => true | Return _ => false end.

(** [==] on tuples and lists, from [==] on their elements. *)
Section ListEqb.
Context {A : Type} (eqb : A -> A -> bool).

Fixpoint list_eqb (l1 l2 : list A) : bool :=
  match l1, l2 with
  | [], [] => true
  | x :: l1', y :: l2' => eqb x y && list_eqb l1' l2'
  | _, _ => false
  end.

End ListEqb.

(** The exceptions the modelled code raises, with their message. *)
Inductive Error : Type :=
| ValueError (message : string)
| TypeError (message : string).

(** [str(n)] for a non-negative integer. *)
Definition str_of_nat (n : nat) : string :=
  NilEmpty.string_of_uint (Nat.to_uint n).

(* --------------------------------------------------------------------- *)
(** ** coordax.coordinate_systems                                          *)
(* --------------------------------------------------------------------- *)

Module CoordinateSystems.

(** The coordinate variants of the data model.  [SizedAxis] is the variant
    the tests still construct under its former name [NamedAxis]. *)
Inductive Coordinate : Type :=
| SizedAxis (name : string) (size : nat)
| LabeledAxis (name : string) (labels : list Z)
| DummyAxis (name : string) (size : nat)
| CartesianProduct (components : list Coordinate)
| SelectedAxis (parent : Coordinate) (axis : nat)
| Scalar.

Definition NamedAxis := SizedAxis.

(** [c.axes]: the single-axis coordinates a coordinate contains, in order.
    A product flattens the axes of its components, a scalar has none and
    every other variant describes exactly one axis. *)
Fixpoint axes (c : Coordinate) : list Coordinate :=
  match c with
  | CartesianProduct cs => flat_map axes cs
  | Scalar => []
  | _ => [c]
  end.

Definition ndim (c : Coordinate) : nat := length (axes c).

(** [c.shape]: the concatenation of the leaf axis sizes. *)
Fixpoint shape (c : Coordinate) : list nat :=
  match c with
  | SizedAxis _ n => [n]
  | LabeledAxis _ labels => [length labels]
  | DummyAxis _ n => [n]
  | CartesianProduct cs => flat_map shape cs
  | SelectedAxis p i => [nth i (shape p) 0]
  | Scalar => []
  end.

(** Structural equality ([==] on the frozen dataclasses). *)

Fixpoint coordinate_eqb (c1 c2 : Coordinate) {struct c1} : bool :=
  match c1, c2 with
  | SizedAxis n1 s1, SizedAxis n2 s2 => String.eqb n1 n2 && Nat.eqb s1 s2
  | LabeledAxis n1 l1, LabeledAxis n2 l2 =>
      String.eqb n1 n2 && list_eqb Z.eqb l1 l2
  | DummyAxis n1 s1, DummyAxis n2 s2 => String.eqb n1 n2 && Nat.eqb s1 s2
  | CartesianProduct cs1, CartesianProduct cs2 =>
      list_eqb coordinate_eqb cs1 cs2
  | SelectedAxis p1 a1, SelectedAxis p2 a2 =>
      coordinate_eqb p1 p2 && Nat.eqb a1 a2
  | Scalar, Scalar => true
  | _, _ => false
  end.

(** [c.dims]: the dimension names, one per axis. *)
Fixpoint coord_dims (c : Coordinate) : list string :=
  match c with
  | SizedAxis n _ => [n]
  | LabeledAxis n _ => [n]
  | DummyAxis n _ => [n]
  | CartesianProduct cs => flat_map coord_dims cs
  | SelectedAxis p i => [nth i (coord_dims p) ""]
  | Scalar => []
  end.

(** The label values of every axis, [None] for an axis without labels. *)
Fixpoint labels (c : Coordinate) : list (option (list Z)) :=
  match c with
  | SizedAxis _ _ => [None]
  | LabeledAxis _ l => [Some l]
  | DummyAxis _ _ => [None]
  | CartesianProduct cs => flat_map labels cs
  | SelectedAxis p i => [nth i (labels p) None]
  | Scalar => []
  end.

Definition is_selected (c : Coordinate) : bool :=
  match c with SelectedAxis _ _ => true | _ => false end.

(** *** consolidate_coordinates *)

(** The entries a parent coordinate [p] is torn into: [SelectedAxis p 0],
    ..., [SelectedAxis p (ndim p - 1)]. *)
Definition full_run (p : Coordinate) : list Coordinate :=
  map (SelectedAxis p) (seq 0 (ndim p)).

(** Does a complete, correctly ordered run over [p] start at the head of
    [xs]? *)
Definition complete_run_at (p : Coordinate) (xs : list Coordinate) : bool :=
  (1 <=? ndim p) && list_eqb coordinate_eqb (firstn (ndim p) xs) (full_run p).

(** Modelled from the spec: the scan of [consolidate_coordinates] of
    coordax/coordinate_systems.py, of which only the tests are among the
    sources.  The sequence is scanned left to right.  [skip] counts the
    entries of a run that was already replaced by its parent and that are
    still to be passed over.  At an entry that starts a complete run over
    its parent [p] the parent is emitted instead of the run; every other
    entry is emitted exactly as given. *)
Fixpoint consolidate_from (skip : nat) (xs : list Coordinate)
  : list Coordinate :=
  match xs with
  | [] => []
  | x :: rest =>
      match skip with
      | S k => consolidate_from k rest
      | O =>
          match x with
          | SelectedAxis p _ =>
              if complete_run_at p xs
              then p :: consolidate_from (ndim p - 1) rest
              else x :: consolidate_from 0 rest
          | _ => x :: consolidate_from 0 rest
          end
      end
  end.

(** Modelled from the spec: [consolidate_coordinates] (section 4.1), the
    scan started with nothing to pass over. *)
Definition consolidate_coordinates (coordinates : list Coordinate)
  : list Coordinate :=
  consolidate_from 0 coordinates.

(** The product the tests use. *)
Definition PRODUCT_XY : Coordinate :=
  CartesianProduct [NamedAxis "x" 2; NamedAxis "y" 3].

(** A complete run over [p], in the words of the specification: every
    entry selects an axis of [p], the indices are strictly increasing, and
    they are exactly the indices [0 .. ndim p - 1]. *)
Definition complete_run (p : Coordinate) (run : list Coordinate) : Prop :=
  exists idxs : list nat,
    run = map (SelectedAxis p) idxs /\
    StronglySorted lt idxs /\
    (forall i, In i idxs <-> i < ndim p).

(** Some consecutive entries of [xs] form a complete run. *)
Definition has_complete_run (xs : list Coordinate) : Prop :=
  exists pre p run post,
    run <> [] /\ complete_run p run /\ xs = pre ++ run ++ post.

(** An entry that cannot continue a run: it is not a [SelectedAxis] with a
    positive index. *)
Definition run_boundary (y : Coordinate) : Prop :=
  forall p i, y <> SelectedAxis p (S i).


(** *** compose_coordinates *)

(** What an argument contributes to a composition: a [CartesianProduct] its
    components (one level of products is unravelled), [Scalar], the
    identity, nothing, and every other coordinate itself. *)
Definition components (c : Coordinate) : list Coordinate :=
  match c with
  | CartesianProduct cs => cs
  | Scalar => []
  | _ => [c]
  end.

(** [collections.Counter(dims)[d]]. *)
Definition count_dim (d : string) (dims : list string) : nat :=
  length (List.filter (String.eqb d) dims).

(** The keys of [collections.Counter(dims)]: every name once, in the order
    of the first occurrences. *)
Fixpoint counter_keys (seen dims : list string) : list string :=
  match dims with
  | [] => []
  | d :: dims' =>
      if existsb (String.eqb d) seen then counter_keys seen dims'
      else d :: counter_keys (d :: seen) dims'
  end.

(** [[dim for dim, count in Counter(dims).items() if count > 1]]. *)
Definition repeated_dims (dims : list string) : list string :=
  List.filter (fun d => 2 <=? count_dim d dims) (counter_keys [] dims).

(** [repr] of a list of strings. *)
Definition repr_str (s : string) : string := "'" ++ s ++ "'".

Definition repr_strs (l : list string) : string :=
  "[" ++ String.concat ", " (map repr_str l) ++ "]".

(** The components of the product made of the unravelled arguments: runs of
    [SelectedAxis] entries that cover their parent are replaced by the
    parent, and the construction of the product unravels a product among
    its components. *)
Definition product_of (coordinate_axes : list Coordinate) : list Coordinate :=
  flat_map components (consolidate_coordinates coordinate_axes).

(** A product of no component is returned as [Scalar], a product of one
    component as that component. *)
Definition unwrap (product : list Coordinate) : Coordinate :=
  match product with
  | [] => Scalar
  | [c] => c
  | _ => CartesianProduct product
  end.

(** Modelled from the spec: [compose_coordinates] of
    coordax/coordinate_systems.py, of which only the tests are among the
    sources.  The arguments are unravelled by one level of products and
    [Scalar], the zero-axis identity, contributes nothing (section 3 and
    section 4.1, step 1).  Runs of [SelectedAxis] entries that cover their
    parent are replaced by the parent, which is what makes of a
    [SelectedAxis] around a 1-axis parent that parent (step 2, and the rows
    [selected_axes_compoents_merge] and [consolidate_over_parts] of
    [test_compose_coordinates]).  What is left is made a product, whose
    construction refuses a dimension name that occurs twice with a
    [ValueError]; the product is returned unless it has fewer than two
    components (step 3). *)
Definition compose_coordinates (coordinates : list Coordinate)
  : Result Error Coordinate :=
  let coordinate_axes := flat_map components coordinates in
  let product := product_of coordinate_axes in
  match repeated_dims (flat_map coord_dims product) with
  | [] => Return (unwrap product)
  | repeated =>
      Raise (ValueError
               ("CartesianProduct components contain repeated_dims="
                ++ repr_strs repeated))
  end.







End CoordinateSystems.

(* --------------------------------------------------------------------- *)
(** ** coordax.named_axes                                                  *)
(* --------------------------------------------------------------------- *)

Module NamedAxes.

(** Raw array data: a shape and a row-major buffer. *)
Record Array : Type := { arr_shape : list nat; arr_buffer : list Z }.

Definition arr_ndim (a : Array) : nat := length (arr_shape a).

(** A dimension is a name or the positional marker [None]. *)
Definition Dim : Type := option string.

Record NamedArray : Type := { data : Array; dims : list Dim }.

Definition is_named (d : Dim) : bool :=
  match d with Some _ => true | None => false end.

(** The names of the named dimensions, in order of appearance. *)
Fixpoint names (ds : list Dim) : list string :=
  match ds with
  | [] => []
  | Some n :: ds' => n :: names ds'
  | None :: ds' => names ds'
  end.

(** [named_shape]: name and size of every named dimension. *)
Fixpoint named_shape_of (ds : list Dim) (shp : list nat)
  : list (string * nat) :=
  match ds, shp with
  | Some n :: ds', s :: shp' => (n, s) :: named_shape_of ds' shp'
  | None :: ds', _ :: shp' => named_shape_of ds' shp'
  | _, _ => []
  end.

Definition named_shape (a : NamedArray) : list (string * nat) :=
  named_shape_of (dims a) (arr_shape (data a)).

(** [positional_shape]: the sizes of the positional dimensions, in order. *)
Fixpoint positional_shape_of (ds : list Dim) (shp : list nat) : list nat :=
  match ds, shp with
  | None :: ds', s :: shp' => s :: positional_shape_of ds' shp'
  | Some _ :: ds', _ :: shp' => positional_shape_of ds' shp'
  | _, _ => []
  end.

Definition positional_shape (a : NamedArray) : list nat :=
  positional_shape_of (dims a) (arr_shape (data a)).

Definition named_shape_eqb (s1 s2 : list (string * nat)) : bool :=
  list_eqb
    (fun p q => String.eqb (fst p) (fst q) && Nat.eqb (snd p) (snd q)) s1 s2.

Inductive UnflattenError : Type :=
| NamedShapeMismatch (new_shape old_shape : list (string * nat))
| CannotTrimNamed (trimmed : list Dim).

(** Modelled from the spec: the rebuild half ([tree_unflatten]) of the
    structural-transform contract of coordax/named_axes.py, of which only
    the tests are among the sources.  [prev] is the array that was
    flattened, [leaf] the possibly transformed raw data. *)
Definition tree_unflatten (prev : NamedArray) (leaf : Array)
  : Result UnflattenError NamedArray :=
  let old_dims := dims prev in
  let k := arr_ndim leaf in
  if k =? length old_dims then
    let new_shape := named_shape_of old_dims (arr_shape leaf) in
    if named_shape_eqb new_shape (named_shape prev)
    then Return {| data := leaf; dims := old_dims |}
    else Raise (NamedShapeMismatch new_shape (named_shape prev))
  else if length old_dims <? k then
    Return {| data := leaf;
              dims := repeat None (k - length old_dims) ++ old_dims |}
  else
    let n_trimmed := length old_dims - k in
    let trimmed := firstn n_trimmed old_dims in
    if existsb is_named trimmed
    then Raise (CannotTrimNamed trimmed)
    else Return {| data := leaf; dims := skipn n_trimmed old_dims |}.

(** The data of the tests: [np.arange(10).reshape((2, 5))]. *)
Definition test_data : Array :=
  {| arr_shape := [2; 5]; arr_buffer := map Z.of_nat (seq 0 10) |}.

End NamedAxes.

(* --------------------------------------------------------------------- *)
(** ** core.field_utils                                                    *)
(* --------------------------------------------------------------------- *)

Module FieldUtils.
Import CoordinateSystems.

(** What [cx.wrap] attaches to an axis: nothing ([None]), a bare name or a
    1-axis coordinate. *)
Inductive AxisTag : Type :=
| Positional
| NamedDim (name : string)
| CoordAxis (c : Coordinate).

(** A field: one tag per axis, the shape of the data and the data itself,
    read through its index function. *)
Record Field : Type := {
  f_tags : list AxisTag;
  f_shape : list nat;
  f_at : list nat -> Z
}.

Definition tag_eqb (a b : AxisTag) : bool :=
  match a, b with
  | Positional, Positional => true
  | NamedDim n, NamedDim m => String.eqb n m
  | CoordAxis c, CoordAxis d => coordinate_eqb c d
  | _, _ => false
  end.

Definition tag_dim (a : AxisTag) : option string :=
  match a with
  | Positional => None
  | NamedDim n => Some n
  | CoordAxis c => Some (hd "" (coord_dims c))
  end.

Fixpoint remove_nth {A} (i : nat) (l : list A) : list A :=
  match l, i with
  | [], _ => []
  | _ :: l', O => l'
  | x :: l', S i' => x :: remove_nth i' l'
  end.

Fixpoint insert_nth {A} (i : nat) (x : A) (l : list A) : list A :=
  match i, l with
  | O, _ => x :: l
  | S i', y :: l' => y :: insert_nth i' x l'
  | S _, [] => [x]
  end.

Definition sum_list (l : list nat) : nat := fold_right Nat.add 0 l.

(** *** split_to_fields *)

Definition in_target (t : Coordinate) (a : AxisTag) : bool :=
  match a with
  | CoordAxis c => existsb (coordinate_eqb c) (axes t)
  | _ => false
  end.

(** The axes of the field that no target mentions. *)
Definition split_candidates (field : Field)
  (targets : list (string * Coordinate)) : list nat :=
  List.filter
    (fun i => negb (existsb (fun t => in_target (snd t)
                                        (nth i (f_tags field) Positional))
                            targets))
    (seq 0 (length (f_tags field))).

Definition present (non_split : list AxisTag) (c : Coordinate) : bool :=
  existsb (tag_eqb (CoordAxis c)) non_split.

(** The components of a target that are new, and those it retains from the
    non-split axes of the field. *)
Definition new_axes (non_split : list AxisTag) (t : Coordinate)
  : list Coordinate :=
  List.filter (fun c => negb (present non_split c)) (axes t).

Definition retained (non_split : list AxisTag) (t : Coordinate)
  : list Coordinate :=
  List.filter (present non_split) (axes t).

Definition aligned (non_split : list AxisTag) (t : Coordinate) : bool :=
  list_eqb tag_eqb (map CoordAxis (retained non_split t)) non_split.

(** The size a target takes from the split axis: the size of its new axis,
    1 when it has none. *)
Definition new_size (non_split : list AxisTag) (t : Coordinate) : nat :=
  match new_axes non_split t with
  | [] => 1
  | c :: _ => hd 0 (shape c)
  end.

Definition misaligned_message : string :=
  "does not specify a valid split element because it is not aligned with the non-split part of input field".

Definition too_many_new_message : string :=
  "has more than 1 new axis compared to input field".

Definition size_mismatch_message (total split_size : nat) : string :=
  "The total size of the dimensions defined in `targets` ("
  ++ str_of_nat total
  ++ ") does not match the size of the dimension being split in the input field ("
  ++ str_of_nat split_size ++ ").".

(** The per-target verification: alignment first, then the number of new
    axes. *)
Fixpoint check_targets (non_split : list AxisTag)
  (targets : list (string * Coordinate)) : Result Error unit :=
  match targets with
  | [] => Return tt
  | (_, t) :: rest =>
      if negb (aligned non_split t) then Raise (ValueError misaligned_message)
      else if 1 <? length (new_axes non_split t)
      then Raise (ValueError too_many_new_message)
      else check_targets non_split rest
  end.

Definition total_new_size (non_split : list AxisTag)
  (targets : list (string * Coordinate)) : nat :=
  sum_list (map (fun t => new_size non_split (snd t)) targets).

(** Position of the new axis among the axes of a target. *)
Fixpoint new_axis_position (non_split : list AxisTag)
  (cs : list Coordinate) : option nat :=
  match cs with
  | [] => None
  | c :: cs' =>
      if present non_split c
      then option_map S (new_axis_position non_split cs')
      else Some 0
  end.

(** The slice of the field a target receives: [offset] is where its share
    of the split axis [i] begins. *)
Definition slice_for (field : Field) (i : nat) (non_split : list AxisTag)
  (offset : nat) (t : Coordinate) : Field :=
  {| f_tags := map CoordAxis (axes t);
     f_shape := flat_map shape (axes t);
     f_at := fun idx =>
       match new_axis_position non_split (axes t) with
       | Some j =>
           f_at field (insert_nth i (offset + nth j idx 0) (remove_nth j idx))
       | None => f_at field (insert_nth i offset idx)
       end |}.

Fixpoint slices (field : Field) (i : nat) (non_split : list AxisTag)
  (offset : nat) (targets : list (string * Coordinate))
  : list (string * Field) :=
  match targets with
  | [] => []
  | (name, t) :: rest =>
      (name, slice_for field i non_split offset t)
      :: slices field i non_split (offset + new_size non_split t) rest
  end.

(** Modelled from the spec: [split_to_fields] of core/field_utils.py, of
    which only the tests are among the sources.  The split axis is the one
    axis of the field that no target mentions: the size equation by which
    section 4.3 characterises it is the one the last verification step
    checks, and the test of the wrong split size reports the size of that
    axis.  The targets are verified one by one against the remaining axes,
    then the total of their new-axis sizes is compared with the size of the
    split axis.  The messages keep the fixed part of the text of the
    errors. *)
Definition split_to_fields (field : Field)
  (targets : list (string * Coordinate))
  : Result Error (list (string * Field)) :=
  match split_candidates field targets with
  | [i] =>
      let non_split := remove_nth i (f_tags field) in
      match check_targets non_split targets with
      | Raise e => Raise e
      | Return _ =>
          let total := total_new_size non_split targets in
          let split_size := nth i (f_shape field) 0 in
          if total =? split_size
          then Return (slices field i non_split 0 targets)
          else Raise (ValueError (size_mismatch_message total split_size))
      end
  | _ => Raise (ValueError misaligned_message)
  end.

(** *** combine_fields *)

(** An entry of [dims_to_align]: a name or a coordinate. *)
Inductive AlignSpec : Type :=
| AlignName (name : string)
| AlignCoord (c : Coordinate).

Definition align_dims (d : AlignSpec) : list string :=
  match d with
  | AlignName n => [n]
  | AlignCoord c => coord_dims c
  end.

Definition is_aligned_dim (aligned_dims : list string) (a : AxisTag) : bool :=
  match tag_dim a with
  | Some n => existsb (String.eqb n) aligned_dims
  | None => false
  end.

Fixpoint has_repeats (l : list string) : bool :=
  match l with
  | [] => false
  | x :: l' => existsb (String.eqb x) l' || has_repeats l'
  end.

(** The positions of the axes of a field that are not aligned. *)
Definition extra_positions (aligned_dims : list string) (f : Field)
  : list nat :=
  List.filter
    (fun i => negb (is_aligned_dim aligned_dims (nth i (f_tags f) Positional)))
    (seq 0 (length (f_tags f))).

(** Size of the extra axis of a field; a field without one counts as 1. *)
Definition extent (aligned_dims : list string) (f : Field) : nat :=
  match extra_positions aligned_dims f with
  | j :: _ => nth j (f_shape f) 0
  | [] => 1
  end.

(** The field seen with its extra axis in front: entry [k] of the extra
    axis at the aligned index [idx]. *)
Definition view (aligned_dims : list string) (f : Field) (k : nat)
  (idx : list nat) : Z :=
  match extra_positions aligned_dims f with
  | j :: _ => f_at f (insert_nth j k idx)
  | [] => f_at f idx
  end.

(** The aligned axes of a field with their sizes, in the order of the
    field. *)
Definition aligned_part (aligned_dims : list string) (f : Field)
  : list (AxisTag * nat) :=
  List.filter (fun p => is_aligned_dim aligned_dims (fst p))
              (combine (f_tags f) (f_shape f)).

Definition aligned_part_eqb (p q : list (AxisTag * nat)) : bool :=
  list_eqb (fun a b => tag_eqb (fst a) (fst b) && Nat.eqb (snd a) (snd b)) p q.

Definition covers (aligned_dims : list string) (f : Field) : bool :=
  forallb
    (fun d => existsb (fun a => match tag_dim a with
                                | Some n => String.eqb n d
                                | None => false
                                end) (f_tags f))
    aligned_dims.

Fixpoint check_fields (aligned_dims : list string)
  (fields : list (string * Field)) : Result Error unit :=
  match fields with
  | [] => Return tt
  | (_, f) :: rest =>
      if negb (covers aligned_dims f)
      then Raise (ValueError "does not align with")
      else if 1 <? length (extra_positions aligned_dims f)
      then Raise (ValueError "has more than 1 axis other than")
      else check_fields aligned_dims rest
  end.

(** Concatenation along the extra axis: entry [i] of the result belongs to
    the first field whose share of the axis contains it. *)
Fixpoint concatenated (aligned_dims : list string) (fs : list Field)
  (i : nat) (idx : list nat) : Z :=
  match fs with
  | [] => 0%Z
  | f :: fs' =>
      if i <? extent aligned_dims f
      then view aligned_dims f i idx
      else concatenated aligned_dims fs' (i - extent aligned_dims f) idx
  end.

Definition total_extent (aligned_dims : list string) (fs : list Field) : nat :=
  sum_list (map (extent aligned_dims) fs).

(** Modelled from the spec: [combine_fields] of core/field_utils.py, of
    which only the tests are among the sources.  [out_axis_tag] is the tag
    of the combined axis, [Positional] when the caller gives none. *)
Definition combine_fields (fields : list (string * Field))
  (dims_to_align : list AlignSpec) (out_axis_tag : AxisTag)
  : Result Error Field :=
  let aligned_dims := flat_map align_dims dims_to_align in
  if has_repeats aligned_dims
  then Raise (ValueError "`dims_to_align` must be unique")
  else
    match check_fields aligned_dims fields with
    | Raise e => Raise e
    | Return _ =>
        match map snd fields with
        | [] => Raise (ValueError "No unique out_axes found in inputs")
        | f0 :: fs =>
            let out := aligned_part aligned_dims f0 in
            if forallb (fun f => aligned_part_eqb (aligned_part aligned_dims f)
                                                  out) fs
            then Return
                   {| f_tags := out_axis_tag :: map fst out;
                      f_shape := total_extent aligned_dims (f0 :: fs)
                                 :: map snd out;
                      f_at := fun idx =>
                        concatenated aligned_dims (f0 :: fs)
                                     (hd 0 idx) (tl idx) |}
            else Raise (ValueError "No unique out_axes found in inputs")
        end
    end.

(** *** Test fixtures *)

(** The field of [test_split_to_fields_flat_out] and of
    [test_split_to_fields_raises_on_wrong_split_size]:
    [np.arange(6).reshape(3, 2)] over a batch axis and [x]. *)
Definition batch3 : Coordinate := SizedAxis "batch" 3.
Definition x01 : Coordinate := LabeledAxis "x" [0; 1]%Z.
Definition arange_3_2 : Field :=
  {| f_tags := [CoordAxis batch3; CoordAxis x01];
     f_shape := [3; 2];
     f_at := fun idx => Z.of_nat (2 * nth 0 idx 0 + nth 1 idx 0) |}.

(** [np.arange(12).reshape(6, 2)] over a batch axis and [x]. *)
Definition arange_6_2 : Field :=
  {| f_tags := [CoordAxis (SizedAxis "batch" 6); CoordAxis x01];
     f_shape := [6; 2];
     f_at := fun idx => Z.of_nat (2 * nth 0 idx 0 + nth 1 idx 0) |}.

(** A field of ones. *)
Definition ones (tags : list AxisTag) (shp : list nat) : Field :=
  {| f_tags := tags; f_shape := shp; f_at := fun _ => 1%Z |}.

End FieldUtils.

(* --------------------------------------------------------------------- *)
(** ** core.module_utils                                                   *)
(* --------------------------------------------------------------------- *)

Module ModuleUtils.
Import CoordinateSystems.

(** *** nnx filters *)

(** A Python class, by name. *)
Definition cls : Type := string.

(** The predicates of [nnx.filterlib].  [Callable] stands for every other
    callable a filter may be, identified by the object it is. *)
Inductive Predicate : Type :=
| Nothing
| Everything
| Not (predicate : Predicate)
| Any (predicates : list Predicate)
| All (predicates : list Predicate)
| OfType (type : cls)
| WithTag (tag : string)
| PathContains (key : string)
| Callable (id : nat).

Fixpoint predicate_eqb (p q : Predicate) {struct p} : bool :=
  match p, q with
  | Nothing, Nothing => true
  | Everything, Everything => true
  | Not p', Not q' => predicate_eqb p' q'
  | Any ps, Any qs => list_eqb predicate_eqb ps qs
  | All ps, All qs => list_eqb predicate_eqb ps qs
  | OfType t1, OfType t2 => String.eqb t1 t2
  | WithTag t1, WithTag t2 => String.eqb t1 t2
  | PathContains k1, PathContains k2 => String.eqb k1 k2
  | Callable i, Callable j => Nat.eqb i j
  | _, _ => false
  end.

(** What may be written where a filter is expected. *)
Inductive Filter : Type :=
| FStr (s : string)
| FType (t : cls)
| FBool (b : bool)
| FEllipsis
| FNone
| FPredicate (p : Predicate)
| FSeq (fs : list Filter).

Fixpoint filter_eqb (f g : Filter) {struct f} : bool :=
  match f, g with
  | FStr s1, FStr s2 => String.eqb s1 s2
  | FType t1, FType t2 => String.eqb t1 t2
  | FBool b1, FBool b2 => Bool.eqb b1 b2
  | FEllipsis, FEllipsis => true
  | FNone, FNone => true
  | FPredicate p, FPredicate q => predicate_eqb p q
  | FSeq fs, FSeq gs => list_eqb filter_eqb fs gs
  | _, _ => false
  end.

(** [nnx.filterlib.to_predicate]. *)
Fixpoint to_predicate (f : Filter) : Predicate :=
  match f with
  | FStr s => WithTag s
  | FType t => OfType t
  | FBool true => Everything
  | FBool false => Nothing
  | FEllipsis => Everything
  | FNone => Nothing
  | FPredicate p => p
  | FSeq fs => Any (map to_predicate fs)
  end.

(** *** Module state *)

(** A field of the module state: its coordinate and its data, read through
    the index function. *)
Record Field : Type := {
  coordinate : Coordinate;
  values : list nat -> Z
}.

Inductive Leaf : Type :=
| FieldLeaf (f : Field)
| ArrayLeaf (shape : list nat) (buffer : list Z).

Definition is_field (x : Leaf) : bool :=
  match x with FieldLeaf _ => true | ArrayLeaf _ _ => false end.

(** A state variable: its variable type, its tag when it has one, and the
    value it holds. *)
Record StateVar : Type := {
  var_type : cls;
  var_tag : option string;
  var_value : Leaf
}.

Definition Path : Type := list string.

(** The state of a module: its variables by path. *)
Abbreviation ModuleState := (gmap (list string) StateVar).

(** The exceptions of this module. *)
Inductive Exn : Type :=
| OverlappingFilters (k1 k2 : Filter) (* ValueError, merge_vectorized_axes *)
| NotAField                           (* ValueError, vectorize_module *)
| AxisNotPresent (caller : string)    (* ValueError, (un)tag_module_state *)
| ReduceOfEmpty                       (* TypeError, functools.reduce *)
| KeyError (k : Filter)
| StopIteration
| CoordaxError (e : Error).           (* raised inside coordax *)

Definition is_ValueError (e : Exn) : bool :=
  match e with
  | OverlappingFilters _ _ | NotAField | AxisNotPresent _ => true
  | CoordaxError (ValueError _) => true
  | _ => false
  end.

(** What the code takes from its environment: the class hierarchy, the
    callables used as filters, the order in which a set yields its
    elements, and coordax's [tag] and [untag] on a leaf. *)
Class PyEnv : Type := {
  issubclass : cls -> cls -> bool;
  call : nat -> Path -> StateVar -> bool;
  set_iter : list Filter -> list Filter;
  cx_tag : Coordinate -> Leaf -> Result Exn Leaf;
  cx_untag : Coordinate -> Leaf -> Result Exn Leaf
}.

(** A class table lists the direct bases of every class; [issubclass]
    follows them, as Python does along the method resolution order. *)
Definition ClassTable : Type := list (cls * list cls).

Fixpoint bases_of (table : ClassTable) (c : cls) : list cls :=
  match table with
  | [] => []
  | (c', bs) :: table' => if String.eqb c' c then bs else bases_of table' c
  end.

Fixpoint issubclass_in (table : ClassTable) (fuel : nat) (c t : cls) : bool :=
  String.eqb c t
  || match fuel with
     | O => false
     | S n => existsb (fun b => issubclass_in table n b t) (bases_of table c)
     end.

(** The environment of a program with the given classes, no callable
    filters, sets that yield their elements in the order they were built
    from, and [tag]/[untag] that leave a leaf as it is. *)
Definition class_table_env (table : ClassTable) : PyEnv :=
  {| issubclass := issubclass_in table (length table);
     call := fun _ _ _ => false;
     set_iter := fun l => l;
     cx_tag := fun _ x => Return x;
     cx_untag := fun _ x => Return x |}.

(** Two variable types with a common subclass. *)
Definition diamond : ClassTable :=
  [("Variable", []); ("Param", ["Variable"]); ("Cache", ["Variable"]);
   ("CachedParam", ["Param"; "Cache"])].

(** A module with a weight that is a field over [x] and statistics kept as
    a raw array. *)
Definition weight : StateVar :=
  {| var_type := "Param"; var_tag := None;
     var_value := FieldLeaf {| coordinate := SizedAxis "x" 3;
                               values := fun idx => Z.of_nat (nth 0 idx 0) |} |}.

Definition statistics : StateVar :=
  {| var_type := "Cache"; var_tag := None;
     var_value := ArrayLeaf [3] [0; 0; 0]%Z |}.

Definition small_module : ModuleState :=
  <[ ["w"] := weight ]> (<[ ["stats"] := statistics ]> ∅).

(** The coordinate of the field at a path, when there is one. *)
Definition coordinate_at (module : ModuleState) (path : Path)
  : option Coordinate :=
  match module !! path with
  | Some x =>
      match var_value x with
      | FieldLeaf f => Some (coordinate f)
      | ArrayLeaf _ _ => None
      end
  | None => None
  end.

(** In a hierarchy with single inheritance two classes with a common
    subclass are in the subclass relation. *)
Definition single_inheritance (env : PyEnv) : Prop :=
  forall c a b,
    issubclass c a = true -> issubclass c b = true ->
    issubclass a b = true \/ issubclass b a = true.

(** A set yields exactly its elements. *)
Definition set_iter_ok (env : PyEnv) : Prop :=
  forall l k, In k (set_iter l) <-> In k l.

Section WithEnv.
Context {env : PyEnv}.

(** [predicate(path, value)].  [OfType] looks at the variable type of the
    state, [WithTag] at its tag. *)
Fixpoint holds (p : Predicate) (path : Path) (x : StateVar) : bool :=
  match p with
  | Nothing => false
  | Everything => true
  | Not q => negb (holds q path x)
  | Any ps => existsb (fun q => holds q path x) ps
  | All ps => forallb (fun q => holds q path x) ps
  | OfType t => issubclass (var_type x) t
  | WithTag t =>
      match var_tag x with
      | Some t' => String.eqb t' t
      | None => false
      end
  | PathContains k => existsb (String.eqb k) path
  | Callable id => call id path x
  end.

Definition matches (f : Filter) (path : Path) (x : StateVar) : bool :=
  holds (to_predicate f) path x.

(** *** _are_certainly_disjoint_predicates, _are_certainly_disjoint_filters *)

Fixpoint predicate_size (p : Predicate) : nat :=
  match p with
  | Not q => S (predicate_size q)
  | Any ps => S (fold_right (fun q n => predicate_size q + n) 0 ps)
  | All ps => S (fold_right (fun q n => predicate_size q + n) 0 ps)
  | _ => 1
  end.

Definition is_Nothing (p : Predicate) : bool :=
  match p with Nothing => true | _ => false end.

(** The two functions call each other, the second with its arguments in
    both orders; [fuel] bounds the depth of the calls.  The calls on
    sub-predicates go through [_are_certainly_disjoint_filters], whose
    [to_predicate] leaves a predicate as it is. *)
Fixpoint disjoint_predicates_fuel (fuel : nat) (p1 p2 : Predicate) : bool :=
  match fuel with
  | O => false
  | S n =>
      let disjoint_filters a b :=
        disjoint_predicates_fuel n a b || disjoint_predicates_fuel n b a in
      match p1 with
      | Nothing => true
      | Everything => is_Nothing p2
      | Not q => predicate_eqb q p2
      | Any ps => forallb (fun sub_p => disjoint_filters sub_p p2) ps
      | All ps => existsb (fun sub_p => disjoint_filters sub_p p2) ps
      | OfType t1 =>
          match p2 with
          | OfType t2 => negb (issubclass t1 t2) && negb (issubclass t2 t1)
          | _ => false
          end
      | WithTag tag1 =>
          match p2 with
          | WithTag tag2 => negb (String.eqb tag1 tag2)
          | _ => false
          end
      | _ => false
      end
  end.

Definition _are_certainly_disjoint_predicates (p1 p2 : Predicate) : bool :=
  disjoint_predicates_fuel (predicate_size p1 + predicate_size p2) p1 p2.

Definition _are_certainly_disjoint_filters (filter_a filter_b : Filter)
  : bool :=
  let p1 := to_predicate filter_a in
  let p2 := to_predicate filter_b in
  let ab_direction_disjoint := _are_certainly_disjoint_predicates p1 p2 in
  let ba_direction_disjoint := _are_certainly_disjoint_predicates p2 p1 in
  ab_direction_disjoint || ba_direction_disjoint.

(** *** _is_certainly_subset_predicate, is_filter_subset *)

Definition is_Everything (p : Predicate) : bool :=
  match p with Everything => true | _ => false end.

(** The function calls itself on sub-predicates of either argument and,
    for two negations, with the arguments exchanged; [fuel] bounds the
    depth of the calls.  The tests are made in the order of the source. *)
Fixpoint subset_predicate_fuel (fuel : nat) (p1 p2 : Predicate) : bool :=
  match fuel with
  | O => false
  | S n =>
      if is_Everything p2 then true
      else if is_Nothing p1 then true
      else if predicate_eqb p1 p2 then true
      else if match p1, p2 with
              | OfType t1, OfType t2 => issubclass t1 t2
              | _, _ => false
              end then true
      else
        match p1, p2 with
        | Any ps, _ =>
            forallb (fun sub_p => subset_predicate_fuel n sub_p p2) ps
        | _, Any qs =>
            existsb (fun sub_p => subset_predicate_fuel n p1 sub_p) qs
        | All ps, _ =>
            existsb (fun sub_p => subset_predicate_fuel n sub_p p2) ps
        | _, All qs =>
            forallb (fun sub_p => subset_predicate_fuel n p1 sub_p) qs
        | Not q1, Not q2 => subset_predicate_fuel n q2 q1
        | _, _ => false
        end
  end.

Definition _is_certainly_subset_predicate (p1 p2 : Predicate) : bool :=
  subset_predicate_fuel (predicate_size p1 + predicate_size p2) p1 p2.

Definition is_filter_subset (f filter_group : Filter) : bool :=
  let p1 := to_predicate f in
  let p2 := to_predicate filter_group in
  _is_certainly_subset_predicate p1 p2.

(** *** State access *)

(** [nnx.state(module, k)]: the variables the filter selects. *)
Definition nnx_state (module : ModuleState) (k : Filter) : ModuleState :=
  filter (fun pv => matches k (fst pv) (snd pv) = true) module.

(** [nnx.update(module, state)]: the given variables replace those of the
    module at the same paths. *)
Definition nnx_update (module state : ModuleState) : ModuleState :=
  state ∪ module.

(** Mapping a function over the leaves, in order; the first exception
    ends the traversal. *)
Fixpoint map_leaves (f : Leaf -> Result Exn Leaf)
  (l : list (Path * StateVar)) : Result Exn (list (Path * StateVar)) :=
  match l with
  | [] => Return []
  | (p, x) :: l' =>
      match f (var_value x) with
      | Raise e => Raise e
      | Return y =>
          match map_leaves f l' with
          | Raise e => Raise e
          | Return r =>
              Return ((p, {| var_type := var_type x; var_tag := var_tag x;
                             var_value := y |}) :: r)
          end
      end
  end.

(** [jax.tree.map(f, state, is_leaf=cx.is_field)]. *)
Definition tree_map (f : Leaf -> Result Exn Leaf) (state : ModuleState)
  : Result Exn ModuleState :=
  match map_leaves f (map_to_list state) with
  | Raise e => Raise e
  | Return l => Return (list_to_map l)
  end.

(** *** vectorize_module *)

(** [x.broadcast_like(c)] where [c] puts new axes in front of those of
    [x]: the data does not depend on the new leading indices. *)
Definition broadcast_like (x : Field) (c : Coordinate) : Field :=
  {| coordinate := c;
     values := fun idx => values x (skipn (ndim c - ndim (coordinate x)) idx) |}.

(** [cx.compose_coordinates] as the functions of the module
    call it: what coordax raises is raised by the caller. *)
Definition cx_compose_coordinates (coordinates : list Coordinate)
  : Result Exn Coordinate :=
  match compose_coordinates coordinates with
  | Return c => Return c
  | Raise e => Raise (CoordaxError e)
  end.

Definition broadcast (coord : Coordinate) (x : Leaf) : Result Exn Leaf :=
  match x with
  | FieldLeaf f =>
      match cx_compose_coordinates [coord; coordinate f] with
      | Raise e => Raise e
      | Return c => Return (FieldLeaf (broadcast_like f c))
      end
  | ArrayLeaf _ _ => Raise NotAField
  end.

(** The module is updated in place: the function returns the state the
    module is left in together with the outcome of the call. *)
Fixpoint vectorize_module (module : ModuleState)
  (vectorization_specs : list (Filter * Coordinate))
  : ModuleState * Result Exn unit :=
  match vectorization_specs with
  | [] => (module, Return tt)
  | (k, coord) :: rest =>
      match tree_map (broadcast coord) (nnx_state module k) with
      | Raise e => (module, Raise e)
      | Return k_state => vectorize_module (nnx_update module k_state) rest
      end
  end.

(** *** untag_module_state, tag_module_state *)

Definition axis_in (ax : Coordinate) (s : list Coordinate) : bool :=
  existsb (coordinate_eqb ax) s.

(** [functools.reduce(operator.or_, sets)], without an initial value. *)
Definition reduce_or (sets : list (list Coordinate))
  : Result Exn (list Coordinate) :=
  match sets with
  | [] => Raise ReduceOfEmpty
  | s :: rest => Return (fold_left (fun acc s' => acc ++ s') rest s)
  end.

(** The loop the two functions share: [op] is [cx.tag] or [cx.untag]. *)
Fixpoint apply_to_state (op : Coordinate -> Leaf -> Result Exn Leaf)
  (module : ModuleState) (coord_axes : list Coordinate)
  (vectorized_axes : list (Filter * Coordinate))
  : ModuleState * Result Exn unit :=
  match vectorized_axes with
  | [] => (module, Return tt)
  | (state_filter, coord) :: rest =>
      let components :=
        List.filter (fun ax => axis_in ax (axes coord)) coord_axes in
      match components with
      | [] => apply_to_state op module coord_axes rest
      | _ =>
          match cx_compose_coordinates components with
          | Raise e => (module, Raise e)
          | Return axis =>
              match tree_map (op axis) (nnx_state module state_filter) with
              | Raise e => (module, Raise e)
              | Return new_state =>
                  apply_to_state op (nnx_update module new_state) coord_axes
                    rest
              end
          end
      end
  end.

Definition module_state_op (caller : string)
  (op : Coordinate -> Leaf -> Result Exn Leaf)
  (module : ModuleState) (coord : Coordinate)
  (vectorized_axes : list (Filter * Coordinate))
  : ModuleState * Result Exn unit :=
  match reduce_or (map (fun kv => axes (snd kv)) vectorized_axes) with
  | Raise e => (module, Raise e)
  | Return vectorized_axes_set =>
      if existsb (fun ax => negb (axis_in ax vectorized_axes_set)) (axes coord)
      then (module, Raise (AxisNotPresent caller))
      else apply_to_state op module (axes coord) vectorized_axes
  end.

Definition untag_module_state :=
  module_state_op "untag_module_state" cx_untag.

Definition tag_module_state :=
  module_state_op "tag_module_state" cx_tag.

(** *** Dictionaries keyed by filters, in insertion order

    A dictionary is the list of its entries; [dict_get] finds the entry of
    a key. *)

Definition Dict : Type := list (Filter * Coordinate).

Definition dict_keys (d : Dict) : list Filter := map fst d.

Fixpoint dict_get (d : Dict) (k : Filter) : option Coordinate :=
  match d with
  | [] => None
  | (k', v) :: d' => if filter_eqb k' k then Some v else dict_get d' k
  end.

Definition dict_contains (d : Dict) (k : Filter) : bool :=
  match dict_get d k with Some _ => true | None => false end.

(** The dictionary without the entry of [k]. *)
Definition dict_remove (d : Dict) (k : Filter) : Dict :=
  List.filter (fun kv => negb (filter_eqb (fst kv) k)) d.

(** [d.pop(k, default)]: the value and the dictionary without the key. *)
Definition dict_pop (d : Dict) (k : Filter) (default : Coordinate)
  : Coordinate * Dict :=
  match dict_get d k with
  | Some v => (v, dict_remove d k)
  | None => (default, d)
  end.

(** [d[k] = v]: a key that is present keeps its place. *)
Fixpoint dict_set (d : Dict) (k : Filter) (v : Coordinate) : Dict :=
  match d with
  | [] => [(k, v)]
  | (k', v') :: d' =>
      if filter_eqb k' k then (k', v) :: d' else (k', v') :: dict_set d' k v
  end.

Definition dict_update (d other : Dict) : Dict :=
  fold_left (fun acc kv => dict_set acc (fst kv) (snd kv)) other d.

(** [d.get(k, default)]. *)
Definition dict_get_default (d : Dict) (k : Filter) (default : Coordinate)
  : Coordinate :=
  match dict_get d k with
  | Some v => v
  | None => default
  end.

(** Every entry of [d] holds the value [g] assigns to its key. *)
Definition functional (g : Filter -> Coordinate) (d : Dict) : Prop :=
  Forall (fun kv => snd kv = g (fst kv)) d.

(** The composition a merge of [head] and [tail] makes for the key [k]:
    that of the two coordinates, the wildcard coordinate of the other
    mapping ([Scalar] when it has none) standing in for a missing one. *)
Definition merged_value (head tail : Dict) (k : Filter)
  : option (Result Exn Coordinate) :=
  let head_wildcard := dict_get_default head FEllipsis Scalar in
  let tail_wildcard := dict_get_default tail FEllipsis Scalar in
  match dict_get head k, dict_get tail k with
  | Some h, Some t => Some (cx_compose_coordinates [h; t])
  | Some h, None => Some (cx_compose_coordinates [h; tail_wildcard])
  | None, Some t => Some (cx_compose_coordinates [head_wildcard; t])
  | None, None => None
  end.

(** [d[k]]. *)
Definition getitem (d : Dict) (k : Filter) : Result Exn Coordinate :=
  match dict_get d k with
  | Some v => Return v
  | None => Raise (KeyError k)
  end.

(** [{k: f(k) for k in keys}]: the entries are set one after the other. *)
Fixpoint dict_comprehension_from (acc : Dict)
  (f : Filter -> Result Exn Coordinate) (keys : list Filter)
  : Result Exn Dict :=
  match keys with
  | [] => Return acc
  | k :: keys' =>
      match f k with
      | Raise e => Raise e
      | Return v => dict_comprehension_from (dict_set acc k v) f keys'
      end
  end.

Definition dict_comprehension (f : Filter -> Result Exn Coordinate)
  (keys : list Filter) : Result Exn Dict :=
  dict_comprehension_from [] f keys.

Definition key_in (k : Filter) (keys : list Filter) : bool :=
  existsb (filter_eqb k) keys.

(** *** merge_vectorized_axes *)

Definition certainly_disjoint_pair (kk : Filter * Filter) : bool :=
  _are_certainly_disjoint_filters (fst kk) (snd kk).

(** [set(a.keys()).intersection(b.keys())] and
    [set(a.keys()).difference(b.keys())], as the sets yield their
    elements. *)
Definition common_keys_of (a b : Dict) : list Filter :=
  set_iter (List.filter (fun k => key_in k (dict_keys b)) (dict_keys a)).

Definition diff_keys_of (a b : Dict) : list Filter :=
  set_iter (List.filter (fun k => negb (key_in k (dict_keys b))) (dict_keys a)).

Definition merge_vectorized_axes
  (vectorized_axes_head vectorized_axes_tail : Dict) : Result Exn Dict :=
  let '(head_ellipsis_axes, head) :=
    dict_pop vectorized_axes_head FEllipsis Scalar in
  let '(tail_ellipsis_axes, tail) :=
    dict_pop vectorized_axes_tail FEllipsis Scalar in
  let common_keys := common_keys_of head tail in
  let diff_head_keys := diff_keys_of head tail in
  let diff_tail_keys := diff_keys_of tail head in
  match dict_comprehension
          (fun k => match getitem head k with
                    | Raise e => Raise e
                    | Return h =>
                        match getitem tail k with
                        | Raise e => Raise e
                        | Return t => cx_compose_coordinates [h; t]
                        end
                    end) common_keys with
  | Raise e => Raise e
  | Return merged =>
  match dict_comprehension
          (fun k => match getitem head k with
                    | Raise e => Raise e
                    | Return h =>
                        cx_compose_coordinates [h; tail_ellipsis_axes]
                    end) diff_head_keys with
  | Raise e => Raise e
  | Return diff_head =>
  match dict_comprehension
          (fun k => match getitem tail k with
                    | Raise e => Raise e
                    | Return t =>
                        cx_compose_coordinates [head_ellipsis_axes; t]
                    end) diff_tail_keys with
  | Raise e => Raise e
  | Return diff_tail =>
      let pairs := list_prod diff_head_keys diff_tail_keys in
      if negb (forallb certainly_disjoint_pair pairs) then
        match find (fun kk => negb (certainly_disjoint_pair kk)) pairs with
        | Some potentially_overlapping =>
            Raise (OverlappingFilters (fst potentially_overlapping)
                                      (snd potentially_overlapping))
        | None => Raise StopIteration
        end
      else
        let merged := dict_update merged diff_head in
        let merged := dict_update merged diff_tail in
        match cx_compose_coordinates
                [head_ellipsis_axes; tail_ellipsis_axes] with
        | Raise e => Raise e
        | Return combined_ellipsis =>
            if dict_contains vectorized_axes_head FEllipsis
               || dict_contains vectorized_axes_tail FEllipsis
            then Return (dict_set merged FEllipsis combined_ellipsis)
            else Return merged
        end
  end end end.

(** A key of [a], other than the wildcard, that [b] does not have. *)
Definition only_in (a b : Dict) (k : Filter) : Prop :=
  k <> FEllipsis /\ dict_contains a k = true /\ dict_contains b k = false.

(** The pairs of a head-only and a tail-only key, in the order in which
    [itertools.product] yields them. *)
Definition key_pairs (vectorized_axes_head vectorized_axes_tail : Dict)
  : list (Filter * Filter) :=
  let head := snd (dict_pop vectorized_axes_head FEllipsis Scalar) in
  let tail := snd (dict_pop vectorized_axes_tail FEllipsis Scalar) in
  list_prod (diff_keys_of head tail) (diff_keys_of tail head).


(** *** What the loops over filters leave as it was *)

(** The variable [x] holding the value [y]. *)
Definition with_value (x : StateVar) (y : Leaf) : StateVar :=
  {| var_type := var_type x; var_tag := var_tag x; var_value := y |}.

(** [module'] has the paths of [module], every variable keeps its type and
    its tag, and a variable that none of the filters [selecting] matches is
    as it was. *)
Definition updated_within (selecting : list Filter)
  (module module' : ModuleState) : Prop :=
  forall p : list string,
    match module !! p with
    | Some x =>
        exists x',
          module' !! p = Some x'
          /\ var_type x' = var_type x /\ var_tag x' = var_tag x
          /\ (forallb (fun k => negb (matches k p x)) selecting = true ->
              x' = x)
    | None => module' !! p = None
    end.

(** The entries of [vectorized_axes] whose coordinate has an axis of
    [coordinate]: those the loops of [tag_module_state] and
    [untag_module_state] act on. *)
Definition applicable (coordinate : Coordinate)
  (vectorized_axes : list (Filter * Coordinate))
  : list (Filter * Coordinate) :=
  List.filter
    (fun kv => existsb (fun ax => axis_in ax (axes (snd kv))) (axes coordinate))
    vectorized_axes.

(** No callable of the environment occurs in the predicate: whether it
    holds is decided by the path, the type and the tag of a variable. *)
Fixpoint callable_free (p : Predicate) : bool :=
  match p with
  | Callable _ => false
  | Not q => callable_free q
  | Any ps => forallb callable_free ps
  | All ps => forallb callable_free ps
  | _ => true
  end.

End WithEnv.

(** The subclass relation is transitive. *)
Definition issubclass_transitive (env : PyEnv) : Prop :=
  forall a b c,
    issubclass a b = true -> issubclass b c = true -> issubclass a c = true.

(** Variable types in a line, each with one base. *)
Definition lineage : ClassTable :=
  [("Variable", []); ("Param", ["Variable"]); ("LoRAParam", ["Param"])].

(** *** ensure_unchanged_state_structure: squeeze_excluded *)

(** [ax.dims[0]] of an axis. *)
Definition first_dim (ax : Coordinate) : string := hd "" (coord_dims ax).

(** What [squeeze_excluded] makes of a coordinate (a leaf that is not a
    coordinate is returned as it is): the axes of the excluded dimensions
    are replaced by dummy axes of size one. *)
Definition squeeze_excluded (excluded_dims : list string) (c : Coordinate)
  : Result Error Coordinate :=
  let axes :=
    map (fun ax =>
           if existsb (String.eqb (first_dim ax)) excluded_dims
           then DummyAxis (first_dim ax) 1
           else ax) (axes c) in
  compose_coordinates axes.

(** *** format_callbacks *)

(** The values a callback specification may be. *)
Inductive PyObj : Type :=
| ModuleObj (id : nat)                         (* an nnx.Module *)
| ModuleAndMethod (module method_name : PyObj) (* the NamedTuple *)
| TupleObj (items : list PyObj)                (* a tuple or a list *)
| StrObj (s : string)
| IntObj (n : Z)
| NoneObj.

(** [repr(type(x))] of the values that are not modules. *)
Definition type_repr (x : PyObj) : string :=
  match x with
  | ModuleObj _ => "<class 'Module'>"
  | ModuleAndMethod _ _ => "<class 'ModuleAndMethod'>"
  | TupleObj _ => "<class 'tuple'>"
  | StrObj _ => "<class 'str'>"
  | IntObj _ => "<class 'int'>"
  | NoneObj => "<class 'NoneType'>"
  end.

(** A tuple, a list and a string are the iterables with a length; a string
    of two characters unpacks into its characters. *)
Definition format_callbacks (callback_specs : PyObj) : Result Error PyObj :=
  match callback_specs with
  | ModuleAndMethod _ _ => Return callback_specs
  | ModuleObj _ => Return (ModuleAndMethod callback_specs (StrObj "__call__"))
  | TupleObj [module; method_name] =>
      Return (ModuleAndMethod module method_name)
  | StrObj (String a (String b EmptyString)) =>
      Return (ModuleAndMethod (StrObj (String a EmptyString))
                              (StrObj (String b EmptyString)))
  | _ =>
      Raise (TypeError ("Unexpected type(callback_specs)="
                        ++ type_repr callback_specs)%string)
  end.

(** *** state_in_axes_for_coord, nest_state_in_axes *)

(** A mapping from filters to values of any type, in insertion order. *)
Section Mapping.
Context {V : Type}.

Definition Mapping : Type := list (Filter * V).

Fixpoint mapping_get (d : Mapping) (k : Filter) : option V :=
  match d with
  | [] => None
  | (k', v) :: d' => if filter_eqb k' k then Some v else mapping_get d' k
  end.

Fixpoint mapping_set (d : Mapping) (k : Filter) (v : V) : Mapping :=
  match d with
  | [] => [(k, v)]
  | (k', v') :: d' =>
      if filter_eqb k' k then (k', v) :: d' else (k', v') :: mapping_set d' k v
  end.

End Mapping.
Arguments Mapping V : clear implicits.

(** The exceptions of [nest_state_in_axes] and [state_in_axes_for_coord]. *)
Inductive NestExn : Type :=
| SameKeysRequired              (* ValueError, nest_state_in_axes *)
| MissingKey (k : Filter)       (* KeyError *)
| IndexError
| FieldUtilsError (e : Error).  (* raised inside field_utils *)

(** [{k: f(k, v) for k, v in items}]. *)
Fixpoint mapping_comprehension_from {A V : Type} (acc : Mapping V)
  (f : Filter -> A -> Result NestExn V) (items : list (Filter * A))
  : Result NestExn (Mapping V) :=
  match items with
  | [] => Return acc
  | (k, a) :: items' =>
      match f k a with
      | Raise e => Raise e
      | Return v => mapping_comprehension_from (mapping_set acc k v) f items'
      end
  end.

Definition mapping_comprehension {A V : Type}
  (f : Filter -> A -> Result NestExn V) (items : list (Filter * A))
  : Result NestExn (Mapping V) :=
  mapping_comprehension_from [] f items.

(** [tuple(f(x) for x in xs)]: the first exception ends the traversal. *)
Fixpoint tuple_of {A B : Type} (f : A -> Result NestExn B) (xs : list A)
  : Result NestExn (list B) :=
  match xs with
  | [] => Return []
  | x :: xs' =>
      match f x with
      | Raise e => Raise e
      | Return y =>
          match tuple_of f xs' with
          | Raise e => Raise e
          | Return ys => Return (y :: ys)
          end
      end
  end.

(** [nnx.StateAxes]: a mapping from filters to axes. *)
Definition StateAxes (AxesTree : Type) : Type := Mapping AxesTree.

Section Nesting.
(** What the two functions take from [field_utils]: the trees of [in_axes]
    and the two functions on them. *)
Context {AxesTree : Type}.
Context (in_axes_for_coord
           : Coordinate -> Coordinate -> Result Error AxesTree).
Context (nest_in_axes : list AxesTree -> Result Error (list AxesTree)).


Definition state_axes_keys (x : StateAxes AxesTree) : list Filter := map fst x.

Definition state_axes_getitem {V : Type} (s : Mapping V) (f : Filter)
  : Result NestExn V :=
  match mapping_get s f with
  | Some v => Return v
  | None => Raise (MissingKey f)
  end.

(** [len({tuple(x.keys()) for x in state_axes_to_nest}) == 1], for a
    sequence with first element [x0]: every element has the keys of [x0],
    in the same order. *)
Definition same_keys (x0 : StateAxes AxesTree)
  (state_axes_to_nest : list (StateAxes AxesTree)) : bool :=
  forallb (fun x => list_eqb filter_eqb (state_axes_keys x) (state_axes_keys x0))
          state_axes_to_nest.

Definition nest_state_in_axes (state_axes_to_nest : list (StateAxes AxesTree))
  : Result NestExn (list (StateAxes AxesTree)) :=
  match state_axes_to_nest with
  | [] => Return []
  | x0 :: _ =>
      if negb (same_keys x0 state_axes_to_nest) then Raise SameKeysRequired
      else
        let state_filters := state_axes_keys x0 in
        match mapping_comprehension
                (fun f (_ : unit) =>
                   tuple_of (fun s => state_axes_getitem s f) state_axes_to_nest)
                (map (fun f => (f, tt)) state_filters) with
        | Raise e => Raise e
        | Return axes_by_filter =>
        match mapping_comprehension
                (fun _ trees =>
                   match nest_in_axes trees with
                   | Raise e => Raise (FieldUtilsError e)
                   | Return nested => Return nested
                   end) axes_by_filter with
        | Raise e => Raise e
        | Return nested_axes_by_filter =>
            tuple_of
              (fun i =>
                 mapping_comprehension
                   (fun f (_ : unit) =>
                      match state_axes_getitem nested_axes_by_filter f with
                      | Raise e => Raise e
                      | Return nested =>
                          match nth_error nested i with
                          | Some a => Return a
                          | None => Raise IndexError
                          end
                      end)
                   (map (fun f => (f, tt)) state_filters))
              (seq 0 (length state_axes_to_nest))
        end end
  end.

(** [state_in_axes_for_coord] for a single coordinate.  The dummy field of
    an entry is the shape structure over its coordinate, which is all that
    [in_axes_for_coord] reads of it. *)
Definition state_in_axes_for_coord (vectorized_axes : Dict)
  (coord : Coordinate) : Result NestExn (StateAxes AxesTree) :=
  match mapping_comprehension (fun _ v => Return v) vectorized_axes with
  | Raise e => Raise e
  | Return dummy =>
      mapping_comprehension
        (fun _ v =>
           match in_axes_for_coord v coord with
           | Raise e => Raise (FieldUtilsError e)
           | Return a => Return a
           end) dummy
  end.

(** [state_in_axes_for_coord] for a sequence of coordinates. *)
Definition state_in_axes_for_coords (vectorized_axes : Dict)
  (coord : list Coordinate) : Result NestExn (list (StateAxes AxesTree)) :=
  match tuple_of (state_in_axes_for_coord vectorized_axes) coord with
  | Raise e => Raise e
  | Return levels => nest_state_in_axes levels
  end.

End Nesting.

End ModuleUtils.

(* ---------------------------------------------------------------------- *)
(** ** atmosphere.parameterizations                                       *)
(* ---------------------------------------------------------------------- *)

Module Parameterizations.

(** The shape of a [ShapeFloatStruct]. *)
Definition Shape : Type := list nat.

Definition div_curl_fields : gset string := {[ "divergence"; "vorticity" ]}.

Definition volume_fields_message : string :=
  "Volume fields must contain `divergence & vorticity`.".

(** The [output_shapes] that [ModalNeuralDivCurlParameterization.__init__]
    hands to [mapping_factory]; [sigma_shape] is [sigma.shape] and
    [nodal_shape] is [ylm_transform.nodal_grid.shape]. *)
Definition output_shapes (sigma_shape nodal_shape : Shape)
  (surface_field_names volume_field_names : list string)
  (u_key v_key : string) : Result Error (gmap string Shape) :=
  let output_shapes : gmap string Shape := ∅ in
  let uv_fields : gset string := {[ u_key; v_key ]} in
  if negb (size (div_curl_fields ∩ list_to_set volume_field_names) =? 2)
  then Raise (ValueError volume_fields_message)
  else
    let output_shapes :=
      set_fold (fun name acc => <[ name := sigma_shape ++ nodal_shape ]> acc)
               output_shapes
               ((list_to_set volume_field_names ∪ uv_fields) ∖ div_curl_fields)
    in
    let output_shapes :=
      set_fold (fun name acc => <[ name := nodal_shape ]> acc)
               output_shapes
               (list_to_set surface_field_names : gset string)
    in
    Return output_shapes.

End Parameterizations.


(* ===================================================================== *)
(** * Part II: properties                                                 *)
(* ===================================================================== *)

Module CoordinateSystemsFacts.
Import CoordinateSystems.

(** Induction on coordinates that reaches the components of a product. *)
Lemma Coordinate_induction (P : Coordinate -> Prop) :
  (forall n s, P (SizedAxis n s)) ->
  (forall n l, P (LabeledAxis n l)) ->
  (forall n s, P (DummyAxis n s)) ->
  (forall cs, Forall P cs -> P (CartesianProduct cs)) ->
  (forall p, P p -> forall i, P (SelectedAxis p i)) ->
  P Scalar ->
  forall c, P c.
Proof.
  intros Hs Hl Hd Hp Hsel Hsc.
  fix IH 1. intros [n s|n l|n s|cs|p i|].
  - apply Hs.
  - apply Hl.
  - apply Hd.
  - apply Hp. induction cs as [|c cs IHcs]; constructor.
    + apply IH.
    + apply IHcs.
  - apply Hsel, IH.
  - apply Hsc.
Qed.

Lemma list_eqb_eq {A} (eqb : A -> A -> bool) (l1 : list A) :
  Forall (fun x => forall y, eqb x y = true <-> x = y) l1 ->
  forall l2, list_eqb eqb l1 l2 = true <-> l1 = l2.
Proof.
  induction 1 as [|x l1 Hx _ IH]; intros [|y l2]; simpl;
    try (split; (reflexivity || discriminate)).
  rewrite andb_true_iff, Hx, IH. split.
  - intros [-> ->]. reflexivity.
  - intros [= -> ->]. split; reflexivity.
Qed.

Lemma coordinate_eqb_eq (c1 c2 : Coordinate) :
  coordinate_eqb c1 c2 = true <-> c1 = c2.
Proof.
  revert c2. induction c1 as [n s|n l|n s|cs IH|p IH i|] using Coordinate_induction;
    intros [n' s'|n' l'|n' s'|cs'|p' i'|]; simpl;
    try (split; (reflexivity || discriminate)).
  - rewrite andb_true_iff, String.eqb_eq, Nat.eqb_eq. split.
    + intros [-> ->]. reflexivity.
    + intros [= -> ->]. split; reflexivity.
  - rewrite andb_true_iff, String.eqb_eq.
    rewrite (list_eqb_eq Z.eqb l).
    + split.
      * intros [-> ->]. reflexivity.
      * intros [= -> ->]. split; reflexivity.
    + apply List.Forall_forall. intros x _ y. apply Z.eqb_eq.
  - rewrite andb_true_iff, String.eqb_eq, Nat.eqb_eq. split.
    + intros [-> ->]. reflexivity.
    + intros [= -> ->]. split; reflexivity.
  - rewrite (list_eqb_eq coordinate_eqb cs IH). split.
    + intros ->. reflexivity.
    + intros [= ->]. reflexivity.
  - rewrite andb_true_iff, IH, Nat.eqb_eq. split.
    + intros [-> ->]. reflexivity.
    + intros [= -> ->]. split; reflexivity.
Qed.

Lemma coordinate_eqb_refl (c : Coordinate) : coordinate_eqb c c = true.
Proof. apply coordinate_eqb_eq. reflexivity. Qed.

(** **** Runs *)

Lemma sorted_cover_seq (l : list nat) :
  StronglySorted lt l ->
  forall a n, (forall i, In i l <-> a <= i < a + n) -> l = seq a n.
Proof.
  induction 1 as [|x l Hs IH Hx]; intros a n Hc.
  - destruct n as [|n]; [reflexivity|].
    exfalso. apply (proj2 (Hc a)). lia.
  - assert (Hxa : x = a).
    { assert (Hin : In a (x :: l)).
      { apply Hc. pose proof (proj1 (Hc x) (or_introl eq_refl)). lia. }
      destruct Hin as [Heq|Hin]; [exact Heq|].
      rewrite List.Forall_forall in Hx. specialize (Hx a Hin).
      pose proof (proj1 (Hc x) (or_introl eq_refl)). lia. }
    subst x. destruct n as [|n].
    { pose proof (proj1 (Hc a) (or_introl eq_refl)). lia. }
    simpl. f_equal. apply IH. intros i. split.
    + intros Hin. rewrite List.Forall_forall in Hx. specialize (Hx i Hin).
      pose proof (proj1 (Hc i) (or_intror Hin)). lia.
    + intros Hi. destruct (proj2 (Hc i)) as [Heq|Hin]; [lia| |exact Hin]. lia.
Qed.

Lemma seq_sorted (a n : nat) : StronglySorted lt (seq a n).
Proof.
  revert a. induction n as [|n IH]; intros a; simpl; constructor.
  - apply IH.
  - apply List.Forall_forall. intros i Hi. apply in_seq in Hi. lia.
Qed.

Lemma complete_run_iff (p : Coordinate) (run : list Coordinate) :
  complete_run p run <-> run = full_run p.
Proof.
  split.
  - intros (idxs & -> & Hs & Hc). unfold full_run. f_equal.
    apply sorted_cover_seq; [exact Hs|]. intros i. rewrite Hc. lia.
  - intros ->. exists (seq 0 (ndim p)). split; [reflexivity|]. split.
    + apply seq_sorted.
    + intros i. rewrite in_seq. lia.
Qed.

Lemma full_run_length (p : Coordinate) : length (full_run p) = ndim p.
Proof. unfold full_run. rewrite length_map, length_seq. reflexivity. Qed.

Lemma full_run_nth (p : Coordinate) (i : nat) :
  i < ndim p -> nth_error (full_run p) i = Some (SelectedAxis p i).
Proof.
  intros Hi. unfold full_run. rewrite nth_error_map.
  rewrite nth_error_seq. apply Nat.ltb_lt in Hi. rewrite Hi. reflexivity.
Qed.

Lemma complete_run_at_spec (p : Coordinate) (xs : list Coordinate) :
  complete_run_at p xs = true <->
  1 <= ndim p /\ firstn (ndim p) xs = full_run p.
Proof.
  unfold complete_run_at. rewrite andb_true_iff, Nat.leb_le.
  rewrite (list_eqb_eq coordinate_eqb); [reflexivity|].
  apply List.Forall_forall. intros x _ y. apply coordinate_eqb_eq.
Qed.

Lemma complete_run_at_boundary (q : Coordinate) (pre tail : list Coordinate)
  (y : Coordinate) :
  pre <> [] -> run_boundary y ->
  complete_run_at q (pre ++ y :: tail) = complete_run_at q pre.
Proof.
  intros Hpre Hy.
  destruct (le_lt_dec (ndim q) (length pre)) as [Hle|Hlt].
  - unfold complete_run_at. rewrite firstn_app.
    replace (ndim q - length pre) with 0 by lia.
    rewrite firstn_O, app_nil_r. reflexivity.
  - assert (H1 : complete_run_at q pre = false).
    { apply not_true_is_false. rewrite complete_run_at_spec. intros [_ H].
      apply (f_equal (@length _)) in H.
      rewrite full_run_length, length_firstn in H. lia. }
    rewrite H1. apply not_true_is_false. rewrite complete_run_at_spec.
    intros [_ H].
    apply (f_equal (fun l => nth_error l (length pre))) in H.
    rewrite full_run_nth in H by exact Hlt.
    rewrite nth_error_firstn in H.
    apply Nat.ltb_lt in Hlt. rewrite Hlt in H.
    rewrite nth_error_app2, Nat.sub_diag in H by lia. simpl in H.
    injection H as H. destruct pre as [|x pre]; [congruence|].
    simpl in H. eapply Hy. exact H.
Qed.

Lemma consolidate_from_skip (k : nat) (xs : list Coordinate) :
  consolidate_from k xs = consolidate_from 0 (skipn k xs).
Proof.
  revert k. induction xs as [|x xs IH]; intros [|k]; try reflexivity.
  simpl. apply IH.
Qed.

(** A boundary entry separates what precedes it from what follows. *)
Lemma consolidate_boundary (pre tail : list Coordinate) (y : Coordinate) :
  run_boundary y ->
  consolidate_from 0 (pre ++ y :: tail)
  = consolidate_from 0 pre ++ consolidate_from 0 (y :: tail).
Proof.
  intros Hy. remember (length pre) as n eqn:Hn. revert pre Hn.
  induction n as [n IH] using lt_wf_ind. intros pre Hn.
  destruct pre as [|x pre]; [reflexivity|].
  assert (Hrest : consolidate_from 0 (pre ++ y :: tail)
                  = consolidate_from 0 pre ++ consolidate_from 0 (y :: tail)).
  { apply (IH (length pre)); [simpl in Hn; lia|reflexivity]. }
  change ((x :: pre) ++ y :: tail) with (x :: (pre ++ y :: tail)).
  destruct x as [n0 s|n0 l|n0 s|cs|q i|];
    try (cbn [consolidate_from app]; rewrite Hrest; reflexivity).
  cbn [consolidate_from].
  change (SelectedAxis q i :: pre ++ y :: tail)
    with ((SelectedAxis q i :: pre) ++ y :: tail).
  rewrite (complete_run_at_boundary q (SelectedAxis q i :: pre) tail y)
    by (congruence || exact Hy).
  destruct (complete_run_at q (SelectedAxis q i :: pre)) eqn:Hrun.
  - apply complete_run_at_spec in Hrun. destruct Hrun as [H1 Hf].
    assert (Hlen : ndim q - 1 <= length pre).
    { apply (f_equal (@length _)) in Hf.
      rewrite full_run_length, length_firstn in Hf. simpl in Hf. lia. }
    rewrite (consolidate_from_skip (ndim q - 1) (pre ++ y :: tail)).
    rewrite (consolidate_from_skip (ndim q - 1) pre).
    rewrite skipn_app.
    replace (ndim q - 1 - length pre) with 0 by lia. rewrite skipn_O.
    cbn [app]. f_equal.
    apply (IH (length (skipn (ndim q - 1) pre))); [|reflexivity].
    rewrite length_skipn. simpl in Hn. lia.
  - cbn [app]. rewrite Hrest. reflexivity.
Qed.

Lemma consolidate_full_run (p : Coordinate) (post : list Coordinate) :
  1 <= ndim p ->
  consolidate_from 0 (full_run p ++ post) = p :: consolidate_from 0 post.
Proof.
  intros Hp.
  assert (Hrun : complete_run_at p (full_run p ++ post) = true).
  { apply complete_run_at_spec. split; [exact Hp|].
    rewrite firstn_app, full_run_length, Nat.sub_diag, firstn_O, app_nil_r.
    rewrite <- full_run_length. apply firstn_all. }
  remember (full_run p ++ post) as xs eqn:Hxs.
  assert (Hhd : exists rest, xs = SelectedAxis p 0 :: rest /\
                             skipn (ndim p - 1) rest = post).
  { subst xs. unfold full_run. destruct (ndim p) as [|n] eqn:Hn; [lia|].
    simpl. eexists. split; [reflexivity|].
    rewrite Nat.sub_0_r, skipn_app, length_map, length_seq, Nat.sub_diag.
    rewrite skipn_O, skipn_all2 by (rewrite length_map, length_seq; lia).
    reflexivity. }
  destruct Hhd as (rest & Hx & Hskip). rewrite Hx in *.
  cbn [consolidate_from]. rewrite Hrun.
  rewrite consolidate_from_skip, Hskip. reflexivity.
Qed.

Lemma full_run_boundary (p : Coordinate) (post : list Coordinate) :
  1 <= ndim p ->
  exists tail, full_run p ++ post = SelectedAxis p 0 :: tail.
Proof.
  intros Hp. unfold full_run. destruct (ndim p) as [|n]; [lia|].
  simpl. eexists. reflexivity.
Qed.

Lemma no_run_tail (x : Coordinate) (xs : list Coordinate) :
  ~ has_complete_run (x :: xs) -> ~ has_complete_run xs.
Proof.
  intros H (pre & p & run & post & Hne & Hrun & ->). apply H.
  exists (x :: pre), p, run, post. repeat split; assumption.
Qed.

Lemma consolidate_no_run (xs : list Coordinate) :
  ~ has_complete_run xs -> consolidate_from 0 xs = xs.
Proof.
  induction xs as [|x xs IH]; intros Hno; [reflexivity|].
  pose proof (IH (no_run_tail _ _ Hno)) as Hxs.
  destruct x as [n0 s|n0 l|n0 s|cs|q i|];
    try (cbn [consolidate_from]; rewrite Hxs; reflexivity).
  cbn [consolidate_from].
  destruct (complete_run_at q (SelectedAxis q i :: xs)) eqn:Hrun.
  - exfalso. apply Hno. apply complete_run_at_spec in Hrun.
    destruct Hrun as [H1 Hf].
    exists [], q, (full_run q), (skipn (ndim q) (SelectedAxis q i :: xs)).
    split.
    { intros E. apply (f_equal (@length _)) in E.
      rewrite full_run_length in E. simpl in E. lia. }
    split; [apply complete_run_iff; reflexivity|].
    rewrite <- Hf. simpl. symmetry. apply firstn_skipn.
  - rewrite Hxs. reflexivity.
Qed.

(** The cases of [test_consolidate_coordinates]. *)
Example test_consolidate_coordinates :
  let x := NamedAxis "x" 2 in
  let y := LabeledAxis "y" [0; 1; 2]%Z in
  let z := NamedAxis "z" 4 in
  let x4 := NamedAxis "x" 4 in
  let sel := SelectedAxis in
  consolidate_coordinates [] = []
  /\ consolidate_coordinates [x] = [x]
  /\ consolidate_coordinates [sel x 0] = [x]
  /\ consolidate_coordinates [x; y] = [x; y]
  /\ consolidate_coordinates [sel PRODUCT_XY 0; sel PRODUCT_XY 1]
     = [PRODUCT_XY]
  /\ consolidate_coordinates [sel PRODUCT_XY 1; sel PRODUCT_XY 0]
     = [sel PRODUCT_XY 1; sel PRODUCT_XY 0]
  /\ consolidate_coordinates [sel PRODUCT_XY 0] = [sel PRODUCT_XY 0]
  /\ consolidate_coordinates [sel PRODUCT_XY 0; sel PRODUCT_XY 1; z]
     = [PRODUCT_XY; z]
  /\ consolidate_coordinates [z; sel PRODUCT_XY 0; sel PRODUCT_XY 1]
     = [z; PRODUCT_XY]
  /\ consolidate_coordinates [sel PRODUCT_XY 0; z; sel PRODUCT_XY 1]
     = [sel PRODUCT_XY 0; z; sel PRODUCT_XY 1]
  /\ consolidate_coordinates [sel PRODUCT_XY 0; sel x4 0]
     = [sel PRODUCT_XY 0; x4]
  /\ consolidate_coordinates [sel x4 0; sel PRODUCT_XY 0]
     = [x4; sel PRODUCT_XY 0].
Proof. repeat split. Qed.

(** C1. [consolidate_coordinates] replaces every complete run (consecutive
    [SelectedAxis] entries over one parent whose indices are strictly
    increasing and are exactly the indices of the axes of the parent) by the
    parent, whatever precedes and follows the run; an entry that is not a
    [SelectedAxis] is passed through and separates what precedes it from
    what follows; a sequence in which no consecutive entries form a complete
    run is returned as given.  For a product [P] of two single axes, the
    pair [SelectedAxis P 0, SelectedAxis P 1] becomes [P] and the reversed
    pair is returned unchanged. *)
Theorem consolidate_coordinates_runs :
  (forall pre p run post,
      run <> [] -> complete_run p run ->
      consolidate_coordinates (pre ++ run ++ post)
      = consolidate_coordinates pre ++ p :: consolidate_coordinates post)
  /\ (forall pre c post,
      is_selected c = false ->
      consolidate_coordinates (pre ++ c :: post)
      = consolidate_coordinates pre ++ c :: consolidate_coordinates post)
  /\ (forall xs, ~ has_complete_run xs -> consolidate_coordinates xs = xs)
  /\ (forall X Y,
      ndim X = 1 -> ndim Y = 1 ->
      let P := CartesianProduct [X; Y] in
      consolidate_coordinates [SelectedAxis P 0; SelectedAxis P 1] = [P]
      /\ consolidate_coordinates [SelectedAxis P 1; SelectedAxis P 0]
         = [SelectedAxis P 1; SelectedAxis P 0]).
Proof.
  unfold consolidate_coordinates. split; [|split; [|split]].
  - intros pre p run post Hne Hrun. apply complete_run_iff in Hrun. subst run.
    assert (Hp : 1 <= ndim p).
    { destruct (ndim p) eqn:E; [|lia]. exfalso. apply Hne.
      unfold full_run. rewrite E. reflexivity. }
    destruct (full_run_boundary p post Hp) as (tail & Ht).
    rewrite Ht, consolidate_boundary by (intros q i; discriminate).
    rewrite <- Ht, consolidate_full_run by exact Hp. reflexivity.
  - intros pre c post Hc.
    rewrite consolidate_boundary
      by (intros q i ->; discriminate).
    destruct c; try discriminate; reflexivity.
  - apply consolidate_no_run.
  - intros X Y HX HY. set (P := CartesianProduct [X; Y]). 
    assert (Hn : ndim P = 2).
    { unfold P, ndim in *. simpl. rewrite app_nil_r, length_app. lia. }
    split.
    + replace [SelectedAxis P 0; SelectedAxis P 1] with (full_run P ++ [])
        by (unfold full_run; rewrite Hn; reflexivity).
      apply consolidate_full_run. lia.
    + apply consolidate_no_run.
      intros (pre & p & run & post & Hne & Hrun & Heq).
      apply complete_run_iff in Hrun. subst run.
      unfold full_run in Heq, Hne.
      destruct (ndim p) as [|[|n]] eqn:E; [simpl in Hne; congruence| |].
      * simpl in Heq.
        destruct pre as [|? [|? [|? pre]]]; simpl in Heq; inversion Heq; subst.
        lia.
      * simpl in Heq.
        destruct pre as [|? [|? [|? pre]]]; simpl in Heq; inversion Heq.
Qed.

Lemma consolidate_coordinates_runs_witness :
  consolidate_coordinates
    ([NamedAxis "z" 4]
       ++ [SelectedAxis PRODUCT_XY 0; SelectedAxis PRODUCT_XY 1]
       ++ [NamedAxis "w" 5])
  = consolidate_coordinates [NamedAxis "z" 4]
      ++ PRODUCT_XY :: consolidate_coordinates [NamedAxis "w" 5].
Proof.
  apply (proj1 consolidate_coordinates_runs).
  - discriminate.
  - exists [0; 1]. split; [reflexivity|]. split.
    + repeat constructor.
    + intros i. unfold ndim. simpl. lia.
Defined.

(** **** Composition *)

(** The cases of [test_compose_coordinates], and [Scalar] as the identity
    of the composition. *)
Example test_compose_coordinates :
  compose_coordinates [SelectedAxis PRODUCT_XY 0; SelectedAxis PRODUCT_XY 1]
  = Return PRODUCT_XY
  /\ compose_coordinates
       [SelectedAxis (NamedAxis "x" 4) 0; NamedAxis "z" 7]
     = Return (CartesianProduct [NamedAxis "x" 4; NamedAxis "z" 7])
  /\ compose_coordinates
       [NamedAxis "x" 7;
        CartesianProduct [NamedAxis "y" 7; NamedAxis "z" 4]]
     = Return (CartesianProduct
                 [NamedAxis "x" 7; NamedAxis "y" 7; NamedAxis "z" 4])
  /\ compose_coordinates
       [SelectedAxis PRODUCT_XY 0;
        CartesianProduct [SelectedAxis PRODUCT_XY 1; NamedAxis "z" 4]]
     = Return (CartesianProduct
                 [NamedAxis "x" 2; NamedAxis "y" 3; NamedAxis "z" 4])
  /\ compose_coordinates [] = Return Scalar
  /\ compose_coordinates [NamedAxis "x" 4; Scalar] = Return (NamedAxis "x" 4)
  /\ compose_coordinates [Scalar; NamedAxis "x" 4] = Return (NamedAxis "x" 4)
  /\ compose_coordinates [NamedAxis "x" 4; NamedAxis "x" 4]
     = Raise (ValueError
                "CartesianProduct components contain repeated_dims=['x']").
Proof. repeat split. Qed.

(** ***** Repeated dimension names *)

Lemma filter_nil_iff {A} (p : A -> bool) (l : list A) :
  List.filter p l = [] <-> forall x, In x l -> p x = false.
Proof.
  induction l as [|a l IH]; simpl.
  - split; [intros _ x []|reflexivity].
  - destruct (p a) eqn:E.
    + split; [discriminate|]. intros H. rewrite (H a) in E by (left; reflexivity).
      discriminate.
    + rewrite IH. split.
      * intros H x [<-|Hx]; [exact E|apply H, Hx].
      * intros H x Hx. apply H. right. exact Hx.
Qed.

Lemma counter_keys_In (d : string) (dims seen : list string) :
  In d (counter_keys seen dims) <-> In d dims /\ ~ In d seen.
Proof.
  revert seen. induction dims as [|a dims IH]; intros seen; simpl.
  - tauto.
  - destruct (existsb (String.eqb a) seen) eqn:E.
    + rewrite IH. apply existsb_exists in E. destruct E as (y & Hy & E).
      apply String.eqb_eq in E. subst y.
      split; [tauto|]. intros [[<-|H] Hs]; [contradiction|tauto].
    + simpl. rewrite IH. simpl.
      assert (Ha : ~ In a seen).
      { intros Ha. apply not_true_iff_false in E. apply E.
        apply existsb_exists. exists a. split; [exact Ha|apply String.eqb_refl]. }
      destruct (String.eqb_spec a d) as [->|Hne]; [tauto|].
      split; [tauto|]. intros [[H|H] Hs]; [contradiction|tauto].
Qed.

Lemma count_dim_In (d : string) (dims : list string) :
  1 <= count_dim d dims -> In d dims.
Proof.
  unfold count_dim. intros H.
  destruct (List.filter (String.eqb d) dims) as [|x l] eqn:E; [simpl in H; lia|].
  assert (Hx : In x (List.filter (String.eqb d) dims))
    by (rewrite E; left; reflexivity).
  apply filter_In in Hx. destruct Hx as [Hx Hd].
  apply String.eqb_eq in Hd. subst x. exact Hx.
Qed.

Lemma count_dim_app (d : string) (l1 l2 : list string) :
  count_dim d (l1 ++ l2) = count_dim d l1 + count_dim d l2.
Proof. unfold count_dim. rewrite List.filter_app, length_app. reflexivity. Qed.

Lemma repeated_dims_nil (dims : list string) :
  repeated_dims dims = [] <-> forall d, count_dim d dims <= 1.
Proof.
  unfold repeated_dims. rewrite filter_nil_iff. split.
  - intros H d. destruct (le_lt_dec (count_dim d dims) 1) as [Hle|Hlt];
      [exact Hle|].
    assert (Hin : In d (counter_keys [] dims)).
    { apply counter_keys_In. split; [apply count_dim_In; lia|intros []]. }
    apply H in Hin. apply Nat.leb_gt in Hin. lia.
  - intros H d _. apply Nat.leb_gt. specialize (H d). lia.
Qed.



Lemma repeated_dims_app_comm (l1 l2 : list string) :
  repeated_dims (l1 ++ l2) = [] <-> repeated_dims (l2 ++ l1) = [].
Proof.
  rewrite !repeated_dims_nil.
  split; intros H d; specialize (H d); rewrite count_dim_app in *; lia.
Qed.

(** ***** The scan, entry by entry *)

Lemma consolidate_cons (x : Coordinate) (xs : list Coordinate) :
  consolidate_coordinates (x :: xs)
  = match x with
    | SelectedAxis p _ =>
        if complete_run_at p (x :: xs)
        then p :: consolidate_coordinates (skipn (ndim p - 1) xs)
        else x :: consolidate_coordinates xs
    | _ => x :: consolidate_coordinates xs
    end.
Proof.
  unfold consolidate_coordinates. destruct x; try reflexivity.
  cbn [consolidate_from].
  destruct (complete_run_at x (SelectedAxis x axis :: xs)); [|reflexivity].
  rewrite consolidate_from_skip. reflexivity.
Qed.




Lemma forallb_firstn {A} (f : A -> bool) (n : nat) (l : list A) :
  forallb f l = true -> forallb f (firstn n l) = true.
Proof.
  revert n. induction l as [|x l IH]; intros [|n]; simpl; try reflexivity.
  intros H. apply andb_true_iff in H. destruct H as [-> H]. apply IH, H.
Qed.





















(** ***** Dimension names *)

Lemma flat_map_length_axes {A} (f : Coordinate -> list A) (cs : list Coordinate) :
  Forall (fun c => length (f c) = ndim c) cs ->
  length (flat_map f cs) = length (flat_map axes cs).
Proof.
  induction 1 as [|c cs Hc _ IH]; simpl; [reflexivity|].
  rewrite !length_app, Hc, IH. reflexivity.
Qed.

Lemma coord_dims_length (c : Coordinate) : length (coord_dims c) = ndim c.
Proof.
  induction c using Coordinate_induction; try reflexivity.
  apply flat_map_length_axes. assumption.
Qed.

Lemma shape_length (c : Coordinate) : length (shape c) = ndim c.
Proof.
  induction c using Coordinate_induction; try reflexivity.
  apply flat_map_length_axes. assumption.
Qed.

Lemma map_nth_seq {A} (l : list A) (d : A) :
  map (fun i => nth i l d) (seq 0 (length l)) = l.
Proof.
  induction l as [|x l IH]; [reflexivity|].
  cbn [length seq map nth]. rewrite <- seq_shift, map_map. cbn [nth].
  rewrite IH. reflexivity.
Qed.

Lemma full_run_dims (p : Coordinate) :
  flat_map coord_dims (full_run p) = coord_dims p.
Proof.
  unfold full_run. rewrite <- coord_dims_length.
  rewrite <- (map_nth_seq (coord_dims p) "") at 2.
  induction (seq 0 (length (coord_dims p))) as [|i l IH]; [reflexivity|].
  cbn [map flat_map coord_dims app]. rewrite IH. reflexivity.
Qed.

Lemma components_dims (c : Coordinate) :
  flat_map coord_dims (components c) = coord_dims c.
Proof. destruct c; simpl; rewrite ?app_nil_r; reflexivity. Qed.

Lemma consolidate_dims (n : nat) :
  forall xs, length xs <= n ->
  flat_map coord_dims (consolidate_coordinates xs) = flat_map coord_dims xs.
Proof.
  induction n as [|n IH]; intros xs Hn.
  { destruct xs; [reflexivity|simpl in Hn; lia]. }
  destruct xs as [|x xs]; [reflexivity|]. simpl in Hn.
  rewrite consolidate_cons.
  assert (Hcons : flat_map coord_dims (x :: consolidate_coordinates xs)
                  = flat_map coord_dims (x :: xs)).
  { cbn [flat_map]. rewrite (IH xs) by lia. reflexivity. }
  destruct x as [| | | |p i|]; try exact Hcons.
  destruct (complete_run_at p (SelectedAxis p i :: xs)) eqn:E; [|exact Hcons].
  apply complete_run_at_spec in E. destruct E as [H1 Hrun].
  rewrite <- (firstn_skipn (ndim p) (SelectedAxis p i :: xs)).
  rewrite Hrun, flat_map_app, full_run_dims.
  cbn [flat_map]. rewrite (IH (skipn (ndim p - 1) xs))
    by (rewrite length_skipn; lia).
  destruct (ndim p) as [|m]; [lia|].
  cbn [skipn]. rewrite Nat.sub_succ, Nat.sub_0_r. reflexivity.
Qed.

Lemma product_of_dims (xs : list Coordinate) :
  flat_map coord_dims (product_of xs) = flat_map coord_dims xs.
Proof.
  unfold product_of. rewrite <- (consolidate_dims (length xs) xs (le_n _)).
  induction (consolidate_coordinates xs) as [|k l IH]; [reflexivity|].
  cbn [flat_map]. rewrite flat_map_app, components_dims, IH. reflexivity.
Qed.

(** What a composition returns or raises, by the dimension names of its
    arguments. *)
Lemma compose_coordinates_eq (coordinates : list Coordinate) :
  compose_coordinates coordinates
  = match repeated_dims (flat_map coord_dims coordinates) with
    | [] => Return (unwrap (product_of (flat_map components coordinates)))
    | repeated =>
        Raise (ValueError
                 ("CartesianProduct components contain repeated_dims="
                  ++ repr_strs repeated))
    end.
Proof.
  unfold compose_coordinates. cbv zeta. rewrite product_of_dims.
  replace (flat_map coord_dims (flat_map components coordinates))
    with (flat_map coord_dims coordinates); [reflexivity|].
  induction coordinates as [|c l IH]; [reflexivity|].
  cbn [flat_map]. rewrite flat_map_app, components_dims, IH. reflexivity.
Qed.

Lemma compose_coordinates_raised (coordinates : list Coordinate) :
  raised (compose_coordinates coordinates) = false
  <-> repeated_dims (flat_map coord_dims coordinates) = [].
Proof.
  rewrite compose_coordinates_eq.
  destruct (repeated_dims (flat_map coord_dims coordinates)); simpl;
    split; congruence.
Qed.

(** A composition of two raises whichever comes first. *)
Lemma compose_coordinates_raised_comm (a b : Coordinate) :
  raised (compose_coordinates [a; b]) = raised (compose_coordinates [b; a]).
Proof.
  apply eq_true_iff_eq. rewrite <- !not_false_iff_true.
  rewrite !compose_coordinates_raised. cbn [flat_map].
  rewrite !app_nil_r, repeated_dims_app_comm. reflexivity.
Qed.

(** ***** The components of a composition *)










End CoordinateSystemsFacts.

Module NamedAxesFacts.
Import NamedAxes.

(** The cases of [test_tree_map_*]: a row of the data loses the leading
    dimension, a column slice changes the size of [y], a new leading axis
    is added. *)
Example test_tree_map :
  let row := {| arr_shape := [5]; arr_buffer := map Z.of_nat (seq 0 5) |} in
  let cut := {| arr_shape := [2; 3]; arr_buffer := [0; 1; 2; 5; 6; 7]%Z |} in
  let ext := {| arr_shape := [1; 2; 5]; arr_buffer := arr_buffer test_data |} in
  let xy := {| data := test_data; dims := [Some "x"; Some "y"] |} in
  let py := {| data := test_data; dims := [None; Some "y"] |} in
  tree_unflatten xy test_data = Return xy
  /\ tree_unflatten xy row = Raise (CannotTrimNamed [Some "x"])
  /\ tree_unflatten xy cut
     = Raise (NamedShapeMismatch [("x", 2); ("y", 3)] [("x", 2); ("y", 5)])
  /\ tree_unflatten xy ext
     = Return {| data := ext; dims := [None; Some "x"; Some "y"] |}
  /\ tree_unflatten py row = Return {| data := row; dims := [Some "y"] |}.
Proof. repeat split. Qed.

Lemma existsb_named_false (ds : list Dim) :
  existsb is_named ds = false <-> (forall d, In d ds -> d = None).
Proof.
  induction ds as [|[n|] ds IH]; simpl.
  - split; [intros _ d []|reflexivity].
  - split; [discriminate|]. intros H. specialize (H (Some n) (or_introl eq_refl)).
    discriminate.
  - rewrite IH. split.
    + intros H d [<-|Hd]; [reflexivity|apply H, Hd].
    + intros H d Hd. apply H. right. exact Hd.
Qed.

Lemma names_skipn_positional (n : nat) (ds : list Dim) :
  existsb is_named (firstn n ds) = false -> names (skipn n ds) = names ds.
Proof.
  revert ds. induction n as [|n IH]; intros [|[m|] ds]; simpl;
    try reflexivity; try discriminate.
  apply IH.
Qed.

Lemma names_repeat_positional (k : nat) (ds : list Dim) :
  names (repeat None k ++ ds) = names ds.
Proof. induction k as [|k IH]; simpl; [reflexivity|exact IH]. Qed.

(** C9.  When the leaf has a smaller rank than the previous dims, the
    front-most dims up to the rank deficit are dropped exactly when all of
    them are positional, and the rebuild fails with the error that lists
    them exactly when one of them is named; whenever a rebuild returns,
    the named dimensions of the result are those of the previous array, in
    the same order. *)
Theorem tree_unflatten_trims_positional_only :
  (forall prev leaf,
      arr_ndim leaf < length (dims prev) ->
      let n_trimmed := length (dims prev) - arr_ndim leaf in
      let trimmed := firstn n_trimmed (dims prev) in
      ((forall d, In d trimmed -> d = None) <->
       tree_unflatten prev leaf
       = Return {| data := leaf; dims := skipn n_trimmed (dims prev) |})
      /\ ((exists d, In d trimmed /\ d <> None) <->
          tree_unflatten prev leaf = Raise (CannotTrimNamed trimmed)))
  /\ (forall prev leaf r,
        tree_unflatten prev leaf = Return r ->
        names (dims r) = names (dims prev)).
Proof.
  split.
  - intros prev leaf Hlt n_trimmed trimmed. unfold tree_unflatten.
    destruct (Nat.eqb_spec (arr_ndim leaf) (length (dims prev))) as [E|_];
      [lia|].
    destruct (Nat.ltb_spec (length (dims prev)) (arr_ndim leaf)) as [E|_];
      [lia|].
    fold n_trimmed. fold trimmed.
    destruct (existsb is_named trimmed) eqn:Hex.
    + split; split.
      * intros H. apply existsb_named_false in H. congruence.
      * discriminate.
      * reflexivity.
      * intros _. apply existsb_exists in Hex. destruct Hex as (d & Hd & Hn).
        exists d. split; [exact Hd|]. destruct d; [discriminate|discriminate].
    + split; split.
      * reflexivity.
      * intros _. apply existsb_named_false. exact Hex.
      * intros (d & Hd & Hn). exfalso. apply Hn.
        apply (proj1 (existsb_named_false trimmed) Hex). exact Hd.
      * discriminate.
  - intros prev leaf r. unfold tree_unflatten.
    destruct (arr_ndim leaf =? length (dims prev)).
    { destruct (named_shape_eqb _ _); [|discriminate].
      intros [= <-]. reflexivity. }
    destruct (length (dims prev) <? arr_ndim leaf).
    { intros [= <-]. simpl. apply names_repeat_positional. }
    destruct (existsb is_named _) eqn:Hex; [discriminate|].
    intros [= <-]. simpl. apply names_skipn_positional. exact Hex.
Qed.

Lemma tree_unflatten_trims_positional_only_witness :
  let prev := {| data := test_data; dims := [None; Some "y"] |} in
  let leaf := {| arr_shape := [5]; arr_buffer := [0; 1; 2; 3; 4]%Z |} in
  tree_unflatten prev leaf = Return {| data := leaf; dims := [Some "y"] |}.
Proof.
  intros prev leaf.
  apply (proj1 (proj1 (proj1 tree_unflatten_trims_positional_only prev leaf
                         ltac:(unfold arr_ndim; simpl; lia)))).
  intros d [<-|[]]. reflexivity.
Defined.

End NamedAxesFacts.

Module FieldUtilsFacts.
Import CoordinateSystems FieldUtils.

(** **** split_to_fields *)

Example test_split_to_fields_flat_out :
  exists a b c,
    split_to_fields arange_3_2 [("a", x01); ("b", x01); ("c", x01)]
    = Return [("a", a); ("b", b); ("c", c)]
    /\ f_tags a = [CoordAxis x01] /\ f_shape a = [2]
    /\ map (fun j => f_at a [j]) [0; 1] = [0; 1]%Z
    /\ map (fun j => f_at b [j]) [0; 1] = [2; 3]%Z
    /\ map (fun j => f_at c [j]) [0; 1] = [4; 5]%Z.
Proof. do 3 eexists. repeat split. Qed.

Example test_split_to_fields_mixed_out :
  let s := SizedAxis "s" 2 in
  let d := SizedAxis "d" 3 in
  exists a b c,
    split_to_fields arange_6_2
      [("a", x01); ("b", CartesianProduct [s; x01]);
       ("c", CartesianProduct [d; x01])]
    = Return [("a", a); ("b", b); ("c", c)]
    /\ f_shape a = [2] /\ f_shape b = [2; 2] /\ f_shape c = [3; 2]
    /\ map (fun j => f_at a [j]) [0; 1] = [0; 1]%Z
    /\ map (fun i => map (fun j => f_at b [i; j]) [0; 1]) [0; 1]
       = [[2; 3]; [4; 5]]%Z
    /\ map (fun i => map (fun j => f_at c [i; j]) [0; 1]) [0; 1; 2]
       = [[6; 7]; [8; 9]; [10; 11]]%Z.
Proof. do 3 eexists. repeat split. Qed.

Example test_split_to_fields_errors :
  let x := LabeledAxis "x" [0; 1; 2; 3; 4; 5; 6]%Z in
  let d := SizedAxis "d" 1 in
  let field27 := {| f_tags := [CoordAxis (SizedAxis "batch" 2); CoordAxis x];
                    f_shape := [2; 7]; f_at := fun _ => 0%Z |} in
  let xl := LabeledAxis "x" [0; 1; 2]%Z in
  let yl := LabeledAxis "y" [0; 1]%Z in
  let field232 := {| f_tags := [Positional; CoordAxis xl; CoordAxis yl];
                     f_shape := [2; 3; 2]; f_at := fun _ => 1%Z |} in
  let bad_xy := CartesianProduct [SizedAxis "x" 3; SizedAxis "y" 2] in
  split_to_fields field27
    [("a", CartesianProduct [d; x]);
     ("b", CartesianProduct [d; SizedAxis "second_new" 1; x])]
  = Raise (ValueError too_many_new_message)
  /\ split_to_fields field232 [("a", bad_xy); ("b", bad_xy)]
     = Raise (ValueError misaligned_message)
  /\ raised (split_to_fields field232
               [("a", CartesianProduct [xl; yl]);
                ("b", CartesianProduct [xl; yl])]) = false.
Proof. repeat split. Qed.

(** C8.  When the targets pass the per-target verification,
    [split_to_fields] raises the size-mismatch error, whose message reports
    both numbers, if the total of the new-axis sizes differs from the size
    of the split axis, and returns if the two are equal; on the field of
    size 3 along the split axis with two targets of new-axis size 1 the
    message cites (2) and (3). *)
Theorem split_to_fields_size_mismatch :
  (forall field targets i,
      split_candidates field targets = [i] ->
      let non_split := remove_nth i (f_tags field) in
      let total := total_new_size non_split targets in
      let split_size := nth i (f_shape field) 0 in
      check_targets non_split targets = Return tt ->
      (total <> split_size ->
       split_to_fields field targets
       = Raise (ValueError
                  ("The total size of the dimensions defined in `targets` ("
                   ++ str_of_nat total
                   ++ ") does not match the size of the dimension being split in the input field ("
                   ++ str_of_nat split_size ++ ").")))
      /\ (total = split_size ->
          raised (split_to_fields field targets) = false))
  /\ split_to_fields arange_3_2 [("a", x01); ("b", x01)]
     = Raise (ValueError
                "The total size of the dimensions defined in `targets` (2) does not match the size of the dimension being split in the input field (3).").
Proof.
  split; [|reflexivity].
  intros field targets i Hc non_split total split_size Hok.
  unfold split_to_fields. rewrite Hc. fold non_split. rewrite Hok.
  fold total. fold split_size.
  destruct (Nat.eqb_spec total split_size) as [E|E]; split; intros H;
    try contradiction; reflexivity.
Qed.

Lemma split_to_fields_size_mismatch_witness :
  split_to_fields arange_3_2 [("a", x01)]
  = Raise (ValueError (size_mismatch_message 1 3)).
Proof.
  apply (proj1 (proj1 split_to_fields_size_mismatch arange_3_2 [("a", x01)] 0
                  eq_refl eq_refl)).
  intros H. vm_compute in H. discriminate H.
Defined.

(** **** combine_fields *)

(** The cases of [CombineFieldsTest], on the shapes. *)
Example test_combine_fields :
  let x := CoordAxis (SizedAxis "x" 3) in
  let y := CoordAxis (SizedAxis "y" 5) in
  let z := CoordAxis (SizedAxis "z" 2) in
  let level := CoordAxis (SizedAxis "level" 7) in
  let xy := [AlignCoord (SizedAxis "x" 3); AlignCoord (SizedAxis "y" 5)] in
  let shape_of r := match r with Return f => Some (f_shape f) | Raise _ => None end in
  shape_of (combine_fields
              [("a", ones [z; x; y] [2; 3; 5]);
               ("b", ones [level; x; y] [7; 3; 5]);
               ("c", ones [level; x; y] [7; 3; 5])] xy Positional)
  = Some [16; 3; 5]
  /\ shape_of (combine_fields
                 [("a_surf", ones [x; y] [3; 5]);
                  ("b", ones [level; x; y] [7; 3; 5]);
                  ("c", ones [level; x; y] [7; 3; 5])] xy Positional)
     = Some [15; 3; 5]
  /\ shape_of (combine_fields
                 [("a", ones [level; x; y] [7; 3; 5]);
                  ("b", ones [level; x; y] [7; 3; 5]);
                  ("c", ones [level; x; y] [7; 3; 5])]
                 (AlignCoord (SizedAxis "level" 7) :: xy) Positional)
     = Some [3; 7; 3; 5]
  /\ shape_of (combine_fields
                 [("a", ones [z; level; x; y] [2; 7; 3; 5]);
                  ("b", ones [level; x; y] [7; 3; 5]);
                  ("c", ones [level; x; y] [7; 3; 5])]
                 [AlignName "level";
                  AlignCoord (CartesianProduct
                                [SizedAxis "x" 3; SizedAxis "y" 5])]
                 Positional)
     = Some [4; 7; 3; 5]
  /\ combine_fields [] [AlignName "x"; AlignCoord (SizedAxis "x" 3)] Positional
     = Raise (ValueError "`dims_to_align` must be unique")
  /\ combine_fields
       [("two_new", ones [z; level; x; y] [2; 7; 3; 5]);
        ("no_new", ones [x; y] [3; 5])]
       [AlignName "x"; AlignName "y"] Positional
     = Raise (ValueError "has more than 1 axis other than")
  /\ combine_fields
       [("missing_x", ones [level; y] [7; 5]); ("valid", ones [x; y] [3; 5])]
       [AlignName "x"; AlignName "y"] Positional
     = Raise (ValueError "does not align with")
  /\ combine_fields
       [("y_then_x", ones [NamedDim "l"; y; x] [7; 5; 3]);
        ("x_then_y", ones [x; y] [3; 5])]
       [AlignName "x"; AlignName "y"] Positional
     = Raise (ValueError "No unique out_axes found in inputs").
Proof. repeat split. Qed.

Section Combine.
Variable aligned_dims : list string.





End Combine.



End FieldUtilsFacts.

Module ModuleUtilsFacts.
Import CoordinateSystems CoordinateSystemsFacts ModuleUtils.

(** **** Equality of predicates and filters *)

Lemma Predicate_induction (P : Predicate -> Prop) :
  P Nothing -> P Everything ->
  (forall q, P q -> P (Not q)) ->
  (forall ps, Forall P ps -> P (Any ps)) ->
  (forall ps, Forall P ps -> P (All ps)) ->
  (forall t, P (OfType t)) -> (forall t, P (WithTag t)) ->
  (forall k, P (PathContains k)) -> (forall i, P (Callable i)) ->
  forall p, P p.
Proof.
  intros Hn He Hnot Hany Hall Ht Hw Hp Hc.
  fix IH 1. intros [| |q|ps|ps|t|t|k|i].
  - exact Hn.
  - exact He.
  - apply Hnot, IH.
  - apply Hany. induction ps as [|q ps IHps]; constructor; [apply IH|exact IHps].
  - apply Hall. induction ps as [|q ps IHps]; constructor; [apply IH|exact IHps].
  - apply Ht.
  - apply Hw.
  - apply Hp.
  - apply Hc.
Qed.

(** One constructor on each side, equal arguments. *)
Ltac same_constructor :=
  split; [intros ->; reflexivity|intros [= ->]; reflexivity].

Lemma predicate_eqb_eq (p q : Predicate) :
  predicate_eqb p q = true <-> p = q.
Proof.
  revert q. induction p as [| |p IH|ps IH|ps IH|t|t|k|i] using Predicate_induction;
    intros [| |q|qs|qs|t'|t'|k'|i']; simpl;
    try (split; (reflexivity || discriminate)).
  - rewrite IH. same_constructor.
  - rewrite (list_eqb_eq predicate_eqb ps IH).
    same_constructor.
  - rewrite (list_eqb_eq predicate_eqb ps IH).
    same_constructor.
  - rewrite String.eqb_eq.
    same_constructor.
  - rewrite String.eqb_eq.
    same_constructor.
  - rewrite String.eqb_eq.
    same_constructor.
  - rewrite Nat.eqb_eq.
    same_constructor.
Qed.

Lemma Filter_induction (P : Filter -> Prop) :
  (forall s, P (FStr s)) -> (forall t, P (FType t)) ->
  (forall b, P (FBool b)) -> P FEllipsis -> P FNone ->
  (forall p, P (FPredicate p)) ->
  (forall fs, Forall P fs -> P (FSeq fs)) ->
  forall f, P f.
Proof.
  intros Hs Ht Hb He Hn Hp Hseq.
  fix IH 1. intros [s|t|b| | |p|fs];
    [apply Hs|apply Ht|apply Hb|exact He|exact Hn|apply Hp|].
  apply Hseq. induction fs as [|f fs IHfs]; constructor; [apply IH|exact IHfs].
Qed.

Lemma filter_eqb_eq (f g : Filter) : filter_eqb f g = true <-> f = g.
Proof.
  revert g. induction f as [s|t|b| | |p|fs IH] using Filter_induction;
    intros [s'|t'|b'| | |p'|gs]; simpl;
    try (split; (reflexivity || discriminate)).
  - rewrite String.eqb_eq.
    same_constructor.
  - rewrite String.eqb_eq.
    same_constructor.
  - rewrite Bool.eqb_true_iff.
    same_constructor.
  - rewrite predicate_eqb_eq.
    same_constructor.
  - rewrite (list_eqb_eq filter_eqb fs IH).
    same_constructor.
Qed.

Lemma filter_eqb_refl (f : Filter) : filter_eqb f f = true.
Proof. apply filter_eqb_eq. reflexivity. Qed.

Lemma filter_eqb_neq (f g : Filter) : filter_eqb f g = false <-> f <> g.
Proof.
  rewrite <- filter_eqb_eq. destruct (filter_eqb f g); split; congruence.
Qed.

(** **** The disjointness check *)

Section Disjoint.
Context {env : PyEnv}.

Lemma predicate_size_pos (p : Predicate) : 1 <= predicate_size p.
Proof. destruct p; simpl; lia. Qed.

Lemma predicate_size_In (sub : Predicate) (ps : list Predicate) :
  In sub ps ->
  predicate_size sub <= fold_right (fun q n => predicate_size q + n) 0 ps.
Proof.
  induction ps as [|q ps IH]; simpl; [intros []|].
  intros [<-|H]; [lia|]. specialize (IH H). lia.
Qed.

Lemma forallb_ext_in {A} (f g : A -> bool) (l : list A) :
  (forall x, In x l -> f x = g x) -> forallb f l = forallb g l.
Proof.
  induction l as [|x l IH]; intros H; simpl; [reflexivity|].
  rewrite (H x (or_introl eq_refl)), IH; [reflexivity|].
  intros y Hy. apply H. right. exact Hy.
Qed.

Lemma existsb_ext_in {A} (f g : A -> bool) (l : list A) :
  (forall x, In x l -> f x = g x) -> existsb f l = existsb g l.
Proof.
  induction l as [|x l IH]; intros H; simpl; [reflexivity|].
  rewrite (H x (or_introl eq_refl)), IH; [reflexivity|].
  intros y Hy. apply H. right. exact Hy.
Qed.

(** Fuel beyond the sizes of the two predicates does not change the
    answer. *)
Lemma disjoint_fuel_stable (n : nat) :
  forall m p1 p2,
    predicate_size p1 + predicate_size p2 <= n ->
    predicate_size p1 + predicate_size p2 <= m ->
    disjoint_predicates_fuel n p1 p2 = disjoint_predicates_fuel m p1 p2.
Proof.
  induction n as [|n IH]; intros m p1 p2 Hn Hm.
  { pose proof (predicate_size_pos p1). lia. }
  destruct m as [|m]; [pose proof (predicate_size_pos p1); lia|].
  assert (Hsub : forall sub ps,
             In sub ps ->
             S (fold_right (fun q k => predicate_size q + k) 0 ps)
             + predicate_size p2 <= S n ->
             S (fold_right (fun q k => predicate_size q + k) 0 ps)
             + predicate_size p2 <= S m ->
             disjoint_predicates_fuel n sub p2
             || disjoint_predicates_fuel n p2 sub
             = disjoint_predicates_fuel m sub p2
               || disjoint_predicates_fuel m p2 sub).
  { intros sub ps Hin H1 H2. pose proof (predicate_size_In sub ps Hin).
    rewrite (IH m sub p2), (IH m p2 sub) by lia. reflexivity. }
  destruct p1 as [| |q|ps|ps|t|t|k|i]; cbn [disjoint_predicates_fuel];
    try reflexivity.
  - apply forallb_ext_in. intros sub Hin. simpl in Hn, Hm.
    apply (Hsub sub ps Hin); simpl; lia.
  - apply existsb_ext_in. intros sub Hin. simpl in Hn, Hm.
    apply (Hsub sub ps Hin); simpl; lia.
Qed.

(** The equations of the source: the calls on the sub-predicates are calls
    of [_are_certainly_disjoint_filters]. *)
Lemma disjoint_predicates_Any (ps : list Predicate) (p2 : Predicate) :
  _are_certainly_disjoint_predicates (Any ps) p2
  = forallb (fun sub_p => _are_certainly_disjoint_filters
                            (FPredicate sub_p) (FPredicate p2)) ps.
Proof.
  unfold _are_certainly_disjoint_predicates at 1. simpl.
  apply forallb_ext_in. intros sub Hin.
  pose proof (predicate_size_In sub ps Hin).
  unfold _are_certainly_disjoint_filters, _are_certainly_disjoint_predicates.
  simpl. f_equal; apply disjoint_fuel_stable; lia.
Qed.

Lemma disjoint_predicates_All (ps : list Predicate) (p2 : Predicate) :
  _are_certainly_disjoint_predicates (All ps) p2
  = existsb (fun sub_p => _are_certainly_disjoint_filters
                            (FPredicate sub_p) (FPredicate p2)) ps.
Proof.
  unfold _are_certainly_disjoint_predicates at 1. simpl.
  apply existsb_ext_in. intros sub Hin.
  pose proof (predicate_size_In sub ps Hin).
  unfold _are_certainly_disjoint_filters, _are_certainly_disjoint_predicates.
  simpl. f_equal; apply disjoint_fuel_stable; lia.
Qed.

(** With single inheritance the check is sound. *)
Lemma disjoint_predicates_fuel_sound (Hsingle : single_inheritance env)
  (n : nat) :
  forall p1 p2,
    disjoint_predicates_fuel n p1 p2 = true ->
    forall path x, holds p1 path x = true -> holds p2 path x = true -> False.
Proof.
  induction n as [|n IH]; intros p1 p2 Hd path x H1 H2; [discriminate|].
  destruct p1 as [| |q|ps|ps|t|t|k|i]; cbn [disjoint_predicates_fuel] in Hd;
    try discriminate.
  - destruct p2; discriminate.
  - apply predicate_eqb_eq in Hd. subst p2. simpl in H1.
    rewrite H2 in H1. discriminate.
  - simpl in H1. apply existsb_exists in H1. destruct H1 as (sub & Hin & Hs).
    rewrite forallb_forall in Hd. specialize (Hd sub Hin).
    apply orb_true_iff in Hd. destruct Hd as [Hd|Hd]; eapply IH; eauto.
  - simpl in H1. rewrite forallb_forall in H1.
    apply existsb_exists in Hd. destruct Hd as (sub & Hin & Hd).
    specialize (H1 sub Hin).
    apply orb_true_iff in Hd. destruct Hd as [Hd|Hd]; eapply IH; eauto.
  - destruct p2; try discriminate. simpl in H1, H2.
    apply andb_true_iff in Hd. destruct Hd as [Ha Hb].
    apply negb_true_iff in Ha, Hb.
    destruct (Hsingle _ _ _ H1 H2); congruence.
  - destruct p2; try discriminate. simpl in H1, H2.
    apply negb_true_iff, String.eqb_neq in Hd.
    destruct (var_tag x) as [t'|]; [|discriminate].
    apply String.eqb_eq in H1, H2. congruence.
Qed.

Lemma disjoint_filters_sound (Hsingle : single_inheritance env)
  (f1 f2 : Filter) :
  _are_certainly_disjoint_filters f1 f2 = true ->
  forall path x, ~ (matches f1 path x = true /\ matches f2 path x = true).
Proof.
  unfold _are_certainly_disjoint_filters, _are_certainly_disjoint_predicates,
    matches.
  intros Hd path x [H1 H2]. apply orb_true_iff in Hd.
  destruct Hd as [Hd|Hd];
    eapply (disjoint_predicates_fuel_sound Hsingle); eauto.
Qed.

End Disjoint.

(** C2, the failing input.  [Param] and [Cache] are not in a subclass
    relation, so the check answers that the filters [Param] and [Cache] are
    certainly disjoint; a variable of type [CachedParam], which inherits
    from both, is matched by both. *)
Theorem disjoint_check_false_positive :
  let env := class_table_env diamond in
  let x := {| var_type := "CachedParam"; var_tag := None;
              var_value := ArrayLeaf [] [0%Z] |} in
  _are_certainly_disjoint_filters (FType "Param") (FType "Cache") = true
  /\ matches (FType "Param") ["w"] x = true
  /\ matches (FType "Cache") ["w"] x = true.
Proof. repeat split. Qed.

(** **** vectorize_module *)

Section Vectorize.
Context {env : PyEnv}.

(** A traversal raises what the function raises on one of the leaves, and
    returns when the function returns on all of them. *)
Lemma map_leaves_outcome (f : Leaf -> Result Exn Leaf)
  (l : list (Path * StateVar)) :
  match map_leaves f l with
  | Raise e => exists path x, In (path, x) l /\ f (var_value x) = Raise e
  | Return _ => forall path x, In (path, x) l -> raised (f (var_value x)) = false
  end.
Proof.
  induction l as [|[p x] l IH]; simpl; [intros ? ? []|].
  destruct (f (var_value x)) as [y|e] eqn:Hx.
  - destruct (map_leaves f l) as [r|e].
    + intros path z [[= <- <-]|Hin]; [rewrite Hx; reflexivity|].
      apply (IH path z Hin).
    + destruct IH as (path & z & Hin & Hz).
      exists path, z. split; [right; exact Hin|exact Hz].
  - exists p, x. split; [left; reflexivity|exact Hx].
Qed.

Lemma tree_map_outcome (f : Leaf -> Result Exn Leaf) (state : ModuleState) :
  match tree_map f state with
  | Raise e => exists path x, state !! path = Some x /\ f (var_value x) = Raise e
  | Return _ =>
      forall path x, state !! path = Some x -> raised (f (var_value x)) = false
  end.
Proof.
  unfold tree_map.
  pose proof (map_leaves_outcome f (map_to_list state)) as H.
  destruct (map_leaves f (map_to_list state)) as [r|e].
  - intros path x Hx. apply (H path x).
    apply list_elem_of_In, elem_of_map_to_list. exact Hx.
  - destruct H as (path & x & Hin & Hx).
    exists path, x. split; [|exact Hx].
    apply elem_of_map_to_list, list_elem_of_In. exact Hin.
Qed.

(** The two ways in which [broadcast] raises: on a leaf that is not a
    field, and on a field whose coordinate cannot be composed with the
    coordinate of the entry. *)
Lemma broadcast_raises (coord : Coordinate) (x : Leaf) (e : Exn) :
  broadcast coord x = Raise e ->
  (is_field x = false /\ e = NotAField)
  \/ exists f error,
       x = FieldLeaf f
       /\ compose_coordinates [coord; coordinate f] = Raise error
       /\ e = CoordaxError error.
Proof.
  destruct x as [f|shp buf]; unfold broadcast, cx_compose_coordinates.
  - destruct (compose_coordinates [coord; coordinate f]) as [c|error] eqn:E;
      [discriminate|].
    intros [= <-]. right. exists f, error. auto.
  - intros [= <-]. left. auto.
Qed.

(** Where a call raises, and in which state it leaves the module. *)
Lemma vectorize_module_raises
  (module : ModuleState) (specs : list (Filter * Coordinate))
  (module' : ModuleState) (e : Exn) :
  vectorize_module module specs = (module', Raise e) ->
  exists applied k coord rest,
    specs = applied ++ (k, coord) :: rest
    /\ vectorize_module module applied = (module', Return tt)
    /\ (exists path x,
           nnx_state module' k !! path = Some x
           /\ broadcast coord (var_value x) = Raise e
           /\ ((is_field (var_value x) = false /\ e = NotAField)
               \/ exists f error,
                    var_value x = FieldLeaf f
                    /\ compose_coordinates [coord; coordinate f] = Raise error
                    /\ e = CoordaxError error))
    /\ (applied = [] -> module' = module).
Proof.
  revert module. induction specs as [|[k coord] rest IH]; intros module H.
  - discriminate.
  - simpl in H.
    pose proof (tree_map_outcome (broadcast coord) (nnx_state module k)) as Hk.
    destruct (tree_map (broadcast coord) (nnx_state module k))
      as [k_state|e'] eqn:Hmap.
    + destruct (IH _ H) as (applied & k' & coord' & rest' & -> & Hp & Hx & _).
      exists ((k, coord) :: applied), k', coord', rest'.
      split; [reflexivity|]. split.
      * simpl. rewrite Hmap. exact Hp.
      * split; [exact Hx|discriminate].
    + injection H as <- <-. destruct Hk as (path & x & Hx & Hb).
      exists [], k, coord, rest.
      split; [reflexivity|]. split; [reflexivity|]. split; [|reflexivity].
      exists path, x. split; [exact Hx|]. split; [exact Hb|].
      apply broadcast_raises, Hb.
Qed.

End Vectorize.

(** C3, as amended.  A call of [vectorize_module] that raises does so at an
    entry of the spec whose filter selects, in the state the module is in
    at that point, a leaf on which [broadcast] raises: a leaf that is not a
    field, or a field whose coordinate cannot be composed with that of the
    entry.  The module is left in the state in which exactly the entries
    before that one have been applied; it is as it was when that entry is
    the first one. *)
Theorem vectorize_module_applies_prefix {env : PyEnv}
  (module : ModuleState) (specs : list (Filter * Coordinate))
  (module' : ModuleState) (e : Exn) :
  vectorize_module module specs = (module', Raise e) ->
  exists applied k coord rest,
    specs = applied ++ (k, coord) :: rest
    /\ vectorize_module module applied = (module', Return tt)
    /\ (exists path x,
           nnx_state module' k !! path = Some x
           /\ broadcast coord (var_value x) = Raise e
           /\ ((is_field (var_value x) = false /\ e = NotAField)
               \/ exists f error,
                    var_value x = FieldLeaf f
                    /\ compose_coordinates [coord; coordinate f] = Raise error
                    /\ e = CoordaxError error))
    /\ (applied = [] -> module' = module).
Proof. apply vectorize_module_raises. Qed.

(** C3, as stated, fails: the first entry broadcasts the weight, the second
    one raises on the statistics, and the weight stays broadcast. *)
Lemma vectorize_module_not_atomic :
  let env := class_table_env diamond in
  let batch := SizedAxis "batch" 2 in
  let specs := [(FType "Param", batch); (FType "Cache", batch)] in
  snd (vectorize_module small_module specs) = Raise NotAField
  /\ fst (vectorize_module small_module specs) <> small_module
  /\ coordinate_at small_module ["w"] = Some (SizedAxis "x" 3)
  /\ coordinate_at (fst (vectorize_module small_module specs)) ["w"]
     = Some (CartesianProduct [SizedAxis "batch" 2; SizedAxis "x" 3]).
Proof.
  intros env batch specs.
  assert (Hc : coordinate_at (fst (vectorize_module small_module specs)) ["w"]
               = Some (CartesianProduct [SizedAxis "batch" 2; SizedAxis "x" 3]))
    by (vm_compute; reflexivity).
  split; [vm_compute; reflexivity|]. split; [|split; [vm_compute; reflexivity|exact Hc]].
  intros Heq. rewrite Heq in Hc. vm_compute in Hc. discriminate Hc.
Qed.

Lemma vectorize_module_applies_prefix_witness :
  let env := class_table_env diamond in
  let batch := SizedAxis "batch" 2 in
  let specs := [(FType "Param", batch); (FType "Cache", batch)] in
  exists applied k coord rest,
    specs = applied ++ (k, coord) :: rest
    /\ vectorize_module small_module applied
       = (fst (vectorize_module small_module specs), Return tt).
Proof.
  intros env batch specs.
  destruct (vectorize_module_applies_prefix (env := env) small_module specs
              (fst (vectorize_module small_module specs)) NotAField)
    as (applied & k & coord & rest & Hs & Hp & _).
  - vm_compute. reflexivity.
  - exists applied, k, coord, rest. split; assumption.
Defined.

(** **** untag_module_state, tag_module_state *)

Section TagState.
Context {env : PyEnv}.

Lemma axis_in_In (ax : Coordinate) (s : list Coordinate) :
  axis_in ax s = true <-> In ax s.
Proof.
  unfold axis_in. rewrite existsb_exists. split.
  - intros (y & Hy & E). apply coordinate_eqb_eq in E. subst y. exact Hy.
  - intros H. exists ax. split; [exact H|apply coordinate_eqb_refl].
Qed.

Lemma fold_union_In (ax : Coordinate) (rest : list (list Coordinate)) :
  forall s,
    In ax (fold_left (fun acc s' => acc ++ s') rest s)
    <-> In ax s \/ exists s', In s' rest /\ In ax s'.
Proof.
  induction rest as [|r rest IH]; intros s; simpl.
  - split; [intros H; left; exact H|]. intros [H|(s' & [] & _)]. exact H.
  - rewrite IH, in_app_iff. split.
    + intros [[H|H]|(s' & Hs' & H)].
      * left. exact H.
      * right. exists r. split; [left; reflexivity|exact H].
      * right. exists s'. split; [right; exact Hs'|exact H].
    + intros [H|(s' & [<-|Hs'] & H)].
      * left. left. exact H.
      * left. right. exact H.
      * right. exists s'. split; assumption.
Qed.

(** With at least one entry in [vectorized_axes], an axis of the
    coordinate that occurs in none of its coordinates makes the call raise
    the ValueError, and the module is as it was. *)
Lemma module_state_op_validates (caller : string)
  (op : Coordinate -> Leaf -> Result Exn Leaf)
  (module : ModuleState) (coord : Coordinate)
  (vectorized_axes : list (Filter * Coordinate)) :
  vectorized_axes <> [] ->
  (exists ax, In ax (axes coord)
              /\ forall kv, In kv vectorized_axes -> ~ In ax (axes (snd kv))) ->
  module_state_op caller op module coord vectorized_axes
  = (module, Raise (AxisNotPresent caller)).
Proof.
  intros Hne (ax & Hax & Hnone). unfold module_state_op, reduce_or.
  destruct vectorized_axes as [|kv0 rest]; [congruence|]. cbn [map].
  replace (existsb _ (axes coord)) with true; [reflexivity|].
  symmetry. apply existsb_exists. exists ax. split; [exact Hax|].
  apply negb_true_iff, not_true_is_false. rewrite axis_in_In, fold_union_In.
  intros [H|(s' & Hs' & H)].
  - apply (Hnone kv0); [left; reflexivity|exact H].
  - apply in_map_iff in Hs'. destruct Hs' as (kv & <- & Hkv).
    apply (Hnone kv); [right; exact Hkv|exact H].
Qed.

End TagState.

(** C10, the failing input.  With an empty [vectorized_axes] no coordinate
    of it contains any axis of the given coordinate, yet neither function
    reaches its ValueError: reducing the empty sequence of sets raises a
    TypeError first.  The module is as it was. *)
Theorem tag_module_state_empty_vectorized_axes {env : PyEnv}
  (module : ModuleState) :
  let coord := SizedAxis "x" 2 in
  tag_module_state module coord [] = (module, Raise ReduceOfEmpty)
  /\ untag_module_state module coord [] = (module, Raise ReduceOfEmpty)
  /\ is_ValueError ReduceOfEmpty = false.
Proof. repeat split. Qed.

(** **** Dictionaries *)

Lemma filter_eqb_sym (a b : Filter) : filter_eqb a b = filter_eqb b a.
Proof.
  destruct (filter_eqb a b) eqn:E.
  - apply filter_eqb_eq in E. subst. symmetry. apply filter_eqb_refl.
  - apply filter_eqb_neq in E. symmetry. apply filter_eqb_neq. congruence.
Qed.

Lemma key_in_In (k : Filter) (l : list Filter) : key_in k l = true <-> In k l.
Proof.
  unfold key_in. rewrite existsb_exists. split.
  - intros (y & Hy & E). apply filter_eqb_eq in E. subst. exact Hy.
  - intros H. exists k. split; [exact H|apply filter_eqb_refl].
Qed.

Lemma key_in_filter (p : Filter -> bool) (k : Filter) (l : list Filter) :
  key_in k (List.filter p l) = key_in k l && p k.
Proof.
  apply eq_true_iff_eq.
  rewrite andb_true_iff, !key_in_In, filter_In. reflexivity.
Qed.

Lemma dict_contains_key_in (d : Dict) (k : Filter) :
  dict_contains d k = key_in k (dict_keys d).
Proof.
  unfold dict_contains. induction d as [|[k' v] d IH]; simpl; [reflexivity|].
  rewrite (filter_eqb_sym k k').
  destruct (filter_eqb k' k); simpl; [reflexivity|exact IH].
Qed.

Lemma dict_get_set (d : Dict) (k : Filter) (v : Coordinate) (k' : Filter) :
  dict_get (dict_set d k v) k'
  = if filter_eqb k k' then Some v else dict_get d k'.
Proof.
  induction d as [|[k1 v1] d IH]; simpl; [reflexivity|].
  destruct (filter_eqb k1 k) eqn:E; simpl.
  - apply filter_eqb_eq in E. subst k1. destruct (filter_eqb k k'); reflexivity.
  - rewrite IH. destruct (filter_eqb k1 k') eqn:E1; [|reflexivity].
    apply filter_eqb_eq in E1. subst k1.
    rewrite (filter_eqb_sym k k'), E. reflexivity.
Qed.

Lemma dict_contains_set (d : Dict) (k : Filter) (v : Coordinate) (k' : Filter) :
  dict_contains (dict_set d k v) k' = filter_eqb k k' || dict_contains d k'.
Proof.
  unfold dict_contains. rewrite dict_get_set.
  destruct (filter_eqb k k'); reflexivity.
Qed.

Lemma dict_get_remove (d : Dict) (k k' : Filter) :
  dict_get (dict_remove d k) k'
  = if filter_eqb k k' then None else dict_get d k'.
Proof.
  unfold dict_remove. induction d as [|[k1 v1] d IH]; simpl.
  - destruct (filter_eqb k k'); reflexivity.
  - destruct (filter_eqb k1 k) eqn:E; simpl.
    + apply filter_eqb_eq in E. subst k1. rewrite IH.
      destruct (filter_eqb k k'); reflexivity.
    + rewrite IH. destruct (filter_eqb k1 k') eqn:E1; [|reflexivity].
      apply filter_eqb_eq in E1. subst k1.
      rewrite (filter_eqb_sym k k'), E. reflexivity.
Qed.

Lemma dict_pop_get (d : Dict) (k : Filter) :
  dict_get (snd (dict_pop d FEllipsis Scalar)) k
  = if filter_eqb FEllipsis k then None else dict_get d k.
Proof.
  unfold dict_pop. destruct (dict_get d FEllipsis) eqn:E; cbn [snd].
  - apply dict_get_remove.
  - destruct (filter_eqb FEllipsis k) eqn:E1; [|reflexivity].
    apply filter_eqb_eq in E1. subst k. exact E.
Qed.

Lemma dict_pop_value (d : Dict) :
  fst (dict_pop d FEllipsis Scalar) = dict_get_default d FEllipsis Scalar.
Proof.
  unfold dict_pop, dict_get_default.
  destruct (dict_get d FEllipsis); reflexivity.
Qed.

Lemma functional_set (g : Filter -> Coordinate) (d : Dict) (k : Filter) :
  functional g d -> functional g (dict_set d k (g k)).
Proof.
  unfold functional. induction 1 as [|[k1 v1] d Hx Hd IH]; simpl.
  - constructor; [reflexivity|constructor].
  - destruct (filter_eqb k1 k) eqn:E.
    + apply filter_eqb_eq in E. subst k1. constructor; [reflexivity|exact Hd].
    + constructor; [exact Hx|exact IH].
Qed.

Lemma functional_get (g : Filter -> Coordinate) (d : Dict) :
  functional g d ->
  forall k, dict_get d k = if dict_contains d k then Some (g k) else None.
Proof.
  unfold functional, dict_contains.
  induction 1 as [|[k1 v1] d Hx _ IH]; intros k; simpl; [reflexivity|].
  destruct (filter_eqb k1 k) eqn:E; [|apply IH].
  apply filter_eqb_eq in E. subst k1. simpl in Hx. rewrite Hx. reflexivity.
Qed.

Lemma dict_comprehension_from_ok (g : Filter -> Coordinate)
  (f : Filter -> Result Exn Coordinate) (keys : list Filter) :
  (forall k, In k keys -> f k = Return (g k)) ->
  forall acc, functional g acc ->
  exists d, dict_comprehension_from acc f keys = Return d
            /\ functional g d
            /\ forall k, dict_contains d k
                         = key_in k keys || dict_contains acc k.
Proof.
  induction keys as [|k0 keys IH]; intros Hf acc Hacc; simpl.
  - exists acc. repeat split; [exact Hacc].
  - rewrite (Hf k0 (or_introl eq_refl)).
    destruct (IH (fun k Hk => Hf k (or_intror Hk))
                 (dict_set acc k0 (g k0)) (functional_set g acc k0 Hacc))
      as (d & -> & Hd & Hk).
    exists d. split; [reflexivity|]. split; [exact Hd|].
    intros k. rewrite Hk, dict_contains_set, (filter_eqb_sym k k0).
    destruct (filter_eqb k0 k), (key_in k keys); reflexivity.
Qed.

Lemma dict_comprehension_ok (g : Filter -> Coordinate)
  (f : Filter -> Result Exn Coordinate) (keys : list Filter) :
  (forall k, In k keys -> f k = Return (g k)) ->
  exists d, dict_comprehension f keys = Return d
            /\ functional g d
            /\ forall k, dict_contains d k = key_in k keys.
Proof.
  intros Hf.
  destruct (dict_comprehension_from_ok g f keys Hf [] (List.Forall_nil _))
    as (d & Hd & Hfun & Hk).
  exists d. split; [exact Hd|]. split; [exact Hfun|].
  intros k. rewrite Hk. apply orb_false_r.
Qed.

Lemma dict_update_get (g : Filter -> Coordinate) (other : Dict) :
  functional g other ->
  forall d k, dict_get (dict_update d other) k
              = if dict_contains other k then Some (g k) else dict_get d k.
Proof.
  unfold functional, dict_update, dict_contains.
  induction 1 as [|[k0 v0] other Hx _ IH]; intros d k; simpl; [reflexivity|].
  rewrite IH, dict_get_set. simpl in Hx. subst v0.
  destruct (filter_eqb k0 k) eqn:E; [|reflexivity].
  apply filter_eqb_eq in E. subst k0. destruct (dict_get other k); reflexivity.
Qed.

Lemma functional_contains (g g' : Filter -> Coordinate) (d : Dict) :
  functional g d ->
  (forall k, dict_contains d k = true -> g k = g' k) ->
  functional g' d.
Proof.
  unfold functional. intros Hd Hg. rewrite List.Forall_forall in *.
  intros [k v] Hin. rewrite (Hd _ Hin). simpl. apply Hg.
  rewrite dict_contains_key_in. apply key_in_In.
  apply (in_map fst) in Hin. exact Hin.
Qed.

Lemma dict_comprehension_ext (f f' : Filter -> Result Exn Coordinate)
  (keys : list Filter) :
  (forall k, In k keys -> f k = f' k) ->
  dict_comprehension f keys = dict_comprehension f' keys.
Proof.
  unfold dict_comprehension. generalize (@nil (Filter * Coordinate)).
  induction keys as [|k keys IH]; intros acc H; [reflexivity|].
  simpl. rewrite <- (H k) by (left; reflexivity).
  destruct (f k); [|reflexivity].
  apply IH. intros k' Hk'. apply H. right. exact Hk'.
Qed.

Lemma dict_comprehension_from_raises (f : Filter -> Result Exn Coordinate)
  (keys : list Filter) :
  (exists k, In k keys /\ raised (f k) = true) ->
  forall acc,
    exists k e,
      In k keys /\ f k = Raise e /\ dict_comprehension_from acc f keys = Raise e.
Proof.
  induction keys as [|k0 keys IH]; intros (k & Hk & Hr) acc; [destruct Hk|].
  simpl. destruct (f k0) as [v|e] eqn:E.
  - assert (Hin : In k keys).
    { destruct Hk as [<-|Hk]; [|exact Hk]. rewrite E in Hr. discriminate. }
    destruct (IH (ex_intro _ k (conj Hin Hr)) (dict_set acc k0 v))
      as (k' & e' & Hin' & Hf & Hd).
    exists k', e'. split; [right; exact Hin'|]. split; assumption.
  - exists k0, e. split; [left; reflexivity|]. split; [exact E|reflexivity].
Qed.

Lemma forallb_false_exists {A : Type} (p : A -> bool) (l : list A) :
  forallb p l = false -> exists x, In x l /\ p x = false.
Proof.
  induction l as [|x l IH]; cbn [forallb]; [discriminate|].
  destruct (p x) eqn:E; cbn [andb].
  - intros H. destruct (IH H) as (y & Hy & Hp).
    exists y. split; [right; exact Hy|exact Hp].
  - intros _. exists x. split; [left; reflexivity|exact E].
Qed.

(** A comprehension raises what the first raising key raises, and returns
    when every key returns. *)
Lemma dict_comprehension_cases (f : Filter -> Result Exn Coordinate)
  (keys : list Filter) :
  (exists k e,
      In k keys /\ f k = Raise e /\ dict_comprehension f keys = Raise e)
  \/ ((forall k, In k keys -> raised (f k) = false)
      /\ exists d,
          dict_comprehension f keys = Return d
          /\ functional
               (fun k => match f k with Return v => v | Raise _ => Scalar end) d
          /\ forall k, dict_contains d k = key_in k keys).
Proof.
  destruct (forallb (fun k => negb (raised (f k))) keys) eqn:E.
  - right. rewrite forallb_forall in E.
    assert (Hr : forall k, In k keys -> raised (f k) = false).
    { intros k Hk. apply negb_true_iff, E, Hk. }
    split; [exact Hr|]. apply dict_comprehension_ok.
    intros k Hk. specialize (Hr k Hk). destruct (f k); [reflexivity|discriminate].
  - left. apply forallb_false_exists in E. destruct E as (k & Hk & Hr).
    apply negb_false_iff in Hr.
    apply (dict_comprehension_from_raises f keys
             (ex_intro _ k (conj Hk Hr)) []).
Qed.

(** **** merge_vectorized_axes *)

Section Merge.
Context {env : PyEnv} (Hset : set_iter_ok env).

Lemma key_in_set_iter (k : Filter) (l : list Filter) :
  key_in k (set_iter l) = key_in k l.
Proof. apply eq_true_iff_eq. rewrite !key_in_In. apply Hset. Qed.

Lemma key_in_common (a b : Dict) (k : Filter) :
  key_in k (common_keys_of a b) = dict_contains a k && dict_contains b k.
Proof.
  unfold common_keys_of.
  rewrite key_in_set_iter, key_in_filter, <- !dict_contains_key_in.
  reflexivity.
Qed.

Lemma key_in_diff (a b : Dict) (k : Filter) :
  key_in k (diff_keys_of a b) = dict_contains a k && negb (dict_contains b k).
Proof.
  unfold diff_keys_of.
  rewrite key_in_set_iter, key_in_filter, <- !dict_contains_key_in.
  reflexivity.
Qed.

Lemma forallb_find {A} (p : A -> bool) (l : list A) :
  forallb p l
  = match find (fun x => negb (p x)) l with Some _ => false | None => true end.
Proof.
  induction l as [|x l IH]; simpl; [reflexivity|].
  destruct (p x); simpl; [exact IH|reflexivity].
Qed.

(** The compositions the comprehensions make are those of
    [merged_value]. *)
Lemma merged_value_keys (head0 tail0 : Dict) :
  let head := snd (dict_pop head0 FEllipsis Scalar) in
  let tail := snd (dict_pop tail0 FEllipsis Scalar) in
  let hw := fst (dict_pop head0 FEllipsis Scalar) in
  let tw := fst (dict_pop tail0 FEllipsis Scalar) in
  (forall k, In k (common_keys_of head tail) ->
     k <> FEllipsis
     /\ merged_value head0 tail0 k
        = Some match getitem head k with
               | Raise e => Raise e
               | Return h =>
                   match getitem tail k with
                   | Raise e => Raise e
                   | Return t => cx_compose_coordinates [h; t]
                   end
               end)
  /\ (forall k, In k (diff_keys_of head tail) ->
        k <> FEllipsis
        /\ merged_value head0 tail0 k
           = Some match getitem head k with
                  | Raise e => Raise e
                  | Return h => cx_compose_coordinates [h; tw]
                  end)
  /\ (forall k, In k (diff_keys_of tail head) ->
        k <> FEllipsis
        /\ merged_value head0 tail0 k
           = Some match getitem tail k with
                  | Raise e => Raise e
                  | Return t => cx_compose_coordinates [hw; t]
                  end)
  /\ (forall k r, k <> FEllipsis -> merged_value head0 tail0 k = Some r ->
        In k (common_keys_of head tail) \/ In k (diff_keys_of head tail)
        \/ In k (diff_keys_of tail head)).
Proof.
  intros head tail hw tw. subst hw tw. rewrite !dict_pop_value.
  assert (Hcase : forall k,
             (filter_eqb FEllipsis k = true /\ k = FEllipsis
              /\ dict_get head k = None /\ dict_get tail k = None)
             \/ (filter_eqb FEllipsis k = false /\ k <> FEllipsis
                 /\ dict_get head k = dict_get head0 k
                 /\ dict_get tail k = dict_get tail0 k)).
  { intros k. subst head tail. rewrite !dict_pop_get.
    destruct (filter_eqb FEllipsis k) eqn:E.
    - left. apply filter_eqb_eq in E. auto.
    - right. apply filter_eqb_neq in E. auto. }
  repeat split.
  - apply key_in_In in H. rewrite key_in_common in H. unfold dict_contains in H.
    destruct (Hcase k) as [(_ & _ & E1 & _)|(_ & Hk & _)];
      [rewrite E1 in H; discriminate|exact Hk].
  - apply key_in_In in H. rewrite key_in_common in H.
    unfold dict_contains, getitem, merged_value in *.
    destruct (Hcase k) as [(_ & _ & E1 & _)|(_ & _ & E1 & E2)];
      [rewrite E1 in H; discriminate|].
    rewrite <- E1, <- E2.
    destruct (dict_get head k), (dict_get tail k); try discriminate.
    reflexivity.
  - apply key_in_In in H. rewrite key_in_diff in H. unfold dict_contains in H.
    destruct (Hcase k) as [(_ & _ & E1 & _)|(_ & Hk & _)];
      [rewrite E1 in H; discriminate|exact Hk].
  - apply key_in_In in H. rewrite key_in_diff in H.
    unfold dict_contains, getitem, merged_value in *.
    destruct (Hcase k) as [(_ & _ & E1 & _)|(_ & _ & E1 & E2)];
      [rewrite E1 in H; discriminate|].
    rewrite <- E1, <- E2.
    destruct (dict_get head k), (dict_get tail k); try discriminate.
    reflexivity.
  - apply key_in_In in H. rewrite key_in_diff in H. unfold dict_contains in H.
    destruct (Hcase k) as [(_ & _ & _ & E1)|(_ & Hk & _)];
      [rewrite E1 in H; discriminate|exact Hk].
  - apply key_in_In in H. rewrite key_in_diff in H.
    unfold dict_contains, getitem, merged_value in *.
    destruct (Hcase k) as [(_ & _ & _ & E1)|(_ & _ & E1 & E2)];
      [rewrite E1 in H; discriminate|].
    rewrite <- E1, <- E2.
    destruct (dict_get head k), (dict_get tail k); try discriminate.
    reflexivity.
  - intros k r Hk Hr. rewrite <- !key_in_In, !key_in_diff, key_in_common.
    unfold dict_contains, merged_value in *.
    destruct (Hcase k) as [(_ & E & _)|(_ & _ & E1 & E2)]; [contradiction|].
    rewrite E1, E2.
    destruct (dict_get head0 k), (dict_get tail0 k); simpl; auto.
    discriminate.
Qed.

(** The four ways in which a merge ends: a composition for a key raises;
    the check of the pairs raises; the composition of the wildcard
    coordinates raises; the merged mapping is returned. *)
Lemma merge_outcome (head0 tail0 : Dict) :
  let hw := dict_get_default head0 FEllipsis Scalar in
  let tw := dict_get_default tail0 FEllipsis Scalar in
  (exists k e,
      k <> FEllipsis
      /\ merged_value head0 tail0 k = Some (Raise e)
      /\ merge_vectorized_axes head0 tail0 = Raise e)
  \/ ((forall k r, k <> FEllipsis -> merged_value head0 tail0 k = Some r ->
         raised r = false)
      /\ match find (fun kk => negb (certainly_disjoint_pair kk))
                 (key_pairs head0 tail0) with
         | Some kk =>
             merge_vectorized_axes head0 tail0
             = Raise (OverlappingFilters (fst kk) (snd kk))
         | None =>
             match cx_compose_coordinates [hw; tw] with
             | Raise e => merge_vectorized_axes head0 tail0 = Raise e
             | Return _ =>
                 exists merged,
                   merge_vectorized_axes head0 tail0 = Return merged
                   /\ forall k,
                       match merged_value head0 tail0 k with
                       | Some r =>
                           exists c, r = Return c /\ dict_get merged k = Some c
                       | None => dict_get merged k = None
                       end
             end
         end).
Proof.
  intros hw tw. unfold merge_vectorized_axes, key_pairs.
  pose proof (merged_value_keys head0 tail0) as Hkeys. cbv zeta in Hkeys.
  pose proof (dict_pop_get head0) as Hhget.
  pose proof (dict_pop_get tail0) as Htget.
  pose proof (dict_pop_value head0) as Hhw.
  pose proof (dict_pop_value tail0) as Htw.
  destruct (dict_pop head0 FEllipsis Scalar) as [hw' head] eqn:Hh.
  destruct (dict_pop tail0 FEllipsis Scalar) as [tw' tail] eqn:Ht.
  cbn [fst snd] in *. fold hw in Hhw. fold tw in Htw. subst hw' tw'.
  destruct Hkeys as (Hc & Hdh & Hdt & Hall).
  set (F := fun k => match merged_value head0 tail0 k with
                     | Some r => r
                     | None => Return Scalar
                     end).
  set (G := fun k => match F k with Return v => v | Raise _ => Scalar end).
  match goal with
  | |- context [dict_comprehension ?f (common_keys_of head tail)] =>
      rewrite (dict_comprehension_ext f F (common_keys_of head tail))
  end.
  2:{ intros k Hk. unfold F. rewrite (proj2 (Hc k Hk)). reflexivity. }
  match goal with
  | |- context [dict_comprehension ?f (diff_keys_of head tail)] =>
      rewrite (dict_comprehension_ext f F (diff_keys_of head tail))
  end.
  2:{ intros k Hk. unfold F. rewrite (proj2 (Hdh k Hk)). reflexivity. }
  match goal with
  | |- context [dict_comprehension ?f (diff_keys_of tail head)] =>
      rewrite (dict_comprehension_ext f F (diff_keys_of tail head))
  end.
  2:{ intros k Hk. unfold F. rewrite (proj2 (Hdt k Hk)). reflexivity. }
  assert (Hraise : forall keys k e,
             (forall k, In k keys ->
                k <> FEllipsis /\ exists r, merged_value head0 tail0 k = Some r) ->
             In k keys -> F k = Raise e ->
             k <> FEllipsis /\ merged_value head0 tail0 k = Some (Raise e)).
  { intros keys k e Hkeys Hk HF. destruct (Hkeys k Hk) as (Hne & r & Hr).
    split; [exact Hne|]. unfold F in HF. rewrite Hr in HF. congruence. }
  destruct (dict_comprehension_cases F (common_keys_of head tail))
    as [(k & e & Hk & HF & ->)|(Hr0 & m0 & -> & Hm0 & Hk0)].
  { left. exists k, e.
    destruct (Hraise _ k e (fun k Hk => conj (proj1 (Hc k Hk))
                (ex_intro _ _ (proj2 (Hc k Hk)))) Hk HF) as [H1 H2].
    auto. }
  destruct (dict_comprehension_cases F (diff_keys_of head tail))
    as [(k & e & Hk & HF & ->)|(Hr1 & dh & -> & Hm1 & Hk1)].
  { left. exists k, e.
    destruct (Hraise _ k e (fun k Hk => conj (proj1 (Hdh k Hk))
                (ex_intro _ _ (proj2 (Hdh k Hk)))) Hk HF) as [H1 H2].
    auto. }
  destruct (dict_comprehension_cases F (diff_keys_of tail head))
    as [(k & e & Hk & HF & ->)|(Hr2 & dt & -> & Hm2 & Hk2)].
  { left. exists k, e.
    destruct (Hraise _ k e (fun k Hk => conj (proj1 (Hdt k Hk))
                (ex_intro _ _ (proj2 (Hdt k Hk)))) Hk HF) as [H1 H2].
    auto. }
  right.
  assert (Hreturns : forall k r, k <> FEllipsis ->
             merged_value head0 tail0 k = Some r -> raised r = false).
  { intros k r Hne Hr.
    assert (HF : F k = r) by (unfold F; rewrite Hr; reflexivity).
    rewrite <- HF.
    destruct (Hall k r Hne Hr) as [H|[H|H]]; auto. }
  split; [exact Hreturns|].
  rewrite forallb_find.
  destruct (find (fun kk => negb (certainly_disjoint_pair kk))
              (list_prod (diff_keys_of head tail) (diff_keys_of tail head)))
    as [kk|]; [reflexivity|]. cbn [negb].
  destruct (cx_compose_coordinates [hw; tw]) as [combined|e] eqn:Hcomb;
    [|reflexivity].
  assert (Hget : forall k,
             dict_get (dict_update (dict_update m0 dh) dt) k
             = if filter_eqb FEllipsis k then None
               else match merged_value head0 tail0 k with
                    | Some r => Some (G k)
                    | None => None
                    end).
  { intros k.
    rewrite (dict_update_get G dt Hm2), (dict_update_get G dh Hm1).
    rewrite (functional_get G m0 Hm0), Hk2, Hk1, Hk0.
    rewrite !key_in_diff, key_in_common.
    unfold dict_contains, merged_value. rewrite !Hhget, !Htget.
    destruct (filter_eqb FEllipsis k) eqn:E; [reflexivity|].
    destruct (dict_get head0 k), (dict_get tail0 k); reflexivity. }
  assert (Hvalue : forall k r, k <> FEllipsis ->
             merged_value head0 tail0 k = Some r -> r = Return (G k)).
  { intros k r Hne Hr. pose proof (Hreturns k r Hne Hr) as Hret.
    unfold G, F. rewrite Hr. destruct r; [reflexivity|discriminate]. }
  assert (Hwild : merged_value head0 tail0 FEllipsis
                  = if dict_contains head0 FEllipsis
                       || dict_contains tail0 FEllipsis
                    then Some (Return combined) else None).
  { unfold merged_value, dict_contains. fold hw tw. rewrite <- Hcomb.
    subst hw tw. unfold dict_get_default.
    destruct (dict_get head0 FEllipsis), (dict_get tail0 FEllipsis);
      reflexivity. }
  destruct (dict_contains head0 FEllipsis || dict_contains tail0 FEllipsis)
    eqn:Hw; eexists; (split; [reflexivity|]); intros k.
  - rewrite dict_get_set, Hget.
    destruct (filter_eqb FEllipsis k) eqn:E.
    + apply filter_eqb_eq in E. subst k. rewrite Hwild.
      exists combined. auto.
    + apply filter_eqb_neq in E.
      destruct (merged_value head0 tail0 k) as [r|] eqn:Hr; [|reflexivity].
      exists (G k). split; [|reflexivity]. apply (Hvalue k r); congruence.
  - rewrite Hget.
    destruct (filter_eqb FEllipsis k) eqn:E.
    + apply filter_eqb_eq in E. subst k. rewrite Hwild. reflexivity.
    + apply filter_eqb_neq in E.
      destruct (merged_value head0 tail0 k) as [r|] eqn:Hr; [|reflexivity].
      exists (G k). split; [|reflexivity]. apply (Hvalue k r); congruence.
Qed.

Lemma only_in_diff (head0 tail0 : Dict) (k : Filter) :
  In k (diff_keys_of (snd (dict_pop head0 FEllipsis Scalar))
                     (snd (dict_pop tail0 FEllipsis Scalar)))
  <-> only_in head0 tail0 k.
Proof.
  rewrite <- key_in_In, key_in_diff. unfold only_in, dict_contains.
  rewrite !dict_pop_get.
  destruct (filter_eqb FEllipsis k) eqn:E.
  - apply filter_eqb_eq in E. subst k. simpl. split; [discriminate|].
    intros [H _]. congruence.
  - apply filter_eqb_neq in E.
    destruct (dict_get head0 k), (dict_get tail0 k); simpl;
      split; try discriminate; try (intros (_ & H1 & H2); discriminate);
      intros _; repeat split; congruence.
Qed.

Lemma find_first {A} (p : A -> bool) (l : list A) (x : A) :
  find p l = Some x ->
  exists before after,
    l = before ++ x :: after /\ p x = true
    /\ forall y, In y before -> p y = false.
Proof.
  induction l as [|y l IH]; simpl; [discriminate|].
  destruct (p y) eqn:E.
  - intros [= ->]. exists [], l. repeat split; [exact E|intros ? []].
  - intros H. destruct (IH H) as (before & after & -> & Hx & Hb).
    exists (y :: before), after. repeat split; [exact Hx|].
    intros z [<-|Hz]; [exact E|apply Hb, Hz].
Qed.

(** The first pair that is not certainly disjoint, when there is one. *)
Lemma first_unresolved (head tail : Dict) :
  (exists k1 k2, only_in head tail k1 /\ only_in tail head k2
                 /\ _are_certainly_disjoint_filters k1 k2 = false) ->
  exists k1 k2 before after,
    find (fun kk => negb (certainly_disjoint_pair kk)) (key_pairs head tail)
    = Some (k1, k2)
    /\ key_pairs head tail = before ++ (k1, k2) :: after
    /\ (forall kk, In kk before ->
                   _are_certainly_disjoint_filters (fst kk) (snd kk) = true)
    /\ only_in head tail k1 /\ only_in tail head k2
    /\ _are_certainly_disjoint_filters k1 k2 = false.
Proof.
  intros (k1 & k2 & H1 & H2 & Hd).
  destruct (find _ (key_pairs head tail)) as [[a b]|] eqn:Hfind.
  - destruct (find_first _ _ _ Hfind) as (before & after & Hp & Hab & Hb).
    exists a, b, before, after. split; [reflexivity|]. split; [exact Hp|].
    assert (Hin : In (a, b) (key_pairs head tail))
      by (rewrite Hp; apply in_or_app; right; left; reflexivity).
    unfold key_pairs in Hin. apply in_prod_iff in Hin.
    destruct Hin as [Ha Hb'].
    apply only_in_diff in Ha. apply only_in_diff in Hb'.
    split; [|split; [exact Ha|split; [exact Hb'|]]].
    + intros kk Hkk. specialize (Hb kk Hkk).
      apply negb_false_iff in Hb. exact Hb.
    + apply negb_true_iff in Hab. exact Hab.
  - exfalso. apply find_none with (x := (k1, k2)) in Hfind.
    + apply negb_false_iff in Hfind. unfold certainly_disjoint_pair in Hfind.
      simpl in Hfind. congruence.
    + unfold key_pairs. apply in_prod_iff.
      split; apply only_in_diff; assumption.
Qed.

Lemma all_resolved (head tail : Dict) :
  (forall k1 k2, only_in head tail k1 -> only_in tail head k2 ->
                 _are_certainly_disjoint_filters k1 k2 = true) ->
  find (fun kk => negb (certainly_disjoint_pair kk)) (key_pairs head tail)
  = None.
Proof.
  intros Hall.
  destruct (find _ (key_pairs head tail)) as [[a b]|] eqn:Hfind;
    [|reflexivity].
  exfalso. apply find_some in Hfind. destruct Hfind as [Hin Hab].
  unfold key_pairs in Hin. apply in_prod_iff in Hin.
  destruct Hin as [Ha Hb].
  apply only_in_diff in Ha. apply only_in_diff in Hb.
  specialize (Hall a b Ha Hb). apply negb_true_iff in Hab.
  unfold certainly_disjoint_pair in Hab. simpl in Hab. congruence.
Qed.

End Merge.

Lemma class_table_env_set_iter_ok (table : ClassTable) :
  set_iter_ok (class_table_env table).
Proof. intros l k. reflexivity. Qed.

Lemma cx_compose_coordinates_raises (l : list Coordinate) (e : Exn) :
  cx_compose_coordinates l = Raise e -> exists error, e = CoordaxError error.
Proof.
  unfold cx_compose_coordinates. destruct (compose_coordinates l) as [c|error].
  - discriminate.
  - intros [= <-]. exists error. reflexivity.
Qed.

Lemma merged_value_raises (head tail : Dict) (k : Filter) (e : Exn) :
  merged_value head tail k = Some (Raise e) ->
  exists error, e = CoordaxError error.
Proof.
  unfold merged_value.
  destruct (dict_get head k), (dict_get tail k); try discriminate;
    intros [= H]; apply cx_compose_coordinates_raises in H; exact H.
Qed.

(** C4.  When [merge_vectorized_axes] returns, the compositions below
    return and the merged mapping holds: at a key of both inputs the
    composition of the head coordinate and the tail coordinate; at a key of
    the head only, the head coordinate composed with the wildcard
    coordinate of the tail ([Scalar] without one); at a key of the tail
    only, the wildcard coordinate of the head ([Scalar] without one)
    composed with the tail coordinate; nothing at a key of neither.  The
    wildcard is a key of the result exactly when it is one of an input, and
    then holds the composition of the two wildcard coordinates. *)
Theorem merge_vectorized_axes_values {env : PyEnv}
  (head tail merged : Dict) :
  set_iter_ok env ->
  merge_vectorized_axes head tail = Return merged ->
  let head_wildcard := dict_get_default head FEllipsis Scalar in
  let tail_wildcard := dict_get_default tail FEllipsis Scalar in
  (forall k h t,
      dict_get head k = Some h -> dict_get tail k = Some t ->
      exists c, compose_coordinates [h; t] = Return c
                /\ dict_get merged k = Some c)
  /\ (forall k h,
        dict_get head k = Some h -> dict_get tail k = None ->
        exists c, compose_coordinates [h; tail_wildcard] = Return c
                  /\ dict_get merged k = Some c)
  /\ (forall k t,
        dict_get head k = None -> dict_get tail k = Some t ->
        exists c, compose_coordinates [head_wildcard; t] = Return c
                  /\ dict_get merged k = Some c)
  /\ (forall k,
        dict_get head k = None -> dict_get tail k = None ->
        dict_get merged k = None)
  /\ dict_contains merged FEllipsis
     = dict_contains head FEllipsis || dict_contains tail FEllipsis
  /\ (dict_contains merged FEllipsis = true ->
      exists c, compose_coordinates [head_wildcard; tail_wildcard] = Return c
                /\ dict_get merged FEllipsis = Some c).
Proof.
  intros Hset Hm head_wildcard tail_wildcard.
  assert (Hget : forall k,
             match merged_value head tail k with
             | Some r => exists c, r = Return c /\ dict_get merged k = Some c
             | None => dict_get merged k = None
             end).
  { destruct (merge_outcome Hset head tail) as [(k & e & _ & _ & He)|[_ Ho]];
      [congruence|].
    destruct (find _ _) as [kk|] in Ho; [congruence|].
    destruct (cx_compose_coordinates _) as [combined|e] in Ho; [|congruence].
    destruct Ho as (merged' & Hm' & Hget).
    rewrite Hm in Hm'. injection Hm' as <-. exact Hget. }
  assert (Hcx : forall l k,
             (exists c', cx_compose_coordinates l = Return c'
                         /\ dict_get merged k = Some c') ->
             exists c', compose_coordinates l = Return c'
                        /\ dict_get merged k = Some c').
  { intros l k (c' & Hc & Hk). exists c'. split; [|exact Hk].
    unfold cx_compose_coordinates in Hc.
    destruct (compose_coordinates l); congruence. }
  assert (Hw : match dict_get merged FEllipsis with
               | Some c =>
                   dict_contains head FEllipsis || dict_contains tail FEllipsis
                   = true
                   /\ compose_coordinates [head_wildcard; tail_wildcard]
                      = Return c
               | None =>
                   dict_contains head FEllipsis || dict_contains tail FEllipsis
                   = false
               end).
  { specialize (Hget FEllipsis). unfold merged_value, dict_contains in *.
    fold head_wildcard tail_wildcard in Hget.
    assert (Hh : dict_get head FEllipsis = None -> head_wildcard = Scalar).
    { intros E. subst head_wildcard. unfold dict_get_default. rewrite E.
      reflexivity. }
    assert (Ht : dict_get tail FEllipsis = None -> tail_wildcard = Scalar).
    { intros E. subst tail_wildcard. unfold dict_get_default. rewrite E.
      reflexivity. }
    assert (Hh' : forall h, dict_get head FEllipsis = Some h ->
                            head_wildcard = h).
    { intros h E. subst head_wildcard. unfold dict_get_default. rewrite E.
      reflexivity. }
    assert (Ht' : forall t, dict_get tail FEllipsis = Some t ->
                            tail_wildcard = t).
    { intros t E. subst tail_wildcard. unfold dict_get_default. rewrite E.
      reflexivity. }
    destruct (dict_get head FEllipsis) as [h|] eqn:Eh,
             (dict_get tail FEllipsis) as [t|] eqn:Et.
    - rewrite <- (Hh' h eq_refl), <- (Ht' t eq_refl) in Hget.
      destruct (Hcx _ _ Hget) as (c & Hc & ->). auto.
    - rewrite <- (Hh' h eq_refl) in Hget.
      destruct (Hcx _ _ Hget) as (c & Hc & ->). auto.
    - rewrite <- (Ht' t eq_refl) in Hget.
      destruct (Hcx _ _ Hget) as (c & Hc & ->). auto.
    - rewrite Hget. reflexivity. }
  repeat split.
  - intros k h t Hh Ht. specialize (Hget k). unfold merged_value in Hget.
    rewrite Hh, Ht in Hget. apply (Hcx _ _ Hget).
  - intros k h Hh Ht. specialize (Hget k). unfold merged_value in Hget.
    rewrite Hh, Ht in Hget. apply (Hcx _ _ Hget).
  - intros k t Hh Ht. specialize (Hget k). unfold merged_value in Hget.
    rewrite Hh, Ht in Hget. apply (Hcx _ _ Hget).
  - intros k Hh Ht. specialize (Hget k). unfold merged_value in Hget.
    rewrite Hh, Ht in Hget. exact Hget.
  - unfold dict_contains at 1.
    destruct (dict_get merged FEllipsis); [symmetry; apply Hw|symmetry; exact Hw].
  - unfold dict_contains at 1.
    destruct (dict_get merged FEllipsis) as [c|]; [|discriminate].
    intros _. exists c. split; [apply Hw|reflexivity].
Qed.

Lemma merge_vectorized_axes_values_witness :
  let env := class_table_env diamond in
  let batch := SizedAxis "batch" 2 in
  let ens := SizedAxis "ensemble" 4 in
  let x := SizedAxis "x" 3 in
  let head := [(FType "Param", batch); (FEllipsis, ens)] in
  let tail := [(FType "Param", x); (FStr "diagnostic", x)] in
  (exists merged,
      merge_vectorized_axes head tail = Return merged
      /\ dict_get merged (FType "Param") = Some (CartesianProduct [batch; x])
      /\ dict_get merged (FStr "diagnostic") = Some (CartesianProduct [ens; x])
      /\ dict_get merged FEllipsis = Some ens)
  /\ (exists merged,
        merge_vectorized_axes [(FType "Param", batch)] [] = Return merged
        /\ dict_get merged (FType "Param") = Some batch
        /\ dict_contains merged FEllipsis = false).
Proof.
  intros env batch ens x head tail. split.
  - eexists. split; [reflexivity|].
    destruct (merge_vectorized_axes_values (env := env) head tail _
                (class_table_env_set_iter_ok diamond) eq_refl)
      as (Hboth & _ & Htail & _ & _ & Hwild).
    split; [|split].
    + destruct (Hboth (FType "Param") batch x eq_refl eq_refl)
        as (c & [= <-] & Hc). exact Hc.
    + destruct (Htail (FStr "diagnostic") x eq_refl eq_refl)
        as (c & [= <-] & Hc). exact Hc.
    + destruct (Hwild eq_refl) as (c & [= <-] & Hc). exact Hc.
  - eexists. split; [reflexivity|].
    destruct (merge_vectorized_axes_values (env := env)
                [(FType "Param", batch)] [] _
                (class_table_env_set_iter_ok diamond) eq_refl)
      as (_ & Hhead & _ & _ & Hcontains & _).
    split; [|exact Hcontains].
    destruct (Hhead (FType "Param") batch eq_refl eq_refl)
      as (c & [= <-] & Hc). exact Hc.
Defined.

(** C5, as amended.  When some head-only key and some tail-only key are not
    certainly disjoint, [merge_vectorized_axes] raises: the error that
    names the first such pair in the order in which the pairs are visited,
    unless one of the compositions made for the keys before the pairs are
    checked raises, which then is the error of the call.  When every such
    pair is certainly disjoint the error that names a pair is not raised,
    and the call returns when the compositions do.  The error is raised
    also for keys that no variable can match both: a key that matches
    nothing is not recognised as disjoint from a type filter. *)
Theorem merge_vectorized_axes_overlap {env : PyEnv} (head tail : Dict) :
  set_iter_ok env ->
  ((exists k1 k2, only_in head tail k1 /\ only_in tail head k2
                  /\ _are_certainly_disjoint_filters k1 k2 = false) ->
   exists k1 k2 before after,
     key_pairs head tail = before ++ (k1, k2) :: after
     /\ (forall kk, In kk before ->
                    _are_certainly_disjoint_filters (fst kk) (snd kk) = true)
     /\ only_in head tail k1 /\ only_in tail head k2
     /\ _are_certainly_disjoint_filters k1 k2 = false
     /\ (exists e,
            merge_vectorized_axes head tail = Raise e
            /\ (e = OverlappingFilters k1 k2
                \/ exists k error,
                     k <> FEllipsis
                     /\ merged_value head tail k
                        = Some (Raise (CoordaxError error))
                     /\ e = CoordaxError error))
     /\ ((forall k r, k <> FEllipsis -> merged_value head tail k = Some r ->
                      raised r = false) ->
         merge_vectorized_axes head tail = Raise (OverlappingFilters k1 k2)))
  /\ ((forall k1 k2, only_in head tail k1 -> only_in tail head k2 ->
                     _are_certainly_disjoint_filters k1 k2 = true) ->
      (forall k1 k2,
          merge_vectorized_axes head tail <> Raise (OverlappingFilters k1 k2))
      /\ ((forall k r, merged_value head tail k = Some r -> raised r = false) ->
          exists merged, merge_vectorized_axes head tail = Return merged))
  /\ (forall c1 c2 t,
        repeated_dims (coord_dims c1) = [] ->
        repeated_dims (coord_dims c2) = [] ->
        (forall path x,
            matches (FPredicate (Not Everything)) path x = false)
        /\ merge_vectorized_axes [(FPredicate (Not Everything), c1)]
                                 [(FType t, c2)]
           = Raise (OverlappingFilters (FPredicate (Not Everything)) (FType t))).
Proof.
  intros Hset.
  assert (Hfirst : forall head tail,
    (exists k1 k2, only_in head tail k1 /\ only_in tail head k2
                   /\ _are_certainly_disjoint_filters k1 k2 = false) ->
    exists k1 k2 before after,
      key_pairs head tail = before ++ (k1, k2) :: after
      /\ (forall kk, In kk before ->
                     _are_certainly_disjoint_filters (fst kk) (snd kk) = true)
      /\ only_in head tail k1 /\ only_in tail head k2
      /\ _are_certainly_disjoint_filters k1 k2 = false
      /\ (exists e,
             merge_vectorized_axes head tail = Raise e
             /\ (e = OverlappingFilters k1 k2
                 \/ exists k error,
                      k <> FEllipsis
                      /\ merged_value head tail k
                         = Some (Raise (CoordaxError error))
                      /\ e = CoordaxError error))
      /\ ((forall k r, k <> FEllipsis -> merged_value head tail k = Some r ->
                       raised r = false) ->
          merge_vectorized_axes head tail
          = Raise (OverlappingFilters k1 k2))).
  { clear head tail. intros head tail Hex.
    destruct (first_unresolved Hset head tail Hex)
      as (k1 & k2 & before & after & Hfind & Hp & Hb & H1 & H2 & Hd).
    exists k1, k2, before, after.
    do 5 (split; [assumption|]).
    destruct (merge_outcome Hset head tail)
      as [(k & e & Hk & Hv & He)|[Hret Ho]].
    - destruct (merged_value_raises _ _ _ _ Hv) as (error & ->). split.
      + exists (CoordaxError error). split; [exact He|]. right.
        exists k, error. auto.
      + intros Hall. specialize (Hall k _ Hk Hv). discriminate.
    - rewrite Hfind in Ho. cbn [fst snd] in Ho. split.
      + exists (OverlappingFilters k1 k2). auto.
      + intros _. exact Ho. }
  split; [apply Hfirst|]. split.
  - intros Hall. pose proof (all_resolved Hset head tail Hall) as Hfind.
    destruct (merge_outcome Hset head tail)
      as [(k & e & Hk & Hv & He)|[Hret Ho]].
    + destruct (merged_value_raises _ _ _ _ Hv) as (error & ->). split.
      * intros k1 k2. rewrite He. discriminate.
      * intros Hr. specialize (Hr k _ Hv). discriminate.
    + rewrite Hfind in Ho.
      destruct (cx_compose_coordinates _) as [combined|e] eqn:Hc in Ho.
      * destruct Ho as (merged & Hm & _). split.
        -- intros k1 k2. rewrite Hm. discriminate.
        -- intros _. exists merged. exact Hm.
      * destruct (cx_compose_coordinates_raises _ _ Hc) as (error & ->).
        split; [intros k1 k2; rewrite Ho; discriminate|].
        intros Hr. exfalso.
        unfold dict_get_default in Hc.
        pose proof (Hr FEllipsis) as Hw. unfold merged_value in Hw.
        unfold dict_get_default in Hw.
        destruct (dict_get head FEllipsis), (dict_get tail FEllipsis);
          try (specialize (Hw _ eq_refl); rewrite Hc in Hw; discriminate).
        vm_compute in Hc. discriminate.
  - intros c1 c2 t Hc1 Hc2. split; [reflexivity|].
    destruct (Hfirst [(FPredicate (Not Everything), c1)] [(FType t, c2)])
      as (k1 & k2 & before & after & _ & _ & H1 & H2 & _ & _ & Hm).
    + exists (FPredicate (Not Everything)), (FType t).
      unfold only_in, dict_contains. simpl. rewrite String.eqb_refl.
      repeat split; discriminate || reflexivity.
    + assert (E1 : k1 = FPredicate (Not Everything)).
      { destruct H1 as (_ & H1 & _). unfold dict_contains in H1.
        cbn [dict_get] in H1.
        destruct (filter_eqb (FPredicate (Not Everything)) k1) eqn:E;
          [|discriminate].
        apply filter_eqb_eq in E. congruence. }
      assert (E2 : k2 = FType t).
      { destruct H2 as (_ & H2 & _). unfold dict_contains in H2.
        cbn [dict_get] in H2.
        destruct (filter_eqb (FType t) k2) eqn:E; [|discriminate].
        apply filter_eqb_eq in E. congruence. }
      subst k1 k2. apply Hm. intros k r Hk.
      unfold merged_value, dict_get_default. cbn [dict_get].
      assert (Hr1 : raised (cx_compose_coordinates [c1; Scalar]) = false).
      { unfold cx_compose_coordinates.
        destruct (compose_coordinates [c1; Scalar]) eqn:E; [reflexivity|].
        apply (f_equal raised) in E. simpl in E.
        apply not_false_iff_true in E. exfalso. apply E.
        apply compose_coordinates_raised. simpl. rewrite !app_nil_r.
        exact Hc1. }
      assert (Hr2 : raised (cx_compose_coordinates [Scalar; c2]) = false).
      { unfold cx_compose_coordinates.
        destruct (compose_coordinates [Scalar; c2]) eqn:E; [reflexivity|].
        apply (f_equal raised) in E. simpl in E.
        apply not_false_iff_true in E. exfalso. apply E.
        apply compose_coordinates_raised. simpl. rewrite !app_nil_r.
        exact Hc2. }
      destruct (filter_eqb (FPredicate (Not Everything)) k) eqn:Ea,
               (filter_eqb (FType t) k) eqn:Eb.
      * apply filter_eqb_eq in Ea, Eb. congruence.
      * intros [= <-]. exact Hr1.
      * intros [= <-]. exact Hr2.
      * discriminate.
Qed.

Lemma merge_vectorized_axes_overlap_witness :
  let env := class_table_env diamond in
  let batch := SizedAxis "batch" 2 in
  let x := SizedAxis "x" 3 in
  merge_vectorized_axes [(FType "Param", batch)] [(FType "CachedParam", x)]
  = Raise (OverlappingFilters (FType "Param") (FType "CachedParam")).
Proof.
  intros env batch x.
  destruct (proj1 (merge_vectorized_axes_overlap (env := env)
                     [(FType "Param", batch)] [(FType "CachedParam", x)]
                     (class_table_env_set_iter_ok diamond)))
    as (k1 & k2 & before & after & _ & _ & _ & _ & _ & (e & Hm & _) & _).
  - exists (FType "Param"), (FType "CachedParam").
    unfold only_in. repeat split; discriminate || reflexivity.
  - rewrite Hm. vm_compute in Hm. injection Hm as <-. reflexivity.
Defined.

(** C5, as stated, fails: the compositions are made before the pairs are
    checked.  With a key of both mappings whose two coordinates have a
    dimension name in common, the call raises the error of that
    composition although a head-only key and a tail-only key are not
    certainly disjoint, and no pair is named. *)
Lemma merge_vectorized_axes_overlap_unnamed :
  let env := class_table_env diamond in
  let batch := SizedAxis "batch" 2 in
  let x := SizedAxis "x" 3 in
  let y := SizedAxis "y" 5 in
  let head := [(FStr "shared", batch); (FType "Param", x)] in
  let tail := [(FStr "shared", batch); (FType "CachedParam", y)] in
  only_in head tail (FType "Param")
  /\ only_in tail head (FType "CachedParam")
  /\ _are_certainly_disjoint_filters (FType "Param") (FType "CachedParam")
     = false
  /\ merge_vectorized_axes head tail
     = Raise (CoordaxError
                (ValueError
                   "CartesianProduct components contain repeated_dims=['batch']"))
  /\ forall k1 k2,
       merge_vectorized_axes head tail <> Raise (OverlappingFilters k1 k2).
Proof.
  intros env batch x y head tail.
  assert (Hm : merge_vectorized_axes head tail
               = Raise (CoordaxError
                          (ValueError
                             "CartesianProduct components contain repeated_dims=['batch']")))
    by (vm_compute; reflexivity).
  split; [unfold only_in; repeat split; discriminate || reflexivity|].
  split; [unfold only_in; repeat split; discriminate || reflexivity|].
  split; [reflexivity|]. split; [exact Hm|].
  intros k1 k2. rewrite Hm. discriminate.
Qed.

(** **** _is_certainly_subset_predicate, is_filter_subset *)

Section Subset.
Context {env : PyEnv}.

Lemma subset_fuel_stable (n : nat) :
  forall m p1 p2,
    predicate_size p1 + predicate_size p2 <= n ->
    predicate_size p1 + predicate_size p2 <= m ->
    subset_predicate_fuel n p1 p2 = subset_predicate_fuel m p1 p2.
Proof.
  induction n as [|n IH]; intros m p1 p2 Hn Hm.
  { pose proof (predicate_size_pos p1). lia. }
  destruct m as [|m]; [pose proof (predicate_size_pos p1); lia|].
  cbn [subset_predicate_fuel].
  destruct (is_Everything p2); [reflexivity|].
  destruct (is_Nothing p1); [reflexivity|].
  destruct (predicate_eqb p1 p2); [reflexivity|].
  destruct (match p1, p2 with
            | OfType t1, OfType t2 => issubclass t1 t2
            | _, _ => false
            end); [reflexivity|].
  pose proof (predicate_size_pos p1) as P1.
  pose proof (predicate_size_pos p2) as P2.
  destruct p1 as [| |q1|ps|ps|t1|t1|k1|i1], p2 as [| |q2|qs|qs|t2|t2|k2|i2];
    try reflexivity;
    try (apply forallb_ext_in; intros sub Hin;
         pose proof (predicate_size_In sub _ Hin); simpl in Hn, Hm;
         apply IH; simpl; lia);
    try (apply existsb_ext_in; intros sub Hin;
         pose proof (predicate_size_In sub _ Hin); simpl in Hn, Hm;
         apply IH; simpl; lia).
  simpl in Hn, Hm. apply IH; lia.
Qed.

Lemma subset_predicate_fuel_sound (Htrans : issubclass_transitive env)
  (n : nat) :
  forall p1 p2,
    subset_predicate_fuel n p1 p2 = true ->
    forall path x, holds p1 path x = true -> holds p2 path x = true.
Proof.
  induction n as [|n IH]; intros p1 p2 Hs path x H1; [discriminate|].
  cbn [subset_predicate_fuel] in Hs.
  destruct (is_Everything p2) eqn:E2.
  { destruct p2; try discriminate. reflexivity. }
  destruct (is_Nothing p1) eqn:E1.
  { destruct p1; discriminate. }
  destruct (predicate_eqb p1 p2) eqn:Eq.
  { apply predicate_eqb_eq in Eq. subst. exact H1. }
  destruct (match p1, p2 with
            | OfType t1, OfType t2 => issubclass t1 t2
            | _, _ => false
            end) eqn:Et.
  { destruct p1, p2; try discriminate. simpl in *. eapply Htrans; eauto. }
  clear E2 E1 Eq Et.
  assert (Hany : forall p qs,
             existsb (fun sub_p => subset_predicate_fuel n p sub_p) qs = true ->
             holds p path x = true ->
             holds (Any qs) path x = true).
  { intros p qs He Hp. apply existsb_exists in He as (q & Hin & Hq).
    cbn [holds]. apply existsb_exists. exists q. split; [exact Hin|].
    eapply IH; eassumption. }
  assert (Hall : forall p qs,
             forallb (fun sub_p => subset_predicate_fuel n p sub_p) qs = true ->
             holds p path x = true ->
             holds (All qs) path x = true).
  { intros p qs Hf Hp. rewrite forallb_forall in Hf.
    cbn [holds]. apply forallb_forall. intros q Hin.
    eapply IH; [apply Hf, Hin|exact Hp]. }
  destruct p1 as [| |q1|ps|ps|t1|t1|k1|i1].
  - discriminate H1.
  - destruct p2; try discriminate; eauto.
  - destruct p2 as [| |q2|qs|qs|t2|t2|k2|i2]; try discriminate; eauto.
    cbn [holds] in H1 |- *.
    destruct (holds q2 path x) eqn:E; [|reflexivity].
    rewrite (IH _ _ Hs path x E) in H1. discriminate H1.
  - cbn [holds] in H1. apply existsb_exists in H1 as (sub & Hin & Hsub).
    rewrite forallb_forall in Hs. eapply IH; [apply Hs, Hin|exact Hsub].
  - destruct p2 as [| |q2|qs|qs|t2|t2|k2|i2]; eauto;
      cbn [holds] in H1; rewrite forallb_forall in H1;
      apply existsb_exists in Hs as (sub & Hin & Hsub);
      (eapply IH; [exact Hsub|apply H1, Hin]).
  - destruct p2; try discriminate; eauto.
  - destruct p2; try discriminate; eauto.
  - destruct p2; try discriminate; eauto.
  - destruct p2; try discriminate; eauto.
Qed.

(** The recursion of the source, without the fuel. *)
Lemma subset_predicate_unfold (p1 p2 : Predicate) :
  _is_certainly_subset_predicate p1 p2
  = if is_Everything p2 then true
    else if is_Nothing p1 then true
    else if predicate_eqb p1 p2 then true
    else if match p1, p2 with
            | OfType t1, OfType t2 => issubclass t1 t2
            | _, _ => false
            end then true
    else
      match p1, p2 with
      | Any ps, _ =>
          forallb (fun sub_p => _is_certainly_subset_predicate sub_p p2) ps
      | _, Any qs =>
          existsb (fun sub_p => _is_certainly_subset_predicate p1 sub_p) qs
      | All ps, _ =>
          existsb (fun sub_p => _is_certainly_subset_predicate sub_p p2) ps
      | _, All qs =>
          forallb (fun sub_p => _is_certainly_subset_predicate p1 sub_p) qs
      | Not q1, Not q2 => _is_certainly_subset_predicate q2 q1
      | _, _ => false
      end.
Proof.
  unfold _is_certainly_subset_predicate.
  pose proof (predicate_size_pos p1) as P1.
  pose proof (predicate_size_pos p2) as P2.
  destruct (predicate_size p1 + predicate_size p2) as [|n] eqn:E; [lia|].
  cbn [subset_predicate_fuel].
  destruct (is_Everything p2); [reflexivity|].
  destruct (is_Nothing p1); [reflexivity|].
  destruct (predicate_eqb p1 p2); [reflexivity|].
  destruct (match p1, p2 with
            | OfType t1, OfType t2 => issubclass t1 t2
            | _, _ => false
            end); [reflexivity|].
  destruct p1 as [| |q1|ps|ps|t1|t1|k1|i1], p2 as [| |q2|qs|qs|t2|t2|k2|i2];
    try reflexivity;
    try (apply forallb_ext_in; intros sub Hin;
         pose proof (predicate_size_In sub _ Hin); simpl in E;
         apply subset_fuel_stable; simpl; lia);
    try (apply existsb_ext_in; intros sub Hin;
         pose proof (predicate_size_In sub _ Hin); simpl in E;
         apply subset_fuel_stable; simpl; lia).
  simpl in E. apply subset_fuel_stable; simpl; lia.
Qed.

Lemma subset_predicate_reflexive (p : Predicate) :
  _is_certainly_subset_predicate p p = true.
Proof.
  rewrite subset_predicate_unfold.
  destruct (is_Everything p); [reflexivity|].
  destruct (is_Nothing p); [reflexivity|].
  assert (E : predicate_eqb p p = true) by (apply predicate_eqb_eq; reflexivity).
  rewrite E. reflexivity.
Qed.

Lemma subset_predicate_top (p1 p2 : Predicate) :
  is_Everything p2 = true -> _is_certainly_subset_predicate p1 p2 = true.
Proof. intros H. rewrite subset_predicate_unfold, H. reflexivity. Qed.

Lemma subset_predicate_bottom (p1 p2 : Predicate) :
  is_Nothing p1 = true -> _is_certainly_subset_predicate p1 p2 = true.
Proof.
  intros H. rewrite subset_predicate_unfold, H.
  destruct (is_Everything p2); reflexivity.
Qed.

(** A predicate that is certainly a subset of a member of [Any] is
    certainly a subset of the [Any]. *)
Lemma subset_predicate_member (r : Predicate) :
  forall q ps,
    In q ps ->
    _is_certainly_subset_predicate r q = true ->
    _is_certainly_subset_predicate r (Any ps) = true.
Proof.
  induction r as [| |r' IH|ts IH|ts IH|t|t|k|i] using Predicate_induction;
    intros q ps Hin Hq; rewrite subset_predicate_unfold;
    cbn [is_Everything is_Nothing]; try reflexivity;
    try (match goal with
         | |- (if predicate_eqb ?a ?b then _ else _) = _ =>
             destruct (predicate_eqb a b); [reflexivity|]
         end; apply existsb_exists; exists q; split; assumption).
  destruct (predicate_eqb (Any ts) (Any ps)); [reflexivity|].
  apply forallb_forall. intros t Ht.
  rewrite List.Forall_forall in IH.
  rewrite subset_predicate_unfold in Hq.
  destruct (is_Everything q) eqn:Eq.
  { apply (IH t Ht q ps Hin). apply subset_predicate_top. exact Eq. }
  cbn [is_Nothing] in Hq.
  destruct (predicate_eqb (Any ts) q) eqn:Ee.
  { apply predicate_eqb_eq in Ee. subst q.
    apply (IH t Ht (Any ts) ps Hin).
    apply (IH t Ht t ts Ht). apply subset_predicate_reflexive. }
  rewrite forallb_forall in Hq. apply (IH t Ht q ps Hin). apply Hq, Ht.
Qed.

End Subset.

(** A hierarchy with single inheritance. *)

Ltac string_cases :=
  repeat match goal with
         | H : context [String.eqb ?s ?t] |- _ =>
             destruct (String.eqb_spec s t); subst;
             cbn [existsb orb bases_of issubclass_in] in H
         | |- context [String.eqb ?s ?t] =>
             destruct (String.eqb_spec s t); subst;
             cbn [existsb orb bases_of issubclass_in]
         end.

Lemma lineage_issubclass (c t : cls) :
  issubclass (PyEnv := class_table_env lineage) c t = true <->
  c = t
  \/ (c = "Param" /\ t = "Variable")
  \/ (c = "LoRAParam" /\ (t = "Param" \/ t = "Variable")).
Proof.
  cbn [issubclass class_table_env lineage length issubclass_in bases_of].
  split.
  - intros H. string_cases; try discriminate; auto 6.
  - intros [->|[[-> ->]|[-> [->| ->]]]]; string_cases;
      reflexivity || congruence.
Qed.

Lemma lineage_single_inheritance : single_inheritance (class_table_env lineage).
Proof.
  intros c a b Ha Hb. apply lineage_issubclass in Ha, Hb.
  rewrite !lineage_issubclass.
  destruct Ha as [Ha|[[Hc Ha]|[Hc [Ha|Ha]]]],
           Hb as [Hb|[[Hc' Hb]|[Hc' [Hb|Hb]]]];
    subst; try congruence; auto 8.
Qed.

Lemma lineage_transitive : issubclass_transitive (class_table_env lineage).
Proof.
  intros a b c Ha Hb. apply lineage_issubclass in Ha, Hb.
  rewrite lineage_issubclass.
  destruct Ha as [Ha|[[Hc Ha]|[Hc [Ha|Ha]]]],
           Hb as [Hb|[[Hc' Hb]|[Hc' [Hb|Hb]]]];
    subst; try congruence; auto 8.
Qed.

(** X1.  With single inheritance the disjointness check keeps its
    promise: two filters it reports as certainly disjoint never match the
    same variable. *)
Theorem certainly_disjoint_filters_sound {env : PyEnv}
  (filter_a filter_b : Filter) :
  single_inheritance env ->
  _are_certainly_disjoint_filters filter_a filter_b = true ->
  forall path x, matches filter_a path x = true ->
                 matches filter_b path x = false.
Proof.
  intros Hsingle Hd path x Ha. apply not_true_is_false. intros Hb.
  apply (disjoint_filters_sound Hsingle filter_a filter_b Hd path x).
  split; assumption.
Qed.

Lemma certainly_disjoint_filters_sound_witness :
  let env := class_table_env lineage in
  let x := {| var_type := "LoRAParam"; var_tag := Some "frozen";
              var_value := ArrayLeaf [] [0%Z] |} in
  matches (FSeq [FType "Cache"; FStr "diagnostic"; FNone]) ["w"] x = false.
Proof.
  intros env x.
  apply (certainly_disjoint_filters_sound (env := env)
           (FPredicate (All [OfType "Param"; WithTag "frozen"]))
           (FSeq [FType "Cache"; FStr "diagnostic"; FNone])
           lineage_single_inheritance); reflexivity.
Defined.

(** X2.  [is_filter_subset] is sound when the subclass relation is
    transitive: if it answers that [f] is a subset of [filter_group], every
    variable that [f] matches is matched by [filter_group]. *)
Theorem is_filter_subset_sound {env : PyEnv} (f filter_group : Filter) :
  issubclass_transitive env ->
  is_filter_subset f filter_group = true ->
  forall path x, matches f path x = true -> matches filter_group path x = true.
Proof.
  intros Htrans Hs path x. unfold matches.
  apply (subset_predicate_fuel_sound Htrans _ _ _ Hs).
Qed.

Lemma is_filter_subset_sound_witness :
  let env := class_table_env lineage in
  let x := {| var_type := "LoRAParam"; var_tag := None;
              var_value := ArrayLeaf [] [0%Z] |} in
  matches (FSeq [FStr "diagnostic"; FType "Variable"]) ["w"] x = true.
Proof.
  intros env x.
  apply (is_filter_subset_sound (env := env) (FType "Param")
           (FSeq [FStr "diagnostic"; FType "Variable"])
           lineage_transitive); reflexivity.
Defined.

(** X3.  Every filter is certainly a subset of itself and of the filters
    that match everything ([...], [True]); the filters that match nothing
    ([None], [False], the empty tuple) are certainly subsets of every
    filter. *)
Theorem is_filter_subset_bounds {env : PyEnv} (f : Filter) :
  is_filter_subset f f = true
  /\ is_filter_subset f FEllipsis = true
  /\ is_filter_subset f (FBool true) = true
  /\ is_filter_subset FNone f = true
  /\ is_filter_subset (FBool false) f = true
  /\ is_filter_subset (FSeq []) f = true.
Proof.
  unfold is_filter_subset. cbv zeta. repeat split;
    try (apply subset_predicate_top; reflexivity);
    try (apply subset_predicate_bottom; reflexivity).
  - apply subset_predicate_reflexive.
  - rewrite subset_predicate_unfold. cbn [to_predicate map is_Nothing forallb].
    destruct (is_Everything (to_predicate f)); [reflexivity|].
    destruct (predicate_eqb (Any []) (to_predicate f)); reflexivity.
Qed.

(** X4.  A tuple of filters is certainly a subset of a filter exactly when
    each of its elements is. *)
Theorem is_filter_subset_tuple {env : PyEnv} (fs : list Filter)
  (filter_group : Filter) :
  is_filter_subset (FSeq fs) filter_group = true
  <-> forall f, In f fs -> is_filter_subset f filter_group = true.
Proof.
  unfold is_filter_subset. cbv zeta. cbn [to_predicate].
  set (p2 := to_predicate filter_group).
  rewrite subset_predicate_unfold. cbn [is_Nothing].
  split.
  - intros H f Hf.
    assert (Hin : In (to_predicate f) (map to_predicate fs))
      by (apply in_map; exact Hf).
    destruct (is_Everything p2) eqn:E2; [apply subset_predicate_top, E2|].
    destruct (predicate_eqb (Any (map to_predicate fs)) p2) eqn:Ee.
    + apply predicate_eqb_eq in Ee. rewrite <- Ee.
      apply (subset_predicate_member _ (to_predicate f) _ Hin).
      apply subset_predicate_reflexive.
    + rewrite forallb_forall in H. apply H, Hin.
  - intros H.
    destruct (is_Everything p2); [reflexivity|].
    destruct (predicate_eqb (Any (map to_predicate fs)) p2); [reflexivity|].
    apply forallb_forall. intros p Hp. apply in_map_iff in Hp.
    destruct Hp as (f & <- & Hf). apply H, Hf.
Qed.

(** **** The variables the loops leave as they were *)

Section Frame.
Context {env : PyEnv}.

Lemma map_leaves_Return (f : Leaf -> Result Exn Leaf)
  (l r : list (Path * StateVar)) :
  map_leaves f l = Return r ->
  map fst r = map fst l
  /\ forall p x', In (p, x') r <->
       exists x, In (p, x) l /\ f (var_value x) = Return (var_value x')
                 /\ x' = with_value x (var_value x').
Proof.
  revert r. induction l as [|[p0 x0] l IH]; simpl; intros r H.
  - injection H as <-. split; [reflexivity|]. intros p x'. split; [intros []|].
    intros (x & [] & _).
  - destruct (f (var_value x0)) as [y|e] eqn:Hf; [|discriminate].
    destruct (map_leaves f l) as [r'|e]; [|discriminate].
    injection H as <-. destruct (IH r' eq_refl) as [Hk Hr].
    split; [simpl; f_equal; exact Hk|].
    intros p x'. simpl. rewrite Hr. split.
    + intros [[= <- <-]|(x & Hin & Hx)].
      * exists x0. split; [left; reflexivity|]. split; [exact Hf|reflexivity].
      * exists x. split; [right; exact Hin|exact Hx].
    + intros (x & [[= <- <-]|Hin] & Hx & Hx').
      * left. rewrite Hf in Hx. injection Hx as ->. rewrite Hx'. reflexivity.
      * right. exists x. split; [exact Hin|]. split; assumption.
Qed.

Lemma tree_map_lookup (f : Leaf -> Result Exn Leaf)
  (state state' : ModuleState) :
  tree_map f state = Return state' ->
  forall p,
    match state !! p with
    | Some x => exists y, f (var_value x) = Return y
                          /\ state' !! p = Some (with_value x y)
    | None => state' !! p = None
    end.
Proof.
  unfold tree_map. intros H p.
  destruct (map_leaves f (map_to_list state)) as [r|e] eqn:Hr; [|discriminate].
  injection H as <-. destruct (map_leaves_Return _ _ _ Hr) as [Hk Hin].
  assert (Hnd : NoDup (r.*1)).
  { change (r.*1) with (map fst r). rewrite Hk. apply NoDup_fst_map_to_list. }
  destruct (state !! p) as [x|] eqn:Hp.
  - apply elem_of_map_to_list, list_elem_of_In in Hp.
    destruct (f (var_value x)) as [y|e] eqn:Hf.
    + exists y. split; [reflexivity|].
      apply elem_of_list_to_map; [exact Hnd|].
      apply list_elem_of_In, Hin. exists x. split; [exact Hp|].
      split; [exact Hf|reflexivity].
    + exfalso. clear -Hr Hp Hf.
      revert r Hr. induction (map_to_list state) as [|[p0 x0] l IH];
        [destruct Hp|]. simpl. intros r Hr.
      destruct Hp as [[= -> ->]|Hp].
      * rewrite Hf in Hr. discriminate.
      * destruct (f (var_value x0)); [|discriminate].
        destruct (map_leaves f l) as [r'|]; [|discriminate].
        apply (IH Hp r' eq_refl).
  - apply not_elem_of_list_to_map.
    change (r.*1) with (map fst r). rewrite Hk.
    intros Hel. apply list_elem_of_In, in_map_iff in Hel.
    destruct Hel as ([p' x] & <- & Hel).
    apply list_elem_of_In, elem_of_map_to_list in Hel. simpl in Hp.
    assert (E : @None StateVar = Some x) by (rewrite <- Hp; exact Hel).
    discriminate E.
Qed.

Lemma tree_map_lookup_Some (f : Leaf -> Result Exn Leaf)
  (state state' : ModuleState) (p : list string) (x : StateVar) :
  tree_map f state = Return state' ->
  state !! p = Some x ->
  exists y, f (var_value x) = Return y /\ state' !! p = Some (with_value x y).
Proof.
  intros H Hp. pose proof (tree_map_lookup _ _ _ H p) as Hl.
  destruct (state !! p) as [x'|]; [|discriminate Hp].
  injection Hp as ->. exact Hl.
Qed.

Lemma tree_map_lookup_None (f : Leaf -> Result Exn Leaf)
  (state state' : ModuleState) (p : list string) :
  tree_map f state = Return state' ->
  state !! p = None ->
  state' !! p = None.
Proof.
  intros H Hp. pose proof (tree_map_lookup _ _ _ H p) as Hl.
  destruct (state !! p) as [x'|]; [discriminate Hp|exact Hl].
Qed.

(** One pass of the loops: the variables the filter selects are replaced
    by their images, every other path is as it was. *)
Lemma update_selected (f : Leaf -> Result Exn Leaf)
  (module new_state : ModuleState) (k : Filter) :
  tree_map f (nnx_state module k) = Return new_state ->
  forall p : list string,
    match module !! p with
    | Some x =>
        if matches k p x
        then exists y, f (var_value x) = Return y
                       /\ nnx_update module new_state !! p
                          = Some (with_value x y)
        else nnx_update module new_state !! p = Some x
    | None => nnx_update module new_state !! p = None
    end.
Proof.
  intros H p. unfold nnx_update.
  destruct (module !! p) as [x|] eqn:Hm.
  - destruct (matches k p x) eqn:Hk.
    + destruct (tree_map_lookup_Some _ _ _ p x H) as (y & Hy & Hn).
      { apply map_lookup_filter_Some. split; [exact Hm|exact Hk]. }
      exists y. split; [exact Hy|]. apply lookup_union_Some_l. exact Hn.
    + rewrite lookup_union_r; [exact Hm|].
      apply (tree_map_lookup_None _ _ _ p H).
      apply map_lookup_filter_None. right. intros x' Hx'. simpl.
      rewrite Hm in Hx'. injection Hx' as <-. rewrite Hk. discriminate.
  - rewrite lookup_union_r; [exact Hm|].
    apply (tree_map_lookup_None _ _ _ p H).
    apply map_lookup_filter_None. left. exact Hm.
Qed.


Lemma updated_within_refl (selecting : list Filter) (module : ModuleState) :
  updated_within selecting module module.
Proof.
  intros p. destruct (module !! p) as [x|]; [|reflexivity].
  exists x. repeat split.
Qed.

(** A pass for the filter [k] followed by updates within [rest]. *)
Lemma updated_within_step (f : Leaf -> Result Exn Leaf)
  (module new_state module' : ModuleState) (k : Filter)
  (rest : list Filter) :
  tree_map f (nnx_state module k) = Return new_state ->
  updated_within rest (nnx_update module new_state) module' ->
  updated_within (k :: rest) module module'.
Proof.
  intros Hmap Hrest p.
  pose proof (update_selected f module new_state k Hmap p) as Hp.
  specialize (Hrest p).
  destruct (module !! p) as [x|].
  - destruct (matches k p x) eqn:Hk.
    + destruct Hp as (y & _ & Hp). rewrite Hp in Hrest.
      destruct Hrest as (x' & Hx' & Ht & Hg & _).
      exists x'. split; [exact Hx'|]. split; [exact Ht|]. split; [exact Hg|].
      cbn [forallb]. rewrite Hk. discriminate.
    + rewrite Hp in Hrest. destruct Hrest as (x' & Hx' & Ht & Hg & Hsame).
      exists x'. split; [exact Hx'|]. split; [exact Ht|]. split; [exact Hg|].
      cbn [forallb]. rewrite Hk. exact Hsame.
  - rewrite Hp in Hrest. exact Hrest.
Qed.

Lemma updated_within_skip (module module' : ModuleState) (k : Filter)
  (rest : list Filter) :
  updated_within rest module module' ->
  updated_within (k :: rest) module module'.
Proof.
  intros H p. specialize (H p). destruct (module !! p) as [x|]; [|exact H].
  destruct H as (x' & Hx' & Ht & Hg & Hsame).
  exists x'. split; [exact Hx'|]. split; [exact Ht|]. split; [exact Hg|].
  cbn [forallb]. intros Hall. apply andb_true_iff in Hall.
  apply Hsame, Hall.
Qed.

Lemma vectorize_module_updated_within
  (specs : list (Filter * Coordinate)) :
  forall module,
    updated_within (map fst specs) module (fst (vectorize_module module specs)).
Proof.
  induction specs as [|[k coord] rest IH]; intros module; cbn [vectorize_module].
  - apply updated_within_refl.
  - destruct (tree_map (broadcast coord) (nnx_state module k))
      as [k_state|e] eqn:Hmap.
    + apply (updated_within_step _ _ _ _ _ _ Hmap), IH.
    + apply updated_within_refl.
Qed.

(** The leaves that are not fields are never replaced, and a field stays a
    field. *)
Lemma vectorize_module_leaves (specs : list (Filter * Coordinate)) :
  forall (module : ModuleState) (p : list string) (x : StateVar),
    module !! p = Some x ->
    exists x',
      fst (vectorize_module module specs) !! p = Some x'
      /\ is_field (var_value x') = is_field (var_value x)
      /\ (is_field (var_value x) = false -> x' = x).
Proof.
  induction specs as [|[k coord] rest IH]; intros module p x Hx;
    cbn [vectorize_module].
  - exists x. repeat split. exact Hx.
  - destruct (tree_map (broadcast coord) (nnx_state module k))
      as [k_state|e] eqn:Hmap; [|exists x; repeat split; exact Hx].
    pose proof (update_selected _ module k_state k Hmap p) as Hp.
    rewrite Hx in Hp. destruct (matches k p x) eqn:Hk.
    + destruct Hp as (y & Hy & Hp).
      destruct (var_value x) as [fld|shp buf] eqn:Hv; [|discriminate Hy].
      unfold broadcast in Hy.
      destruct (cx_compose_coordinates _) as [c|e]; [|discriminate Hy].
      injection Hy as <-.
      destruct (IH _ p _ Hp) as (x' & Hx' & Hf & _).
      exists x'. split; [exact Hx'|]. split; [exact Hf|discriminate].
    + exact (IH _ p x Hp).
Qed.

Lemma apply_to_state_updated_within
  (op : Coordinate -> Leaf -> Result Exn Leaf) (coordinate : Coordinate)
  (vectorized_axes : list (Filter * Coordinate)) :
  forall module,
    updated_within (map fst (applicable coordinate vectorized_axes)) module
      (fst (apply_to_state op module (axes coordinate) vectorized_axes)).
Proof.
  induction vectorized_axes as [|[k coord] rest IH]; intros module;
    cbn [apply_to_state applicable List.filter snd].
  - apply updated_within_refl.
  - fold (applicable coordinate rest).
    destruct (List.filter (fun ax => axis_in ax (axes coord)) (axes coordinate))
      as [|c0 cs] eqn:Hc.
    + replace (existsb _ (axes coordinate)) with false; [apply IH|].
      symmetry. apply not_true_is_false. intros He.
      apply existsb_exists in He. destruct He as (ax & Hin & Hax).
      assert (Hf : In ax []) by (rewrite <- Hc; apply filter_In; auto).
      destruct Hf.
    + replace (existsb _ (axes coordinate)) with true.
      * cbn [map fst].
        destruct (cx_compose_coordinates (c0 :: cs)) as [axis|e];
          [|apply updated_within_refl].
        destruct (tree_map _ (nnx_state module k)) as [new_state|e] eqn:Hmap.
        -- apply (updated_within_step _ _ _ _ _ _ Hmap), IH.
        -- apply updated_within_refl.
      * symmetry. apply existsb_exists. exists c0.
        assert (Hf : In c0 (c0 :: cs)) by (left; reflexivity).
        rewrite <- Hc in Hf. apply filter_In in Hf. exact Hf.
Qed.

Lemma module_state_op_updated_within (caller : string)
  (op : Coordinate -> Leaf -> Result Exn Leaf) (module : ModuleState)
  (coordinate : Coordinate) (vectorized_axes : list (Filter * Coordinate)) :
  updated_within (map fst (applicable coordinate vectorized_axes)) module
    (fst (module_state_op caller op module coordinate vectorized_axes)).
Proof.
  unfold module_state_op.
  destruct (reduce_or _) as [s|e]; [|apply updated_within_refl].
  destruct (existsb _ (axes coordinate)); [apply updated_within_refl|].
  apply apply_to_state_updated_within.
Qed.

Lemma apply_to_state_no_axes (op : Coordinate -> Leaf -> Result Exn Leaf)
  (vectorized_axes : list (Filter * Coordinate)) (module : ModuleState) :
  apply_to_state op module [] vectorized_axes = (module, Return tt).
Proof.
  induction vectorized_axes as [|[k coord] rest IH]; [reflexivity|exact IH].
Qed.

Lemma module_state_op_no_axes (caller : string)
  (op : Coordinate -> Leaf -> Result Exn Leaf) (module : ModuleState)
  (coordinate : Coordinate) (vectorized_axes : list (Filter * Coordinate)) :
  vectorized_axes <> [] ->
  axes coordinate = [] ->
  module_state_op caller op module coordinate vectorized_axes
  = (module, Return tt).
Proof.
  intros Hne Hax. unfold module_state_op, reduce_or. rewrite Hax.
  destruct vectorized_axes as [|kv rest]; [congruence|].
  cbn [map existsb]. apply apply_to_state_no_axes.
Qed.

End Frame.

(** X5.  [vectorize_module] keeps the paths of the module and the type and
    tag of every variable, whether it returns or raises; a variable that no
    filter of the spec matches is left as it was, a field stays a field,
    and a leaf that is not a field is never replaced. *)
Theorem vectorize_module_frame {env : PyEnv} (module : ModuleState)
  (vectorization_specs : list (Filter * Coordinate)) :
  let module' := fst (vectorize_module module vectorization_specs) in
  updated_within (map fst vectorization_specs) module module'
  /\ forall (p : list string) (x : StateVar),
      module !! p = Some x ->
      exists x',
        module' !! p = Some x'
        /\ is_field (var_value x') = is_field (var_value x)
        /\ (is_field (var_value x) = false -> x' = x).
Proof.
  split; [apply vectorize_module_updated_within|].
  apply vectorize_module_leaves.
Qed.

(** X6.  On a module whose variables all hold fields [vectorize_module]
    does not raise the error for a leaf that is not a field: when it
    raises, some entry of the spec selects a field of the module, as the
    call leaves it, whose coordinate and the coordinate of the entry have a
    dimension name in common, and the error is that of their
    composition. *)
Theorem vectorize_module_of_fields {env : PyEnv} (module : ModuleState)
  (vectorization_specs : list (Filter * Coordinate)) (e : Exn) :
  (forall (p : list string) x,
      module !! p = Some x -> is_field (var_value x) = true) ->
  snd (vectorize_module module vectorization_specs) = Raise e ->
  exists k coord (p : list string) x f error,
    In (k, coord) vectorization_specs
    /\ fst (vectorize_module module vectorization_specs) !! p = Some x
    /\ matches k p x = true
    /\ var_value x = FieldLeaf f
    /\ compose_coordinates [coord; coordinate f] = Raise error
    /\ e = CoordaxError error.
Proof.
  intros Hall He.
  destruct (vectorize_module module vectorization_specs) as [module' r] eqn:Hv.
  cbn [snd fst] in *. subst r.
  pose proof (vectorize_module_updated_within vectorization_specs module) as Hu.
  pose proof (vectorize_module_leaves vectorization_specs module) as Hl.
  rewrite Hv in Hu, Hl. cbn [fst] in Hu, Hl.
  destruct (vectorize_module_raises _ _ _ _ Hv)
    as (applied & k & coord & rest & -> & _ & (p & x & Hx & _ & Hb) & _).
  apply map_lookup_filter_Some in Hx. destruct Hx as [Hx Hk]. simpl in Hk.
  destruct Hb as [[Hf _]|(f & error & Hf & Hc & ->)].
  - exfalso. specialize (Hu p). specialize (Hl p).
    destruct (module !! p) as [x0|] eqn:Hx0.
    + destruct (Hl x0 eq_refl) as (x' & Hx' & Hf' & _).
      rewrite Hx in Hx'. injection Hx' as <-.
      rewrite (Hall p x0 Hx0) in Hf'. congruence.
    + unfold Path in *. congruence.
  - exists k, coord, p, x, f, error.
    split; [apply in_or_app; right; left; reflexivity|]. auto.
Qed.

Lemma vectorize_module_of_fields_witness :
  let env := class_table_env diamond in
  let module : ModuleState := <[ ["w"] := weight ]> ∅ in
  let specs := [(FType "Param", SizedAxis "x" 3)] in
  vectorize_module module specs
  = (module,
     Raise (CoordaxError
              (ValueError
                 "CartesianProduct components contain repeated_dims=['x']"))).
Proof.
  intros env module specs.
  assert (Hv : vectorize_module module specs
               = (module, snd (vectorize_module module specs)))
    by (vm_compute; reflexivity).
  destruct (snd (vectorize_module module specs)) as [[]|e] eqn:He;
    [vm_compute in He; discriminate He|].
  destruct (vectorize_module_of_fields (env := env) module specs e)
    as (k & coord & p & x & f & error & _ & _ & _ & _ & _ & ->).
  - intros p x Hx. apply lookup_insert_Some in Hx.
    destruct Hx as [[_ <-]|[_ Hx]]; [reflexivity|].
    rewrite lookup_empty in Hx. discriminate Hx.
  - exact He.
  - rewrite Hv. vm_compute in He. injection He as <-. reflexivity.
Defined.

(** **** vectorize_module, entry by entry *)

Section Swap.
Context {env : PyEnv}.

Lemma callable_free_holds (p : Predicate) :
  callable_free p = true ->
  forall path x y, holds p path (with_value x y) = holds p path x.
Proof.
  induction p as [| |q IH|ps IH|ps IH|t|t|k|i] using Predicate_induction;
    cbn [callable_free holds]; intros Hc path x y; try reflexivity.
  - rewrite (IH Hc). reflexivity.
  - rewrite forallb_forall in Hc. rewrite List.Forall_forall in IH.
    apply existsb_ext_in. intros q Hq. apply IH; [exact Hq|apply Hc, Hq].
  - rewrite forallb_forall in Hc. rewrite List.Forall_forall in IH.
    apply forallb_ext_in. intros q Hq. apply IH; [exact Hq|apply Hc, Hq].
  - discriminate Hc.
Qed.

Lemma vectorize_module_app (specs1 specs2 : list (Filter * Coordinate)) :
  forall module,
    vectorize_module module (specs1 ++ specs2)
    = match vectorize_module module specs1 with
      | (module', Return _) => vectorize_module module' specs2
      | (module', Raise e) => (module', Raise e)
      end.
Proof.
  induction specs1 as [|[k coord] specs1 IH]; intros module;
    cbn [app vectorize_module]; [reflexivity|].
  destruct (tree_map (broadcast coord) (nnx_state module k)); [apply IH|].
  reflexivity.
Qed.

(** An entry returns when [broadcast] returns on every variable its filter
    selects. *)
Lemma tree_map_broadcast_returns (coord : Coordinate) (module : ModuleState)
  (k : Filter) :
  (forall (p : list string) x,
      module !! p = Some x -> matches k p x = true ->
      raised (broadcast coord (var_value x)) = false) ->
  exists k_state,
    tree_map (broadcast coord) (nnx_state module k) = Return k_state.
Proof.
  intros Hall.
  pose proof (tree_map_outcome (broadcast coord) (nnx_state module k)) as Hk.
  destruct (tree_map (broadcast coord) (nnx_state module k)) as [k_state|e].
  - exists k_state. reflexivity.
  - exfalso. destruct Hk as (p & x & Hx & Hf).
    apply map_lookup_filter_Some in Hx. destruct Hx as [Hx Hm].
    pose proof (Hall p x Hx Hm) as Hr. rewrite Hf in Hr. discriminate Hr.
Qed.

Lemma swap_two_entries (module module' : ModuleState)
  (k1 k2 : Filter) (c1 c2 : Coordinate) :
  callable_free (to_predicate k1) = true ->
  callable_free (to_predicate k2) = true ->
  (forall path x, matches k1 path x = true -> matches k2 path x = false) ->
  vectorize_module module [(k1, c1); (k2, c2)] = (module', Return tt) ->
  vectorize_module module [(k2, c2); (k1, c1)] = (module', Return tt).
Proof.
  intros Hf1 Hf2 Hdis. cbn [vectorize_module].
  pose proof (tree_map_outcome (broadcast c1) (nnx_state module k1)) as Hb1.
  destruct (tree_map (broadcast c1) (nnx_state module k1)) as [s1|e1] eqn:H1;
    [|discriminate].
  set (m1 := nnx_update module s1).
  pose proof (tree_map_outcome (broadcast c2) (nnx_state m1 k2)) as Hb2.
  destruct (tree_map (broadcast c2) (nnx_state m1 k2)) as [s2|e2] eqn:H2;
    [|discriminate].
  intros [= <-].
  pose proof (update_selected _ module s1 k1 H1) as U1. fold m1 in U1.
  pose proof (update_selected _ m1 s2 k2 H2) as U2.
  (* the other order *)
  destruct (tree_map_broadcast_returns c2 module k2) as (s2' & H2').
  { intros p x Hx Hm. specialize (U1 p). rewrite Hx in U1.
    destruct (matches k1 p x) eqn:E1;
      [rewrite (Hdis p x E1) in Hm; discriminate Hm|].
    apply (Hb2 p x). apply map_lookup_filter_Some. split; [exact U1|exact Hm]. }
  rewrite H2'. set (m2 := nnx_update module s2').
  pose proof (update_selected _ module s2' k2 H2') as V2. fold m2 in V2.
  destruct (tree_map_broadcast_returns c1 m2 k1) as (s1' & H1').
  { intros p x' Hx' Hm. specialize (V2 p).
    destruct (module !! p) as [x|] eqn:Hx;
      [|rewrite V2 in Hx'; discriminate Hx'].
    destruct (matches k2 p x) eqn:E2.
    - destruct V2 as (y & Hy & V2). rewrite V2 in Hx'. injection Hx' as <-.
      unfold matches in Hm. rewrite (callable_free_holds _ Hf1) in Hm.
      rewrite (Hdis p x Hm) in E2. discriminate E2.
    - rewrite V2 in Hx'. injection Hx' as <-.
      apply (Hb1 p x). apply map_lookup_filter_Some. split; [exact Hx|exact Hm]. }
  rewrite H1'. f_equal.
  pose proof (update_selected _ m2 s1' k1 H1') as V1.
  apply map_eq. intros p.
  specialize (U1 p). specialize (U2 p). specialize (V1 p). specialize (V2 p).
  destruct (module !! p) as [x|] eqn:Hx.
  - destruct (matches k1 p x) eqn:E1.
    + pose proof (Hdis p x E1) as E2. rewrite E2 in V2.
      rewrite V2, E1 in V1. destruct V1 as (y1 & Hy1 & V1).
      destruct U1 as (y & Hy & U1). rewrite U1 in U2.
      assert (E2' : matches k2 p (with_value x y) = false).
      { unfold matches. rewrite (callable_free_holds _ Hf2). exact E2. }
      rewrite E2' in U2. rewrite U2, V1. congruence.
    + rewrite U1 in U2. destruct (matches k2 p x) eqn:E2.
      * destruct U2 as (y & Hy & U2). destruct V2 as (y' & Hy' & V2).
        rewrite V2 in V1.
        assert (E1' : matches k1 p (with_value x y') = false).
        { unfold matches. rewrite (callable_free_holds _ Hf1). exact E1. }
        rewrite E1' in V1. rewrite U2, V1. congruence.
      * rewrite V2, E1 in V1. rewrite U2, V1. reflexivity.
  - rewrite V2 in V1. rewrite U1 in U2. rewrite U2, V1. reflexivity.
Qed.

End Swap.

Section Once.
Context {env : PyEnv}.

Lemma unmatched_unchanged (specs : list (Filter * Coordinate))
  (module : ModuleState) (p : list string) (x : StateVar) :
  module !! p = Some x ->
  (forall kc, In kc specs -> matches (fst kc) p x = false) ->
  fst (vectorize_module module specs) !! p = Some x.
Proof.
  intros Hx Hnone.
  pose proof (vectorize_module_updated_within specs module p) as H.
  rewrite Hx in H. destruct H as (x' & Hx' & _ & _ & Hsame).
  rewrite Hx'. f_equal. apply Hsame. apply forallb_forall.
  intros k Hk. apply in_map_iff in Hk. destruct Hk as (kc & <- & Hkc).
  rewrite (Hnone kc Hkc). reflexivity.
Qed.

Lemma vectorize_module_returns_fst (specs : list (Filter * Coordinate))
  (module module' : ModuleState) (r : Result Exn unit) :
  vectorize_module module specs = (module', r) ->
  fst (vectorize_module module specs) = module'.
Proof. intros ->. reflexivity. Qed.

End Once.

(** X7.  The order of two neighbouring entries of the spec whose filters
    never match the same variable, and do not call into the environment,
    does not matter to a call that returns: with the two entries exchanged
    the call returns as well and leaves the module in the same state. *)
Theorem vectorize_module_swap {env : PyEnv} (module module' : ModuleState)
  (before after : list (Filter * Coordinate))
  (k1 k2 : Filter) (c1 c2 : Coordinate) :
  callable_free (to_predicate k1) = true ->
  callable_free (to_predicate k2) = true ->
  (forall path x, matches k1 path x = true -> matches k2 path x = false) ->
  vectorize_module module (before ++ (k1, c1) :: (k2, c2) :: after)
  = (module', Return tt) ->
  vectorize_module module (before ++ (k2, c2) :: (k1, c1) :: after)
  = (module', Return tt).
Proof.
  intros Hf1 Hf2 Hdis.
  change ((k1, c1) :: (k2, c2) :: after)
    with ([(k1, c1); (k2, c2)] ++ after).
  change ((k2, c2) :: (k1, c1) :: after)
    with ([(k2, c2); (k1, c1)] ++ after).
  rewrite !vectorize_module_app.
  destruct (vectorize_module module before) as [m0 [[]|e]]; [|discriminate].
  rewrite !vectorize_module_app.
  destruct (vectorize_module m0 [(k1, c1); (k2, c2)]) as [m1 [[]|e]] eqn:H12;
    [|discriminate].
  rewrite (swap_two_entries _ _ _ _ _ _ Hf1 Hf2 Hdis H12).
  intros H. exact H.
Qed.

Lemma vectorize_module_swap_witness :
  let env := class_table_env diamond in
  let tagged t :=
    {| var_type := "Param"; var_tag := Some t;
       var_value := FieldLeaf {| coordinate := SizedAxis "x" 3;
                                 values := fun _ => 0%Z |} |} in
  let module : ModuleState :=
    <[ ["u"] := tagged "dynamic" ]> (<[ ["v"] := tagged "static" ]> ∅) in
  let batch := SizedAxis "batch" 2 in
  let ens := SizedAxis "ensemble" 4 in
  vectorize_module module [(FStr "static", ens); (FStr "dynamic", batch)]
  = (fst (vectorize_module module
            [(FStr "dynamic", batch); (FStr "static", ens)]), Return tt).
Proof.
  intros env tagged module batch ens.
  apply (vectorize_module_swap (env := env) module _ [] []
           (FStr "dynamic") (FStr "static") batch ens).
  - reflexivity.
  - reflexivity.
  - intros path x H. unfold matches in *. cbn [to_predicate holds] in *.
    destruct (var_tag x) as [t|]; [|reflexivity].
    apply String.eqb_eq in H. subst t. reflexivity.
  - vm_compute. reflexivity.
Defined.

(** X8.  When [vectorize_module] returns, a variable that exactly one entry
    of the spec selects holds the field it held, broadcast to the
    composition of the entry's coordinate and its own, which returns; the
    later filters must not call into the environment. *)
Theorem vectorize_module_selected_once {env : PyEnv}
  (module module' : ModuleState) (before after : list (Filter * Coordinate))
  (k : Filter) (coord : Coordinate) (p : list string) (x : StateVar) :
  vectorize_module module (before ++ (k, coord) :: after)
  = (module', Return tt) ->
  module !! p = Some x ->
  matches k p x = true ->
  (forall kc, In kc before -> matches (fst kc) p x = false) ->
  (forall kc, In kc after ->
              callable_free (to_predicate (fst kc)) = true
              /\ matches (fst kc) p x = false) ->
  exists f c,
    var_value x = FieldLeaf f
    /\ compose_coordinates [coord; coordinate f] = Return c
    /\ module' !! p = Some (with_value x (FieldLeaf (broadcast_like f c))).
Proof.
  intros Hv Hx Hk Hbefore Hafter.
  rewrite vectorize_module_app in Hv.
  pose proof (unmatched_unchanged before module p x Hx Hbefore) as H0.
  destruct (vectorize_module module before) as [m0 [[]|e]]; [|discriminate Hv].
  cbn [fst] in H0. cbn [vectorize_module] in Hv.
  destruct (tree_map (broadcast coord) (nnx_state m0 k)) as [k_state|e] eqn:Hm;
    [|discriminate Hv].
  pose proof (update_selected _ m0 k_state k Hm p) as Hp.
  rewrite H0, Hk in Hp. destruct Hp as (y & Hy & Hp).
  destruct (var_value x) as [f|shp buf] eqn:Hval; [|discriminate Hy].
  unfold broadcast, cx_compose_coordinates in Hy.
  destruct (compose_coordinates [coord; coordinate f]) as [c|error] eqn:Hc;
    [|discriminate Hy].
  injection Hy as <-. exists f, c. split; [reflexivity|].
  split; [exact Hc|].
  rewrite <- (vectorize_module_returns_fst _ _ _ _ Hv).
  apply unmatched_unchanged; [exact Hp|].
  intros kc Hkc. destruct (Hafter kc Hkc) as [Hfree Hno].
  unfold matches. rewrite (callable_free_holds _ Hfree). exact Hno.
Qed.

Lemma vectorize_module_selected_once_witness :
  let env := class_table_env diamond in
  let batch := SizedAxis "batch" 2 in
  let module : ModuleState := <[ ["w"] := weight ]> ∅ in
  coordinate_at
    (fst (vectorize_module module
            [(FType "Cache", batch); (FType "Param", batch)])) ["w"]
  = Some (CartesianProduct [SizedAxis "batch" 2; SizedAxis "x" 3])
  /\ coordinate_at
       (fst (vectorize_module module [(FType "Param", Scalar)])) ["w"]
     = Some (SizedAxis "x" 3).
Proof.
  intros env batch module. split.
  - destruct (vectorize_module_selected_once (env := env) module
                (fst (vectorize_module module
                        [(FType "Cache", batch); (FType "Param", batch)]))
                [(FType "Cache", batch)] [] (FType "Param") batch ["w"] weight)
      as (f & c & Hf & Hc & Hw).
    + vm_compute. reflexivity.
    + reflexivity.
    + reflexivity.
    + intros kc [<-|[]]. reflexivity.
    + intros kc [].
    + unfold coordinate_at, Path. rewrite Hw. cbn [with_value var_value].
      injection Hf as <-. injection Hc as <-. reflexivity.
  - destruct (vectorize_module_selected_once (env := env) module
                (fst (vectorize_module module [(FType "Param", Scalar)]))
                [] [] (FType "Param") Scalar ["w"] weight)
      as (f & c & Hf & Hc & Hw).
    + vm_compute. reflexivity.
    + reflexivity.
    + reflexivity.
    + intros kc [].
    + intros kc [].
    + unfold coordinate_at, Path. rewrite Hw. cbn [with_value var_value].
      injection Hf as <-. injection Hc as <-. reflexivity.
Defined.

(** **** untag_module_state, tag_module_state, again *)

(** X9.  With at least one entry in [vectorized_axes], an axis of the
    coordinate that occurs in none of its coordinates makes
    [tag_module_state] and [untag_module_state] raise their ValueError
    before the module is touched. *)
Theorem tag_module_state_absent_axis {env : PyEnv} (module : ModuleState)
  (coordinate : Coordinate) (vectorized_axes : list (Filter * Coordinate)) :
  vectorized_axes <> [] ->
  (exists ax, In ax (axes coordinate)
              /\ forall kv, In kv vectorized_axes -> ~ In ax (axes (snd kv))) ->
  tag_module_state module coordinate vectorized_axes
  = (module, Raise (AxisNotPresent "tag_module_state"))
  /\ untag_module_state module coordinate vectorized_axes
     = (module, Raise (AxisNotPresent "untag_module_state"))
  /\ forall caller, is_ValueError (AxisNotPresent caller) = true.
Proof.
  intros Hne Hax. split; [|split].
  - apply module_state_op_validates; assumption.
  - apply module_state_op_validates; assumption.
  - reflexivity.
Qed.

Lemma tag_module_state_absent_axis_witness :
  let env := class_table_env diamond in
  let batch := SizedAxis "batch" 2 in
  tag_module_state small_module (CartesianProduct [batch; SizedAxis "x" 3])
    [(FType "Param", batch)]
  = (small_module, Raise (AxisNotPresent "tag_module_state")).
Proof.
  intros env batch.
  apply (tag_module_state_absent_axis (env := env) small_module
           (CartesianProduct [batch; SizedAxis "x" 3])
           [(FType "Param", batch)]).
  - discriminate.
  - exists (SizedAxis "x" 3). split; [right; left; reflexivity|].
    intros kv [<-|[]] [H|[]]. discriminate H.
Defined.

(** X10.  [tag_module_state] and [untag_module_state] keep the paths of the
    module and the type and tag of every variable, whether they return or
    raise, and leave as it was every variable that is matched by no filter
    whose coordinate has an axis of the given coordinate. *)
Theorem tag_module_state_frame {env : PyEnv} (module : ModuleState)
  (coordinate : Coordinate) (vectorized_axes : list (Filter * Coordinate)) :
  let selecting := map fst (applicable coordinate vectorized_axes) in
  updated_within selecting module
    (fst (tag_module_state module coordinate vectorized_axes))
  /\ updated_within selecting module
       (fst (untag_module_state module coordinate vectorized_axes)).
Proof. split; apply module_state_op_updated_within. Qed.

(** X11.  For a coordinate without axes, such as [Scalar], and at least one
    entry in [vectorized_axes], [tag_module_state] and
    [untag_module_state] return and leave the module as it was. *)
Theorem tag_module_state_no_axes {env : PyEnv} (module : ModuleState)
  (coordinate : Coordinate) (vectorized_axes : list (Filter * Coordinate)) :
  vectorized_axes <> [] ->
  axes coordinate = [] ->
  tag_module_state module coordinate vectorized_axes = (module, Return tt)
  /\ untag_module_state module coordinate vectorized_axes
     = (module, Return tt).
Proof. intros Hne Hax. split; apply module_state_op_no_axes; assumption. Qed.

Lemma tag_module_state_no_axes_witness :
  let env := class_table_env diamond in
  tag_module_state small_module Scalar [(FEllipsis, SizedAxis "batch" 2)]
  = (small_module, Return tt).
Proof.
  intros env.
  apply (tag_module_state_no_axes (env := env) small_module Scalar
           [(FEllipsis, SizedAxis "batch" 2)]); [discriminate|reflexivity].
Defined.

(** **** merge_vectorized_axes, head and tail exchanged *)

Section MergeOrder.
Context {env : PyEnv} (Hset : set_iter_ok env).

Lemma disjoint_filters_sym (a b : Filter) :
  _are_certainly_disjoint_filters a b = _are_certainly_disjoint_filters b a.
Proof. unfold _are_certainly_disjoint_filters. apply orb_comm. Qed.

(** No pair of a head-only and a tail-only key is left unresolved. *)
Lemma find_unresolved_None (head0 tail0 : Dict) :
  find (fun kk => negb (certainly_disjoint_pair kk)) (key_pairs head0 tail0)
  = None
  <-> forall k1 k2, only_in head0 tail0 k1 -> only_in tail0 head0 k2 ->
                    _are_certainly_disjoint_filters k1 k2 = true.
Proof.
  split.
  - intros Hf k1 k2 H1 H2.
    apply find_none with (x := (k1, k2)) in Hf.
    + apply negb_false_iff in Hf. exact Hf.
    + unfold key_pairs. apply in_prod_iff.
      split; apply (only_in_diff Hset); assumption.
  - intros Hall.
    destruct (find _ (key_pairs head0 tail0)) as [[a b]|] eqn:Hf; [|reflexivity].
    apply find_some in Hf. destruct Hf as [Hin Hab].
    unfold key_pairs in Hin. apply in_prod_iff in Hin. destruct Hin as [Ha Hb].
    apply (only_in_diff Hset) in Ha. apply (only_in_diff Hset) in Hb.
    apply negb_true_iff in Hab. unfold certainly_disjoint_pair in Hab.
    cbn [fst snd] in Hab. rewrite (Hall a b Ha Hb) in Hab. discriminate Hab.
Qed.

Lemma cx_compose_coordinates_raised_comm (a b : Coordinate) :
  raised (cx_compose_coordinates [a; b])
  = raised (cx_compose_coordinates [b; a]).
Proof.
  unfold cx_compose_coordinates.
  pose proof (compose_coordinates_raised_comm a b) as H.
  destruct (compose_coordinates [a; b]), (compose_coordinates [b; a]);
    simpl in *; congruence.
Qed.

(** The compositions made for a key raise together when head and tail are
    exchanged. *)
Lemma merged_value_swap (head0 tail0 : Dict) (k : Filter) :
  match merged_value head0 tail0 k, merged_value tail0 head0 k with
  | Some r, Some r' => raised r = raised r'
  | None, None => True
  | _, _ => False
  end.
Proof.
  unfold merged_value.
  destruct (dict_get head0 k), (dict_get tail0 k);
    try exact I; apply cx_compose_coordinates_raised_comm.
Qed.

Lemma merged_values_swap (head0 tail0 : Dict) :
  (forall k r, merged_value head0 tail0 k = Some r -> raised r = false) ->
  forall k r, merged_value tail0 head0 k = Some r -> raised r = false.
Proof.
  intros H k r Hr. pose proof (merged_value_swap head0 tail0 k) as Hs.
  destruct (merged_value head0 tail0 k) as [r'|] eqn:Hr';
    rewrite Hr in Hs; [|contradiction].
  rewrite <- Hs. apply (H k r' Hr').
Qed.

(** The wildcard coordinates compose when the composition made for the
    wildcard key does. *)
Lemma wildcard_composition_returns (head0 tail0 : Dict) :
  (forall r, merged_value head0 tail0 FEllipsis = Some r -> raised r = false) ->
  raised (cx_compose_coordinates
            [dict_get_default head0 FEllipsis Scalar;
             dict_get_default tail0 FEllipsis Scalar]) = false.
Proof.
  unfold merged_value, dict_get_default. intros H.
  destruct (dict_get head0 FEllipsis), (dict_get tail0 FEllipsis);
    try (apply H; reflexivity).
  reflexivity.
Qed.

Lemma merge_returns_iff (head0 tail0 : Dict) :
  raised (merge_vectorized_axes head0 tail0) = false
  <-> (forall k r, merged_value head0 tail0 k = Some r -> raised r = false)
      /\ forall k1 k2, only_in head0 tail0 k1 -> only_in tail0 head0 k2 ->
                       _are_certainly_disjoint_filters k1 k2 = true.
Proof.
  rewrite <- find_unresolved_None.
  destruct (merge_outcome Hset head0 tail0)
    as [(k & e & Hk & Hv & ->)|[Hret Ho]].
  - split; [discriminate|]. intros [H _]. apply (H k _ Hv).
  - destruct (find _ (key_pairs head0 tail0)) as [kk|].
    + rewrite Ho. split; [discriminate|]. intros [_ H]. discriminate H.
    + destruct (cx_compose_coordinates _) as [combined|e] eqn:Hc in Ho.
      * destruct Ho as (merged & -> & Hget). split; [|reflexivity].
        intros _. split; [|reflexivity]. intros k r Hr.
        specialize (Hget k). rewrite Hr in Hget.
        destruct Hget as (c & -> & _). reflexivity.
      * rewrite Ho. split; [discriminate|]. intros [H _].
        pose proof (wildcard_composition_returns head0 tail0 (H FEllipsis))
          as Hw.
        rewrite Hc in Hw. discriminate Hw.
Qed.

Lemma merged_contains (head0 tail0 merged : Dict) :
  merge_vectorized_axes head0 tail0 = Return merged ->
  forall k, dict_contains merged k
            = dict_contains head0 k || dict_contains tail0 k.
Proof.
  intros Hm k.
  destruct (merge_outcome Hset head0 tail0)
    as [(k' & e & _ & _ & He)|[_ Ho]]; [congruence|].
  destruct (find _ _) as [kk|] in Ho; [congruence|].
  destruct (cx_compose_coordinates _) as [combined|e] in Ho; [|congruence].
  destruct Ho as (merged' & Hm' & Hget). rewrite Hm in Hm'.
  injection Hm' as <-. specialize (Hget k).
  unfold dict_contains, merged_value in *.
  destruct (dict_get head0 k), (dict_get tail0 k); cbn in Hget;
    try (destruct Hget as (merged_k & _ & ->); reflexivity).
  rewrite Hget. reflexivity.
Qed.

End MergeOrder.


(** X12.  Whether [merge_vectorized_axes] raises does not depend on which of
    the two mappings is the head: it raises for [head] and [tail] exactly
    when it raises for [tail] and [head]; when both calls return, the two
    merged mappings have the same keys. *)
Theorem merge_vectorized_axes_swap {env : PyEnv} (head tail : Dict) :
  set_iter_ok env ->
  raised (merge_vectorized_axes head tail)
  = raised (merge_vectorized_axes tail head)
  /\ forall merged merged',
      merge_vectorized_axes head tail = Return merged ->
      merge_vectorized_axes tail head = Return merged' ->
      forall k, dict_contains merged k = dict_contains merged' k.
Proof.
  intros Hset. split.
  - destruct (raised (merge_vectorized_axes head tail)) eqn:E1,
             (raised (merge_vectorized_axes tail head)) eqn:E2;
      try reflexivity; exfalso.
    + destruct (proj1 (merge_returns_iff Hset tail head) E2) as [Hv H].
      apply not_false_iff_true in E1. apply E1.
      apply (merge_returns_iff Hset). split.
      * apply merged_values_swap, Hv.
      * intros k1 k2 H1 H2. rewrite disjoint_filters_sym. apply H; assumption.
    + destruct (proj1 (merge_returns_iff Hset head tail) E1) as [Hv H].
      apply not_false_iff_true in E2. apply E2.
      apply (merge_returns_iff Hset). split.
      * apply merged_values_swap, Hv.
      * intros k1 k2 H1 H2. rewrite disjoint_filters_sym. apply H; assumption.
  - intros merged merged' H1 H2 k.
    rewrite (merged_contains Hset _ _ _ H1), (merged_contains Hset _ _ _ H2).
    apply orb_comm.
Qed.

Lemma merge_vectorized_axes_swap_witness :
  let env := class_table_env diamond in
  let batch := SizedAxis "batch" 2 in
  let x := SizedAxis "x" 3 in
  raised (merge_vectorized_axes [(FType "Param", batch)]
                                [(FType "CachedParam", x)])
  = raised (merge_vectorized_axes [(FType "CachedParam", x)]
                                  [(FType "Param", batch)]).
Proof.
  intros env batch x.
  exact (proj1 (merge_vectorized_axes_swap (env := env)
                  [(FType "Param", batch)] [(FType "CachedParam", x)]
                  (class_table_env_set_iter_ok diamond))).
Defined.

(** **** state_in_axes_for_coord, nest_state_in_axes *)

Section MappingFacts.
Context {V : Type}.

Lemma mapping_get_In (d : Mapping V) (k : Filter) :
  (exists v, mapping_get d k = Some v) <-> In k (map fst d).
Proof.
  induction d as [|[k' v'] d IH]; cbn [mapping_get map fst].
  - split; [intros (v & H); discriminate H|intros []].
  - destruct (filter_eqb k' k) eqn:E.
    + apply filter_eqb_eq in E. subst k'. split; [left; reflexivity|].
      intros _. exists v'. reflexivity.
    + apply filter_eqb_neq in E. rewrite IH. split; [right; assumption|].
      intros [H|H]; [congruence|exact H].
Qed.

Lemma mapping_set_fresh (d : Mapping V) (k : Filter) (v : V) :
  ~ In k (map fst d) -> mapping_set d k v = d ++ [(k, v)].
Proof.
  induction d as [|[k' v'] d IH]; cbn [mapping_set map fst app];
    [reflexivity|].
  intros Hn. destruct (filter_eqb k' k) eqn:E.
  - apply filter_eqb_eq in E. subst k'. exfalso. apply Hn. left. reflexivity.
  - rewrite IH; [reflexivity|]. intros H. apply Hn. right. exact H.
Qed.

Lemma mapping_get_app (d1 d2 : Mapping V) (k : Filter) :
  mapping_get (d1 ++ d2) k
  = match mapping_get d1 k with
    | Some v => Some v
    | None => mapping_get d2 k
    end.
Proof.
  induction d1 as [|[k' v'] d1 IH]; cbn [mapping_get app]; [reflexivity|].
  destruct (filter_eqb k' k); [reflexivity|exact IH].
Qed.

End MappingFacts.

Lemma mapping_set_keys {V W : Type} (d : Mapping V) (d' : Mapping W)
  (k : Filter) (v : V) (w : W) :
  map fst d = map fst d' ->
  map fst (mapping_set d k v) = map fst (mapping_set d' k w).
Proof.
  revert d'. induction d as [|[k1 v1] d IH]; intros [|[k2 v2] d'] H;
    try discriminate H; [reflexivity|].
  cbn [map fst] in H. injection H as -> H. cbn [mapping_set].
  destruct (filter_eqb k2 k); cbn [map fst]; f_equal; [exact H|].
  apply IH, H.
Qed.

(** The keys of a comprehension, and their order, are those of the items:
    they do not depend on the values. *)
Lemma mapping_comprehension_from_keys {A B V W : Type}
  (f : Filter -> A -> Result NestExn V) (g : Filter -> B -> Result NestExn W)
  (items : list (Filter * A)) :
  forall (items' : list (Filter * B)) acc acc' d d',
    map fst acc = map fst acc' ->
    map fst items = map fst items' ->
    mapping_comprehension_from acc f items = Return d ->
    mapping_comprehension_from acc' g items' = Return d' ->
    map fst d = map fst d'.
Proof.
  induction items as [|[k a] items IH]; intros [|[k' b] items'] acc acc' d d'
    Hacc Hitems Hd Hd'; try discriminate Hitems;
    cbn [mapping_comprehension_from] in Hd, Hd'.
  - injection Hd as <-. injection Hd' as <-. exact Hacc.
  - cbn [map fst] in Hitems. injection Hitems as -> Hitems.
    destruct (f k' a) as [v|e]; [|discriminate Hd].
    destruct (g k' b) as [w|e]; [|discriminate Hd'].
    apply (IH items' _ _ d d' (mapping_set_keys acc acc' k' v w Hacc)
              Hitems Hd Hd').
Qed.

Lemma mapping_comprehension_from_spec {A V : Type}
  (f : Filter -> A -> Result NestExn V) (items : list (Filter * A)) :
  forall acc d,
    List.NoDup (map fst acc ++ map fst items) ->
    mapping_comprehension_from acc f items = Return d ->
    exists new,
      d = acc ++ new /\ map fst new = map fst items
      /\ Forall2 (fun ka kv => f (fst ka) (snd ka) = Return (snd kv)) items new.
Proof.
  induction items as [|[k a] items IH]; intros acc d Hnd Hd;
    cbn [mapping_comprehension_from] in Hd.
  - injection Hd as <-. exists []. rewrite app_nil_r. repeat split.
    constructor.
  - destruct (f k a) as [v|e] eqn:Hf; [|discriminate Hd].
    cbn [map fst] in Hnd.
    assert (Hfresh : ~ In k (map fst acc)).
    { intros Hin. apply NoDup_remove_2 in Hnd. apply Hnd.
      apply in_or_app. left. exact Hin. }
    rewrite (mapping_set_fresh acc k v Hfresh) in Hd.
    destruct (IH (acc ++ [(k, v)]) d) as (new & -> & Hk & Hv).
    + rewrite map_app, <- app_assoc. exact Hnd.
    + exact Hd.
    + exists ((k, v) :: new). rewrite <- app_assoc. split; [reflexivity|].
      split; [cbn [map fst]; f_equal; exact Hk|].
      constructor; [exact Hf|exact Hv].
Qed.

Lemma mapping_comprehension_spec {A V : Type}
  (f : Filter -> A -> Result NestExn V) (items : list (Filter * A))
  (d : Mapping V) :
  List.NoDup (map fst items) ->
  mapping_comprehension f items = Return d ->
  map fst d = map fst items
  /\ Forall2 (fun ka kv => f (fst ka) (snd ka) = Return (snd kv)) items d.
Proof.
  intros Hnd Hd.
  destruct (mapping_comprehension_from_spec f items [] d Hnd Hd)
    as (new & -> & Hk & Hv).
  split; assumption.
Qed.

Lemma mapping_comprehension_from_raises {A V : Type}
  (f : Filter -> A -> Result NestExn V) (items : list (Filter * A)) :
  forall acc e,
    mapping_comprehension_from acc f items = Raise e ->
    exists k a, In (k, a) items /\ f k a = Raise e.
Proof.
  induction items as [|[k a] items IH]; intros acc e H;
    cbn [mapping_comprehension_from] in H; [discriminate H|].
  destruct (f k a) as [v|e'] eqn:Hf.
  - destruct (IH _ _ H) as (k' & a' & Hin & Hr).
    exists k', a'. split; [right; exact Hin|exact Hr].
  - injection H as ->. exists k, a. split; [left; reflexivity|exact Hf].
Qed.

Lemma tuple_of_raises {A B : Type} (f : A -> Result NestExn B) (xs : list A)
  (e : NestExn) :
  tuple_of f xs = Raise e -> exists x, In x xs /\ f x = Raise e.
Proof.
  induction xs as [|x xs IH]; cbn [tuple_of]; [discriminate|].
  destruct (f x) as [y|e'] eqn:Hf.
  - destruct (tuple_of f xs) as [ys|e'']; [discriminate|].
    intros [= ->]. destruct (IH eq_refl) as (x' & Hin & Hr).
    exists x'. split; [right; exact Hin|exact Hr].
  - intros [= ->]. exists x. split; [left; reflexivity|exact Hf].
Qed.

Lemma tuple_of_spec {A B : Type} (f : A -> Result NestExn B) (xs : list A)
  (ys : list B) :
  tuple_of f xs = Return ys -> Forall2 (fun x y => f x = Return y) xs ys.
Proof.
  revert ys. induction xs as [|x xs IH]; intros ys; cbn [tuple_of].
  - intros [= <-]. constructor.
  - destruct (f x) as [y|e] eqn:Hf; [|discriminate].
    destruct (tuple_of f xs) as [ys'|e]; [|discriminate].
    intros [= <-]. constructor; [exact Hf|apply IH; reflexivity].
Qed.

Lemma tuple_of_total {A B : Type} (f : A -> Result NestExn B) (xs : list A) :
  (forall x, In x xs -> exists y, f x = Return y) ->
  exists ys, tuple_of f xs = Return ys.
Proof.
  induction xs as [|x xs IH]; intros H; cbn [tuple_of]; [exists []; reflexivity|].
  destruct (H x (or_introl eq_refl)) as (y & ->).
  destruct (IH (fun x' Hx' => H x' (or_intror Hx'))) as (ys & ->).
  exists (y :: ys). reflexivity.
Qed.

Lemma keys_eqb_eq (ks1 ks2 : list Filter) :
  list_eqb filter_eqb ks1 ks2 = true <-> ks1 = ks2.
Proof.
  apply list_eqb_eq. apply List.Forall_forall. intros k _ k'.
  apply filter_eqb_eq.
Qed.

Lemma mapping_get_NoDup {V : Type} (d : Mapping V) (k : Filter) (v : V) :
  List.NoDup (map fst d) -> In (k, v) d -> mapping_get d k = Some v.
Proof.
  induction d as [|[k' v'] d IH]; cbn [map fst mapping_get]; [intros _ []|].
  intros Hnd [[= -> ->]|Hin].
  - rewrite filter_eqb_refl. reflexivity.
  - destruct (filter_eqb k' k) eqn:E.
    + apply filter_eqb_eq in E. subst k'. exfalso.
      apply NoDup_cons_iff in Hnd. destruct Hnd as [Hn _]. apply Hn.
      apply in_map_iff. exists (k, v). split; [reflexivity|exact Hin].
    + apply IH; [|exact Hin]. apply NoDup_cons_iff in Hnd. apply Hnd.
Qed.

(** What a comprehension over distinct keys holds. *)
Lemma mapping_comprehension_lookup {A V : Type}
  (f : Filter -> A -> Result NestExn V) (items : list (Filter * A))
  (d : Mapping V) :
  List.NoDup (map fst items) ->
  mapping_comprehension f items = Return d ->
  map fst d = map fst items
  /\ forall k a, In (k, a) items ->
       exists v, f k a = Return v /\ mapping_get d k = Some v.
Proof.
  intros Hnd Hd.
  destruct (mapping_comprehension_spec f items d Hnd Hd) as [Hk Hv].
  split; [exact Hk|]. intros k a Hin.
  assert (Hnd' : List.NoDup (map fst d)) by (rewrite Hk; exact Hnd).
  clear Hd Hnd. revert Hk Hnd' Hin.
  induction Hv as [|[k0 a0] [k1 v1] items d H0 Hv IH]; [intros _ _ []|].
  cbn [map fst snd] in *. intros [= -> Hk] Hnd' [[= -> ->]|Hin].
  - exists v1. split; [exact H0|]. cbn [mapping_get].
    rewrite filter_eqb_refl. reflexivity.
  - apply NoDup_cons_iff in Hnd'. destruct Hnd' as [Hn Hnd'].
    destruct (IH Hk Hnd' Hin) as (v & Hf & Hg).
    exists v. split; [exact Hf|]. cbn [mapping_get].
    destruct (filter_eqb k0 k) eqn:E; [|exact Hg].
    apply filter_eqb_eq in E. subst k0. exfalso. apply Hn.
    apply mapping_get_In. exists v. exact Hg.
Qed.

Lemma NoDup_keys_unit (ks : list Filter) :
  map fst (map (fun f : Filter => (f, tt)) ks) = ks.
Proof. rewrite map_map. cbn [fst]. apply map_id. Qed.

Lemma mapping_get_Some_In {V : Type} (d : Mapping V) (k : Filter) (v : V) :
  mapping_get d k = Some v -> In (k, v) d.
Proof.
  induction d as [|[k' v'] d IH]; cbn [mapping_get]; [discriminate|].
  destruct (filter_eqb k' k) eqn:E.
  - apply filter_eqb_eq in E. subst k'. intros [= ->]. left. reflexivity.
  - intros H. right. apply IH, H.
Qed.

Lemma Forall2_seq_nth {B : Type} (P : nat -> B -> Prop) (n : nat) :
  forall start (r : list B) i s,
    Forall2 P (seq start n) r -> nth_error r i = Some s -> P (start + i) s.
Proof.
  induction n as [|n IH]; intros start r i s H Hs; cbn [seq] in H.
  - inversion H; subst. destruct i; discriminate Hs.
  - inversion H as [|? y ? r' Hy Hr]; subst. destruct i as [|i].
    + injection Hs as <-. rewrite Nat.add_0_r. exact Hy.
    + cbn [nth_error] in Hs. rewrite <- Nat.add_succ_comm.
      apply (IH _ _ _ _ Hr Hs).
Qed.

Section NestFacts.
Context {AxesTree : Type}.
Context (in_axes_for_coord
           : Coordinate -> Coordinate -> Result Error AxesTree).
Context (nest_in_axes : list AxesTree -> Result Error (list AxesTree)).

Lemma same_keys_spec (x0 : StateAxes AxesTree) (l : list (StateAxes AxesTree)) :
  same_keys x0 l = true
  <-> forall x, In x l -> state_axes_keys x = state_axes_keys x0.
Proof.
  unfold same_keys. rewrite forallb_forall. split; intros H x Hx.
  - apply keys_eqb_eq, H, Hx.
  - apply keys_eqb_eq, H, Hx.
Qed.

Lemma getitem_outcome {V : Type} (s : Mapping V) (f : Filter) :
  match state_axes_getitem s f with
  | Return v => mapping_get s f = Some v
  | Raise e => e = MissingKey f /\ ~ In f (map fst s)
  end.
Proof.
  unfold state_axes_getitem. destruct (mapping_get s f) as [v|] eqn:E.
  - reflexivity.
  - split; [reflexivity|]. intros Hin. apply mapping_get_In in Hin.
    destruct Hin as (v & Hv). congruence.
Qed.

(** What a call that returns has computed. *)
Lemma nest_state_in_axes_returns (x0 : StateAxes AxesTree) (rest : list (StateAxes AxesTree))
  (r : list (StateAxes AxesTree)) :
  List.NoDup (state_axes_keys x0) ->
  nest_state_in_axes nest_in_axes (x0 :: rest) = Return r ->
  (forall x, In x (x0 :: rest) -> state_axes_keys x = state_axes_keys x0)
  /\ length r = length (x0 :: rest)
  /\ forall i s, nth_error r i = Some s ->
       state_axes_keys s = state_axes_keys x0
       /\ forall f, In f (state_axes_keys x0) ->
            exists trees nested a,
              tuple_of (fun x => state_axes_getitem x f) (x0 :: rest)
              = Return trees
              /\ nest_in_axes trees = Return nested
              /\ nth_error nested i = Some a
              /\ mapping_get s f = Some a.
Proof.
  intros Hnd H. cbn [nest_state_in_axes] in H.
  destruct (same_keys x0 (x0 :: rest)) eqn:Hsame; [|discriminate H].
  cbn [negb] in H.
  pose proof (proj1 (same_keys_spec _ _) Hsame) as Hkeys. clear Hsame.
  split; [exact Hkeys|].
  set (l := x0 :: rest) in *. set (ks := state_axes_keys x0) in *.
  destruct (mapping_comprehension _ (map (fun f => (f, tt)) ks))
    as [axes_by_filter|e] eqn:H1 in H; [|discriminate H].
  destruct (mapping_comprehension _ axes_by_filter)
    as [nested_axes_by_filter|e] eqn:H2 in H; [|discriminate H].
  assert (Hu : List.NoDup (map fst (map (fun f : Filter => (f, tt)) ks)))
    by (rewrite NoDup_keys_unit; exact Hnd).
  destruct (mapping_comprehension_lookup _ _ _ Hu H1) as [Hk1 Hv1].
  rewrite NoDup_keys_unit in Hk1.
  assert (Hnd1 : List.NoDup (map fst axes_by_filter))
    by (rewrite Hk1; exact Hnd).
  destruct (mapping_comprehension_lookup _ _ _ Hnd1 H2) as [Hk2 Hv2].
  rewrite Hk1 in Hk2.
  apply tuple_of_spec in H. split.
  - rewrite <- (List.Forall2_length H). apply length_seq.
  - intros i s Hs. pose proof (Forall2_seq_nth _ _ _ _ _ _ H Hs) as Hi.
    cbn [Nat.add] in Hi.
    destruct (mapping_comprehension_lookup _ _ _ Hu Hi) as [Hk3 Hv3].
    rewrite NoDup_keys_unit in Hk3. split; [exact Hk3|].
    intros f Hf.
    assert (Hin : In (f, tt) (map (fun f : Filter => (f, tt)) ks))
      by exact (in_map (fun f : Filter => (f, tt)) ks f Hf).
    destruct (Hv1 f tt Hin) as (trees & Ht & Hg1).
    destruct (Hv2 f trees (mapping_get_Some_In _ _ _ Hg1)) as (nested & Hn & Hg2).
    destruct (Hv3 f tt Hin) as (a & Ha & Hg3).
    unfold state_axes_getitem in Ha. rewrite Hg2 in Ha.
    destruct (nest_in_axes trees) as [nested'|e] eqn:Hnest; [|discriminate Hn].
    injection Hn as ->.
    destruct (nth_error nested i) as [a'|] eqn:Hnth; [|discriminate Ha].
    injection Ha as ->.
    exists trees, nested, a. repeat split; assumption.
Qed.

Lemma getitem_not_SameKeysRequired {V : Type} (s : Mapping V) (f : Filter) :
  state_axes_getitem s f <> Raise SameKeysRequired.
Proof. unfold state_axes_getitem. destruct (mapping_get s f); discriminate. Qed.

(** The ValueError is raised by the comparison of the keys only. *)
Lemma nest_state_in_axes_SameKeysRequired (x0 : StateAxes AxesTree)
  (rest : list (StateAxes AxesTree)) :
  nest_state_in_axes nest_in_axes (x0 :: rest) = Raise SameKeysRequired
  <-> same_keys x0 (x0 :: rest) = false.
Proof.
  cbn [nest_state_in_axes].
  destruct (same_keys x0 (x0 :: rest)); cbn [negb]; [|split; reflexivity].
  split; [|discriminate]. intros H. exfalso.
  destruct (mapping_comprehension _ (map _ (state_axes_keys x0)))
    as [axes_by_filter|e] eqn:H1 in H.
  - destruct (mapping_comprehension _ axes_by_filter)
      as [nested_axes_by_filter|e] eqn:H2 in H.
    + apply tuple_of_raises in H. destruct H as (i & _ & H).
      apply mapping_comprehension_from_raises in H.
      destruct H as (f & [] & _ & H).
      unfold state_axes_getitem in H.
      destruct (mapping_get nested_axes_by_filter f) as [nested|];
        [|discriminate H].
      destruct (nth_error nested i); discriminate H.
    + injection H as ->. apply mapping_comprehension_from_raises in H2.
      destruct H2 as (f & trees & _ & H).
      destruct (nest_in_axes trees); discriminate H.
  - injection H as ->. apply mapping_comprehension_from_raises in H1.
    destruct H1 as (f & [] & _ & H). apply tuple_of_raises in H.
    destruct H as (s & _ & H). apply (getitem_not_SameKeysRequired _ _ H).
Qed.

Lemma single_coordinate_outcome (vectorized_axes : Dict)
  (coord : Coordinate) :
  List.NoDup (dict_keys vectorized_axes) ->
  match state_in_axes_for_coord in_axes_for_coord vectorized_axes coord with
  | Return s => state_axes_keys s = dict_keys vectorized_axes
  | Raise e => exists e', e = FieldUtilsError e'
  end.
Proof.
  intros Hnd. unfold state_in_axes_for_coord.
  destruct (mapping_comprehension _ vectorized_axes) as [dummy|e] eqn:Hd.
  - destruct (mapping_comprehension_spec _ _ _ Hnd Hd) as [Hk _].
    assert (Hnd' : List.NoDup (map fst dummy))
      by (rewrite Hk; exact Hnd).
    destruct (mapping_comprehension _ dummy) as [s|e] eqn:H.
    + destruct (mapping_comprehension_spec _ _ _ Hnd' H) as [Hs _].
      unfold state_axes_keys. rewrite Hs. exact Hk.
    + apply mapping_comprehension_from_raises in H.
      destruct H as (k & v & _ & H).
      destruct (in_axes_for_coord v coord) as [a|e']; [discriminate H|].
      injection H as <-. exists e'. reflexivity.
  - apply mapping_comprehension_from_raises in Hd.
    destruct Hd as (k & v & _ & Hd). discriminate Hd.
Qed.

(** With arguments of equal keys the only exceptions are those of
    [nest_in_axes]. *)
Lemma nest_state_in_axes_outcome (x0 : StateAxes AxesTree)
  (rest : list (StateAxes AxesTree)) :
  (forall trees nested,
      nest_in_axes trees = Return nested -> length nested = length trees) ->
  List.NoDup (state_axes_keys x0) ->
  (forall x, In x (x0 :: rest) -> state_axes_keys x = state_axes_keys x0) ->
  match nest_state_in_axes nest_in_axes (x0 :: rest) with
  | Return r => True
  | Raise e => exists e', e = FieldUtilsError e'
  end.
Proof.
  intros Hlen Hnd Hkeys.
  destruct (nest_state_in_axes nest_in_axes (x0 :: rest)) as [r|e] eqn:H;
    [exact I|].
  cbn [nest_state_in_axes] in H.
  rewrite (proj2 (same_keys_spec x0 (x0 :: rest)) Hkeys) in H. cbn [negb] in H.
  set (l := x0 :: rest) in *. set (ks := state_axes_keys x0) in *.
  destruct (mapping_comprehension _ (map (fun f => (f, tt)) ks))
    as [axes_by_filter|e1] eqn:H1 in H.
  - destruct (mapping_comprehension _ axes_by_filter)
      as [nested_axes_by_filter|e2] eqn:H2 in H.
    + exfalso. apply tuple_of_raises in H. destruct H as (i & Hi & H).
      apply in_seq in Hi.
      apply mapping_comprehension_from_raises in H.
      destruct H as (f & [] & Hf & H).
      apply in_map_iff in Hf. destruct Hf as (f' & [= ->] & Hf).
      assert (Hu : List.NoDup (map fst (map (fun f : Filter => (f, tt)) ks)))
        by (rewrite NoDup_keys_unit; exact Hnd).
      destruct (mapping_comprehension_lookup _ _ _ Hu H1) as [Hk1 Hv1].
      rewrite NoDup_keys_unit in Hk1.
      assert (Hnd1 : List.NoDup (map fst axes_by_filter))
        by (rewrite Hk1; exact Hnd).
      destruct (mapping_comprehension_lookup _ _ _ Hnd1 H2) as [_ Hv2].
      destruct (Hv1 f tt (in_map (fun f : Filter => (f, tt)) ks f Hf))
        as (trees & Ht & Hg1).
      destruct (Hv2 f trees (mapping_get_Some_In _ _ _ Hg1))
        as (nested & Hn & Hg2).
      unfold state_axes_getitem in H. rewrite Hg2 in H.
      destruct (nest_in_axes trees) as [nested'|e'] eqn:Hnest;
        [|discriminate Hn].
      injection Hn as ->. apply Hlen in Hnest.
      apply tuple_of_spec, List.Forall2_length in Ht.
      destruct (nth_error nested i) as [a|] eqn:Hnth; [discriminate H|].
      apply nth_error_None in Hnth. cbn [Nat.add] in Hi.
      rewrite Hnest, <- Ht in Hnth. apply (Nat.lt_irrefl i).
      apply (Nat.lt_le_trans _ _ _ (proj2 Hi) Hnth).
    + injection H as ->. apply mapping_comprehension_from_raises in H2.
      destruct H2 as (f & trees & _ & H).
      destruct (nest_in_axes trees) as [nested|e']; [discriminate H|].
      injection H as <-. exists e'. reflexivity.
  - exfalso. injection H as ->. apply mapping_comprehension_from_raises in H1.
    destruct H1 as (f & [] & Hf & H).
    apply in_map_iff in Hf. destruct Hf as (f' & [= ->] & Hf).
    apply tuple_of_raises in H. destruct H as (s & Hs & H).
    pose proof (getitem_outcome s f) as Ho. rewrite H in Ho.
    destruct Ho as [_ Hn]. apply Hn.
    change (map fst s) with (state_axes_keys s). rewrite (Hkeys s Hs).
    exact Hf.
Qed.

End NestFacts.

(** X13.  [nest_state_in_axes] returns the empty tuple for no arguments,
    and it raises the ValueError that asks for the same keys exactly when
    two of its arguments differ in their keys or in the order of their
    keys. *)
Theorem nest_state_in_axes_same_keys {AxesTree : Type}
  (nest_in_axes : list AxesTree -> Result Error (list AxesTree))
  (state_axes_to_nest : list (StateAxes AxesTree)) :
  nest_state_in_axes nest_in_axes [] = Return []
  /\ (nest_state_in_axes nest_in_axes state_axes_to_nest
      = Raise SameKeysRequired
      <-> exists x y, In x state_axes_to_nest /\ In y state_axes_to_nest
                      /\ state_axes_keys x <> state_axes_keys y).
Proof.
  split; [reflexivity|].
  destruct state_axes_to_nest as [|x0 rest].
  - split; [discriminate|]. intros (x & _ & [] & _).
  - rewrite nest_state_in_axes_SameKeysRequired. split.
    + intros Hs. destruct (forallb_false_exists _ _ Hs) as (x & Hx & Hk).
      exists x, x0. split; [exact Hx|]. split; [left; reflexivity|].
      intros E. apply keys_eqb_eq in E. congruence.
    + intros (x & y & Hx & Hy & Hne). apply not_true_is_false. intros Hs.
      pose proof (proj1 (same_keys_spec _ _) Hs) as Hkeys.
      apply Hne. rewrite (Hkeys x Hx), (Hkeys y Hy). reflexivity.
Qed.

(** X14.  When [nest_state_in_axes] returns, its arguments had the same
    keys, the result has one entry per argument, each with those keys in
    the same order, and entry [i] holds at a key the tree number [i] of
    what [nest_in_axes] made of the trees the arguments hold at that key,
    from the first argument to the last. *)
Theorem nest_state_in_axes_levels {AxesTree : Type}
  (nest_in_axes : list AxesTree -> Result Error (list AxesTree))
  (x0 : StateAxes AxesTree) (rest r : list (StateAxes AxesTree)) :
  List.NoDup (state_axes_keys x0) ->
  nest_state_in_axes nest_in_axes (x0 :: rest) = Return r ->
  (forall x, In x (x0 :: rest) -> state_axes_keys x = state_axes_keys x0)
  /\ length r = length (x0 :: rest)
  /\ forall i s, nth_error r i = Some s ->
       state_axes_keys s = state_axes_keys x0
       /\ forall f, In f (state_axes_keys x0) ->
            exists trees nested a,
              tuple_of (fun x => state_axes_getitem x f) (x0 :: rest)
              = Return trees
              /\ nest_in_axes trees = Return nested
              /\ nth_error nested i = Some a
              /\ mapping_get s f = Some a.
Proof. apply nest_state_in_axes_returns. Qed.

Lemma nest_state_in_axes_levels_witness :
  let nest_in_axes := fun trees : list (option nat) =>
                        Return (E := Error) (rev trees) in
  let outer := [(FType "Param", Some 0); (FEllipsis, None)] in
  let inner := [(FType "Param", Some 1); (FEllipsis, Some 0)] in
  exists r,
    nest_state_in_axes nest_in_axes [outer; inner] = Return r
    /\ length r = 2.
Proof.
  intros nest_in_axes outer inner. eexists. split; [reflexivity|].
  refine (proj1 (proj2 (nest_state_in_axes_levels nest_in_axes outer [inner] _
                          _ eq_refl))).
  repeat constructor; cbn; intuition discriminate.
Defined.

(** X15.  For a sequence of coordinates [state_in_axes_for_coord] never
    raises the ValueError of [nest_state_in_axes] nor a KeyError: every
    level has the keys of [vectorized_axes], so when [nest_in_axes]
    returns as many trees as it is given, the call either raises what
    [in_axes_for_coord] or [nest_in_axes] raised, or returns one
    [StateAxes] per coordinate, each with the keys of [vectorized_axes] in
    their order. *)
Theorem state_in_axes_for_coords_outcome {AxesTree : Type}
  (in_axes_for_coord : Coordinate -> Coordinate -> Result Error AxesTree)
  (nest_in_axes : list AxesTree -> Result Error (list AxesTree))
  (vectorized_axes : Dict) (coord : list Coordinate) :
  List.NoDup (dict_keys vectorized_axes) ->
  (forall trees nested,
      nest_in_axes trees = Return nested -> length nested = length trees) ->
  match state_in_axes_for_coords in_axes_for_coord nest_in_axes
          vectorized_axes coord with
  | Return levels =>
      length levels = length coord
      /\ forall s, In s levels -> state_axes_keys s = dict_keys vectorized_axes
  | Raise e => exists e', e = FieldUtilsError e'
  end.
Proof.
  intros Hnd Hlen. unfold state_in_axes_for_coords.
  destruct (tuple_of _ coord) as [levels|e] eqn:Ht.
  - pose proof (tuple_of_spec _ _ _ Ht) as Hl.
    assert (Hkeys : forall s, In s levels ->
                      state_axes_keys s = dict_keys vectorized_axes).
    { intros s Hs. apply In_nth_error in Hs. destruct Hs as (i & Hs).
      clear Ht. revert i Hs.
      induction Hl as [|c s' coord levels Hc _ IH]; intros [|i] Hs;
        try discriminate Hs.
      - injection Hs as ->.
        pose proof (single_coordinate_outcome in_axes_for_coord
                      vectorized_axes c Hnd) as Ho.
        rewrite Hc in Ho. exact Ho.
      - apply (IH i Hs). }
    apply List.Forall2_length in Hl.
    destruct levels as [|x0 rest].
    + split; [symmetry; exact Hl|]. intros s [].
    + assert (Hsame : forall x, In x (x0 :: rest) ->
                        state_axes_keys x = state_axes_keys x0).
      { intros x Hx. rewrite (Hkeys x Hx), (Hkeys x0 (or_introl eq_refl)).
        reflexivity. }
      assert (Hnd0 : List.NoDup (state_axes_keys x0))
        by (rewrite (Hkeys x0 (or_introl eq_refl)); exact Hnd).
      pose proof (nest_state_in_axes_outcome nest_in_axes x0 rest Hlen Hnd0
                    Hsame) as Ho.
      destruct (nest_state_in_axes nest_in_axes (x0 :: rest)) as [r|e] eqn:Hr;
        [|exact Ho].
      destruct (nest_state_in_axes_returns nest_in_axes x0 rest r Hnd0 Hr)
        as (_ & Hlr & Hs).
      split; [rewrite Hlr; symmetry; exact Hl|].
      intros s Hin. apply In_nth_error in Hin. destruct Hin as (i & Hi).
      rewrite (proj1 (Hs i s Hi)). apply (Hkeys x0). left. reflexivity.
  - apply tuple_of_raises in Ht. destruct Ht as (c & _ & Hc).
    pose proof (single_coordinate_outcome in_axes_for_coord
                  vectorized_axes c Hnd) as Ho.
    rewrite Hc in Ho. exact Ho.
Qed.

Lemma state_in_axes_for_coords_outcome_witness :
  let in_axes_for_coord := fun v coord : Coordinate =>
    Return (E := Error) (if axis_in coord (axes v) then Some 0 else None) in
  let nest_in_axes := fun trees : list (option nat) =>
                        Return (E := Error) trees in
  let batch := SizedAxis "batch" 2 in
  let ens := SizedAxis "ensemble" 4 in
  let vectorized_axes :=
    [(FType "Param", CartesianProduct [ens; batch]); (FEllipsis, batch)] in
  exists levels,
    state_in_axes_for_coords in_axes_for_coord nest_in_axes vectorized_axes
      [ens; batch] = Return levels
    /\ length levels = 2.
Proof.
  intros in_axes_for_coord nest_in_axes batch ens vectorized_axes.
  eexists. split; [reflexivity|].
  refine (proj1 (state_in_axes_for_coords_outcome in_axes_for_coord
                   nest_in_axes vectorized_axes [ens; batch] _ _)).
  - repeat constructor; cbn; intuition discriminate.
  - intros trees nested [= <-]. reflexivity.
Defined.

(** X16.  Whatever [format_callbacks] returns is a [ModuleAndMethod], and
    formatting it again returns it as it is; the only exception it raises
    is its TypeError. *)
Theorem format_callbacks_normal_form (callback_specs : PyObj) :
  match format_callbacks callback_specs with
  | Return r =>
      (exists module method_name, r = ModuleAndMethod module method_name)
      /\ format_callbacks r = Return r
  | Raise e => exists message, e = TypeError message
  end.
Proof.
  destruct callback_specs as [id|m n|items|s|n|]; cbn.
  - split; [eauto|reflexivity].
  - split; [eauto|reflexivity].
  - destruct items as [|a [|b [|c items]]]; cbn; eauto.
  - destruct s as [|a [|b [|c s]]]; cbn; eauto.
  - eauto.
  - eauto.
Qed.

(** X17.  The coordinate structure that [ensure_unchanged_state_structure]
    compares does not see the sizes of the excluded dimensions: two
    coordinates whose axes agree one by one, except that an axis of an
    excluded dimension may differ in everything but its name, are squeezed
    to the same coordinate. *)
Theorem squeeze_excluded_ignores_sizes (excluded_dims : list string)
  (c1 c2 : Coordinate) :
  Forall2 (fun a b =>
             a = b
             \/ (first_dim a = first_dim b /\ In (first_dim a) excluded_dims))
          (axes c1) (axes c2) ->
  squeeze_excluded excluded_dims c1 = squeeze_excluded excluded_dims c2.
Proof.
  unfold squeeze_excluded. intros H. f_equal.
  induction H as [|a b l1 l2 Hab _ IH]; cbn [map]; [reflexivity|].
  f_equal; [|exact IH]. destruct Hab as [->|[Hd Hin]]; [reflexivity|].
  rewrite <- Hd.
  replace (existsb (String.eqb (first_dim a)) excluded_dims) with true;
    [reflexivity|].
  symmetry. apply existsb_exists. exists (first_dim a).
  split; [exact Hin|apply String.eqb_refl].
Qed.

Lemma squeeze_excluded_ignores_sizes_witness :
  let before := CartesianProduct [SizedAxis "time" 3; SizedAxis "x" 4] in
  let after := CartesianProduct [SizedAxis "time" 7; SizedAxis "x" 4] in
  squeeze_excluded ["time"] before = squeeze_excluded ["time"] after
  /\ squeeze_excluded ["time"] before
     = Return (CartesianProduct [DummyAxis "time" 1; SizedAxis "x" 4]).
Proof.
  intros before after. split; [|reflexivity].
  apply (squeeze_excluded_ignores_sizes ["time"] before after).
  constructor; [right; split; [reflexivity|left; reflexivity]|].
  constructor; [left; reflexivity|constructor].
Defined.

End ModuleUtilsFacts.

Module ParameterizationsFacts.
Import Parameterizations.

Lemma set_fold_insert_lookup (v : Shape) (X : gset string)
  (init : gmap string Shape) (name : string) :
  set_fold (fun name acc => <[ name := v ]> acc) init X !! name
  = if decide (name ∈ X) then Some v else init !! name.
Proof.
  pose (P := fun (r : gmap string Shape) (Y : gset string) =>
                r !! name = if decide (name ∈ Y) then Some v
                            else init !! name).
  change (P (set_fold (fun name acc => <[ name := v ]> acc) init X) X).
  apply set_fold_ind_L; unfold P; clear P.
  - destruct (decide (name ∈ (∅ : gset string))) as [H|_]; [|reflexivity].
    set_solver.
  - intros x Y r Hx IH.
    destruct (decide (name = x)) as [->|Hne].
    + rewrite lookup_insert_eq.
      destruct (decide (x ∈ {[x]} ∪ Y)) as [_|H]; [reflexivity|set_solver].
    + rewrite lookup_insert_ne by congruence. rewrite IH.
      destruct (decide (name ∈ Y)), (decide (name ∈ {[x]} ∪ Y));
        try reflexivity; set_solver.
Qed.

Lemma div_curl_size (volume : gset string) :
  size (div_curl_fields ∩ volume) = 2
  <-> "divergence" ∈ volume /\ "vorticity" ∈ volume.
Proof.
  unfold div_curl_fields.
  destruct (decide ("divergence" ∈ volume)) as [Hd|Hd],
           (decide ("vorticity" ∈ volume)) as [Hv|Hv].
  - replace (({["divergence"; "vorticity"]} : gset string) ∩ volume)
      with ({["divergence"; "vorticity"]} : gset string) by set_solver.
    rewrite size_union by set_solver. rewrite !size_singleton. tauto.
  - replace (({["divergence"; "vorticity"]} : gset string) ∩ volume)
      with ({["divergence"]} : gset string) by set_solver.
    rewrite size_singleton. split; [discriminate|tauto].
  - replace (({["divergence"; "vorticity"]} : gset string) ∩ volume)
      with ({["vorticity"]} : gset string) by set_solver.
    rewrite size_singleton. split; [discriminate|tauto].
  - replace (({["divergence"; "vorticity"]} : gset string) ∩ volume)
      with (∅ : gset string) by set_solver.
    rewrite size_empty. split; [discriminate|tauto].
Qed.

(** X18.  The constructor of [ModalNeuralDivCurlParameterization] raises
    its ValueError exactly when [volume_field_names] lacks [divergence] or
    [vorticity]; the surface fields and the wind keys play no part in the
    check. *)
Theorem output_shapes_requires_div_curl (sigma_shape nodal_shape : Shape)
  (surface_field_names volume_field_names : list string)
  (u_key v_key : string) :
  output_shapes sigma_shape nodal_shape surface_field_names
    volume_field_names u_key v_key
  = Raise (ValueError volume_fields_message)
  <-> ~ ("divergence" ∈ volume_field_names
         /\ "vorticity" ∈ volume_field_names).
Proof.
  unfold output_shapes.
  pose proof (div_curl_size (list_to_set volume_field_names)) as Hs.
  rewrite !elem_of_list_to_set in Hs.
  destruct (size _ =? 2) eqn:E; cbn [negb].
  - apply Nat.eqb_eq in E. split; [discriminate|]. intros Hn.
    exfalso. apply Hn, Hs, E.
  - apply Nat.eqb_neq in E. split; [|reflexivity]. intros _ Hb.
    apply E, Hs, Hb.
Qed.

(** X19.  When the constructor passes its check, [output_shapes] holds:
    for a surface field the nodal shape, also when the name is a volume
    field or a wind key as well; for every other volume field and wind key
    except [divergence] and [vorticity] the sigma shape followed by the
    nodal shape; nothing else.  So [divergence] and [vorticity], which the
    volume fields must contain, get a shape only as surface fields. *)
Theorem output_shapes_lookup (sigma_shape nodal_shape : Shape)
  (surface_field_names volume_field_names : list string)
  (u_key v_key : string) (shapes : gmap string Shape) :
  output_shapes sigma_shape nodal_shape surface_field_names
    volume_field_names u_key v_key = Return shapes ->
  forall name,
    shapes !! name
    = if decide (name ∈ surface_field_names) then Some nodal_shape
      else if decide ((name ∈ volume_field_names \/ name = u_key
                       \/ name = v_key)
                      /\ name <> "divergence" /\ name <> "vorticity")
           then Some (sigma_shape ++ nodal_shape)
           else None.
Proof.
  unfold output_shapes. destruct (size _ =? 2); [|discriminate].
  cbn [negb]. intros [= <-] name. rewrite !set_fold_insert_lookup.
  rewrite lookup_empty.
  destruct (decide (name ∈ (list_to_set surface_field_names : gset string)))
    as [Hs|Hs], (decide (name ∈ surface_field_names)) as [Hs'|Hs'];
    try reflexivity; try (exfalso; set_solver).
  destruct (decide (name ∈ (list_to_set volume_field_names ∪ {[u_key; v_key]})
                           ∖ div_curl_fields)) as [Hv|Hv];
    destruct (decide ((name ∈ volume_field_names \/ name = u_key
                       \/ name = v_key)
                      /\ name <> "divergence" /\ name <> "vorticity"))
      as [Hv'|Hv']; try reflexivity; exfalso; unfold div_curl_fields in *.
  - apply Hv'. set_solver.
  - apply Hv. set_solver.
Qed.

Lemma output_shapes_lookup_witness :
  let shapes_of name :=
    match output_shapes [8] [64; 32] ["surface_pressure"]
            ["divergence"; "vorticity"; "temperature"]
            "u_component_of_wind" "v_component_of_wind" with
    | Return shapes => shapes !! name
    | Raise _ => None
    end in
  shapes_of "temperature" = Some [8; 64; 32]
  /\ shapes_of "u_component_of_wind" = Some [8; 64; 32]
  /\ shapes_of "surface_pressure" = Some [64; 32]
  /\ shapes_of "divergence" = None.
Proof.
  intros shapes_of. subst shapes_of. cbv beta.
  destruct (output_shapes [8] [64; 32] ["surface_pressure"]
              ["divergence"; "vorticity"; "temperature"]
              "u_component_of_wind" "v_component_of_wind")
    as [shapes|e] eqn:H; [|vm_compute in H; discriminate H].
  rewrite !(output_shapes_lookup _ _ _ _ _ _ _ H).
  repeat split; vm_compute; reflexivity.
Defined.

End ParameterizationsFacts.
